(** * rpc_utils: a shallow embedding of [bundle_adjust/rpc_utils.py]

    The module works on numpy [float64] arrays.  The embedding is written
    once, over an interface [Num] of the scalar operations the code uses,
    and is read at two carriers:

    - [f64_num], IEEE binary64 (Rocq's primitive floats): the values the
      code really computes with, NaN and infinities included.  Concrete
      runs are evaluated here.
    - [R_num], the real numbers: exact arithmetic, the idealisation in
      which the algebraic statements (normalisation, the DLT system, the
      mesh, min/max bracketing) are exact.

    Statements about control flow are proved for every carrier.

    Python exceptions are modelled by the [result] type; the functions of
    other packages (the camera model, pyproj, rasterio, geographiclib,
    s2p.common, numpy.linalg) are parameters. *)

From Stdlib Require Import ZArith List Reals Lra Lia Floats Permutation.
From stdpp Require Import gmap strings.

(* ================================================================== *)
(** ** Exceptions *)

Inductive exn : Type :=
| KeyError (k : string)
| ValueError
| TypeError
| IndexError
| OverflowError.

Inductive result (A : Type) : Type :=
| Ok (a : A)
| Raise (e : exn).
Arguments Ok {A} a.
Arguments Raise {A} e.

#[global] Instance result_bind : MBind result := fun A B k m =>
  match m with
  | Ok a => k a
  | Raise e => Raise e
  end.

(* ================================================================== *)
(** ** The scalar interface *)

Class Num : Type := {
  num : Type;
  zero : num;
  one : num;
  fadd : num → num → num;
  fsub : num → num → num;
  fmul : num → num → num;
  fdiv : num → num → num;
  fneg : num → num;
  fsqrt : num → num;            (* np.sqrt *)
  ffabs : num → num;            (* np.fabs *)
  fltb : num → num → bool;      (* a < b *)
  feqb : num → num → bool;      (* a == b *)
  fisnan : num → bool;          (* np.isnan *)
  of_Z : Z → num;               (* float(int) *)
  to_int : num → option Z;      (* int(float): truncation; None = raises *)
  lit_0_001 : num;              (* the literal 0.001 *)
}.

Declare Scope num_scope.
Delimit Scope num_scope with fl.
Notation "x + y" := (fadd x y) : num_scope.
Notation "x - y" := (fsub x y) : num_scope.
Notation "x * y" := (fmul x y) : num_scope.
Notation "x / y" := (fdiv x y) : num_scope.
Notation "- x" := (fneg x) : num_scope.
Notation "x <? y" := (fltb x y) : num_scope.

(** IEEE carriers also have a NaN to store ([np.nan]). *)
Class NumNaN (N : Num) : Type := { fnan : num }.

(* ================================================================== *)
(** ** numpy arrays *)

(** 1-D arrays are lists; an array of shape (n, 2) or (n, 3) is a list of
    rows; a matrix is a list of rows of any length. *)
Abbreviation arr2 := (list (num * num)).
Abbreviation arr3 := (list (num * num * num)).
Abbreviation matrix := (list (list num)).

Section Arrays.
Context {N : Num}.
Local Open Scope num_scope.

Definition np_zeros (n : nat) : list num := repeat zero n.

Definition np_add (u v : list num) : list num := zip_with fadd u v.
Definition np_subtract (u v : list num) : list num := zip_with fsub u v.
Definition np_multiply (u v : list num) : list num := zip_with fmul u v.
Definition np_divide (u v : list num) : list num := zip_with fdiv u v.
Definition np_sqrt (u : list num) : list num := map fsqrt u.
Definition np_fabs (u : list num) : list num := map ffabs u.

(** [arr + c], [c * arr]: a scalar is broadcast. *)
Definition add_scalar (u : list num) (c : num) : list num := map (fun v => v + c) u.
Definition sub_scalar (u : list num) (c : num) : list num := map (fun v => v - c) u.
Definition mul_scalar (u : list num) (c : num) : list num := map (fun v => v * c) u.
Definition scalar_mul (c : num) (u : list num) : list num := map (fun v => c * v) u.

(** [np.vstack([tx, ty]).T] and the column slices [a[:, 0]], [a[:, 1]]. *)
Definition vstack2_T (tx ty : list num) : arr2 := zip tx ty.
Definition col0 (a : arr2) : list num := map fst a.
Definition col1 (a : arr2) : list num := map snd a.

(** [r1 - r0], [r0 + m] on (n, 2) arrays. *)
Definition sub2 (u v : arr2) : arr2 :=
  zip_with (fun p q => (p.1 - q.1, p.2 - q.2)) u v.
Definition add2 (u v : arr2) : arr2 :=
  zip_with (fun p q => (p.1 + q.1, p.2 + q.2)) u v.

(** Sums accumulate from 0, left to right. *)
Definition np_sum (u : list num) : num := fold_left fadd u zero.
Definition np_mean (u : list num) : num := np_sum u / of_Z (Z.of_nat (length u)).

(** [np.minimum], [np.maximum]: the smaller (larger) of the two, and NaN
    as soon as one of them is NaN.  (numpy tests [a <= b]; on a tie the
    two values are equal, up to the sign of a zero.) *)
Definition minimum (a b : num) : num := if (a <? b) || fisnan a then a else b.
Definition maximum (a b : num) : num := if (b <? a) || fisnan a then a else b.

(** [np.min], [np.max] (also [np.amin], [np.amax]): a reduction; the
    empty array raises ValueError. *)
Definition np_min (u : list num) : result num :=
  match u with
  | [] => Raise ValueError
  | x :: u' => Ok (fold_left minimum u' x)
  end.
Definition np_max (u : list num) : result num :=
  match u with
  | [] => Raise ValueError
  | x :: u' => Ok (fold_left maximum u' x)
  end.

(** [np.diag v] for a 1-D [v], and the product [np.dot(D, a)] of a
    matrix with an (n, 2) array. *)
Definition np_diag (v : list num) : matrix :=
  imap (fun i x => imap (fun k _ => if Nat.eqb i k then x else zero) v) v.
Definition vdot (u v : list num) : num := np_sum (np_multiply u v).
Definition np_dot_n2 (D : matrix) (a : arr2) : arr2 :=
  map (fun row => (vdot row (col0 a), vdot row (col1 a))) D.
End Arrays.

(* ================================================================== *)
(** ** The camera model (rpcm.RPCModel or ProjModel)

    A collaborator: the code uses its methods
    [localization(col, row, alt) -> (lon, lat)] and
    [projection(lon, lat, alt) -> (col, row)], which act elementwise on
    arrays, and its attributes [alt_offset] and [alt_scale]. *)

Record CameraModel {N : Num} : Type := {
  localization : num → num → num → num * num;
  projection : num → num → num → num * num;
  alt_offset : num;
  alt_scale : num;
}.
Arguments CameraModel N : clear implicits.

Section Height.
Context {N : Num}.
Local Open Scope num_scope.

Definition zip_with3 {A B C D} (f : A → B → C → D)
    (x : list A) (y : list B) (z : list C) : list D :=
  zip_with (fun g c => g c) (zip_with f x y) z.

(** [rpc.localization(x, y, z)] and [rpc.projection(lon, lat, z)] on
    arrays, as the pair of coordinate arrays. *)
Definition localization_v (m : CameraModel N) (x y z : list num)
    : list num * list num :=
  (zip_with3 (fun a b c => (localization m a b c).1) x y z,
   zip_with3 (fun a b c => (localization m a b c).2) x y z).
Definition projection_v (m : CameraModel N) (lon lat z : list num)
    : list num * list num :=
  (zip_with3 (fun a b c => (projection m a b c).1) lon lat z,
   zip_with3 (fun a b c => (projection m a b c).2) lon lat z).

(** rpc_utils.py:147 *)
Definition find_corresponding_point (model_a model_b : CameraModel N)
    (x y z : list num) : list num * list num * list num :=
  let '(t1, t2) := localization_v model_a x y z in
  let '(xp, yp) := projection_v model_b t1 t2 z in
  (xp, yp, z).

Definition HSTEP : Z := 1.

Section Loop.
Variables (model_a model_b : CameraModel N).
Variables (x1 y1 x2 y2 : list num).

Definition p2 : arr2 := vstack2_T x2 y2.

(** [r0]: the reprojection into image B at heights [h0]. *)
Definition reproject (h0 : list num) : arr2 :=
  let '(tx, ty, _) := find_corresponding_point model_a model_b x1 y1 h0 in
  vstack2_T tx ty.
(** [r1]: the same one HSTEP higher. *)
Definition reproject_probe (h0 : list num) : arr2 :=
  reproject (add_scalar h0 (of_Z HSTEP)).
Definition probe_a (h0 : list num) : arr2 := sub2 (reproject_probe h0) (reproject h0).
Definition resid_b (h0 : list num) : arr2 := sub2 p2 (reproject h0).

(** lines 202-204 *)
Definition height_inc (h0 : list num) : list num :=
  let a := probe_a h0 in
  let b := resid_b h0 in
  let diagabdot :=
    np_add (np_multiply (col0 a) (col0 b)) (np_multiply (col1 a) (col1 b)) in
  let diagaadot :=
    np_add (np_multiply (col0 a) (col0 a)) (np_multiply (col1 a) (col1 a)) in
  np_divide diagabdot diagaadot.

(** line 210: [q = r0 + np.dot(np.diag(h0_inc), a)] *)
Definition predicted_q (h0 : list num) : arr2 :=
  add2 (reproject h0) (np_dot_n2 (np_diag (height_inc h0)) (probe_a h0)).

(** lines 212-213 *)
Definition residual (h0 : list num) : list num :=
  let tmp := sub2 (predicted_q h0) p2 in
  np_sqrt (np_add (np_multiply (col0 tmp) (col0 tmp))
                  (np_multiply (col1 tmp) (col1 tmp))).

(** line 216 *)
Definition update_height (h0 : list num) : list num :=
  np_add h0 (mul_scalar (height_inc h0) (of_Z HSTEP)).

(** line 218: [np.max(np.fabs(h0_inc)) < 0.001] *)
Definition threshold_met (h0 : list num) : result bool :=
  m ← np_max (np_fabs (height_inc h0)) ;
  Ok (m <? lit_0_001).

(** One pass through the body of the [for] loop: the new [h0], the new
    [err], and whether [break] is taken. *)
Definition iteration (h0 : list num) : result (list num * list num * bool) :=
  let err := residual h0 in
  let h0' := update_height h0 in
  brk ← threshold_met h0 ;
  Ok (h0', err, brk).

(** [for i in range(fuel)], counting the passes made in [cnt]. *)
Fixpoint for_range (fuel : nat) (h0 err : list num) (cnt : nat)
    : result (list num * list num * nat) :=
  match fuel with
  | O => Ok (h0, err, cnt)
  | S fuel' =>
      '(h0', err', brk) ← iteration h0 ;
      if (brk : bool) then Ok (h0', err', S cnt)
      else for_range fuel' h0' err' (S cnt)
  end.

(** [compute_height] together with the number of passes it made. *)
Definition compute_height_passes : result (list num * list num * nat) :=
  let n := length x1 in
  for_range 100 (np_zeros n) (np_zeros n) 0.

(** rpc_utils.py:168 *)
Definition compute_height : result (list num * list num) :=
  '(h0, err, _) ← compute_height_passes ;
  Ok (h0, err).

(** The heights after [k] passes of the body, [break] ignored. *)
Fixpoint heights_after (k : nat) : list num :=
  match k with
  | O => np_zeros (length x1)
  | S k' => update_height (heights_after k')
  end.

(** The heights reached from [h0] by [k] passes. *)
Definition heights_from (h0 : list num) (k : nat) : list num :=
  Nat.iter k update_height h0.
End Loop.
End Height.

(* ================================================================== *)
(** ** The shared configuration [s2p.config.cfg] and the collaborators *)

Inductive cfg_val (T : Type) : Type :=
| VNone
| VBool (b : bool)
| VStr (s : string)
| VNum (v : T)
| VBbx (b : T * T * T * T).
Arguments VNone {T}.
Arguments VBool {T} b.
Arguments VStr {T} s.
Arguments VNum {T} v.
Arguments VBbx {T} b.

(** An open raster ([rasterio.open(im)]): its shape (rows, columns), the
    change of coordinates to its CRS ([pyproj.transform]), the inverse of
    its affine transform ([~dataset.transform]) and the windowed read of
    band 1, [dataset.read(1, window=((y0, y1), (x0, x1)))], flattened. *)
Record Dataset {N : Num} : Type := {
  ds_shape : Z * Z;
  ds_from_lonlat : num → num → num * num;
  ds_inv_transform : num * num → num * num;
  ds_read : Z * Z → Z * Z → list num;
}.
Arguments Dataset N : clear implicits.

(** The functions of other packages.  They are assumed to return; what
    they compute is left open.  One failure is modelled where it is
    called: that of [compute_utm_zone] on the mean of a polygon with no
    vertex, in [roi_process]. *)
Record Env {N : Num} : Type := {
  rasterio_open : cfg_val num → Dataset N;
  geoid_above_ellipsoid : num → num → num;
  compute_utm_zone : num → num → string;
  (* geographiclib.utm_proj(zone) followed by pyproj.transform, per vertex *)
  to_utm : string → num → num → num * num;
  bounding_box2D : list (num * num) → num * num * num * num;
  (* s2p.common.points_apply_homography, per point *)
  apply_homography : list (list num) → num * num → num * num;
  linalg_inv : list (list num) → list (list num);
  (* np.linalg.svd(A) = (W, S, V) *)
  linalg_svd : list (list num) → list (list num) * list num * list (list num);
}.
Arguments Env N : clear implicits.

Section Altitude.
Context {N : Num} {NN : NumNaN N}.
Local Open Scope num_scope.
Implicit Types cfg : gmap string (cfg_val num).

(** [cfg[key]] *)
Definition cfg_get cfg (key : string) : result (cfg_val num) :=
  match cfg !! key with
  | Some v => Ok v
  | None => Raise (KeyError key)
  end.

(** The vertices of the 3D ROI, {2D ROI} x [m, M], as three arrays. *)
Definition roi_vertices (x y w h : Z) (m M : num)
    : list num * list num * list num :=
  (map of_Z [x; x; x; x; x + w; x + w; x + w; x + w]%Z,
   map of_Z [y; y; y + h; y + h; y; y; y + h; y + h]%Z,
   [m; M; m; M; m; M; m; M]).

(** rpc_utils.py:224 *)
Definition geodesic_bounding_box (rpc : CameraModel N) (x y w h : Z)
    : result (num * num * num * num) :=
  let m := alt_offset rpc - alt_scale rpc in
  let M := alt_offset rpc + alt_scale rpc in
  let '(xs, ys, a) := roi_vertices x y w h m M in
  let '(lon, lat) := localization_v rpc xs ys a in
  lon_m ← np_min lon; lon_M ← np_max lon;
  lat_m ← np_min lat; lat_M ← np_max lat;
  Ok (lon_m, lon_M, lat_m, lat_M).

(** rpc_utils.py:258 *)
Definition altitude_range_coarse (rpc : CameraModel N) (scale_factor : num)
    : num * num :=
  let m := alt_offset rpc - scale_factor * alt_scale rpc in
  let M := alt_offset rpc + scale_factor * alt_scale rpc in
  (m, M).

(** [altitude_range_coarse(rpc, v)] for a configuration value [v]: the
    product [v * rpc.alt_scale] needs a number.  A bool is one ([True] is
    1 and [False] is 0); [None], a string and a tuple raise TypeError. *)
Definition altitude_range_coarse_cfg (rpc : CameraModel N) (v : cfg_val num)
    : result (num * num) :=
  match v with
  | VNum k => Ok (altitude_range_coarse rpc k)
  | VBool b => Ok (altitude_range_coarse rpc (of_Z (if b then 1 else 0)))
  | _ => Raise TypeError
  end.

(** [int(v)]: ValueError on NaN, OverflowError on an infinity. *)
Definition py_int (v : num) : result Z :=
  match to_int v with
  | Some z => Ok z
  | None => Raise (if fisnan v then ValueError else OverflowError)
  end.

(** [np.clip] on integers. *)
Definition clip (a lo hi : Z) : Z := Z.min (Z.max a lo) hi.

(** [np.nanmin], [np.nanmax]: the NaN entries are ignored; all NaN gives
    NaN, the empty array raises. *)
Definition np_nanmin (u : list num) : result num :=
  match u with
  | [] => Raise ValueError
  | _ => match filter (fun v => negb (fisnan v)) u with
         | [] => Ok fnan
         | x :: r => Ok (fold_left minimum r x)
         end
  end.
Definition np_nanmax (u : list num) : result num :=
  match u with
  | [] => Raise ValueError
  | _ => match filter (fun v => negb (fisnan v)) u with
         | [] => Ok fnan
         | x :: r => Ok (fold_left maximum r x)
         end
  end.

(** The read window of lines 296-312: [(x0, y0, w, h)]. *)
Definition dem_window (ds : Dataset N) (lon_m lon_M lat_m lat_M : num)
    : result (Z * Z * Z * Z) :=
  let p0 := ds_inv_transform ds (ds_from_lonlat ds lon_m lat_m) in
  let p1 := ds_inv_transform ds (ds_from_lonlat ds lon_M lat_M) in
  let px := [p0.1; p1.1] in
  let py := [p0.2; p1.2] in
  a ← np_min px; b ← np_max px; c ← np_min py; d ← np_max py;
  px_min ← py_int a; px_max ← py_int (b + of_Z 1);
  py_min ← py_int c; py_max ← py_int (d + of_Z 1);
  let '(x, y, w, h) :=
    (px_min, py_min, px_max - px_min + 1, py_max - py_min + 1)%Z in
  let '(sizey, sizex) := ds_shape ds in
  let x0 := clip x 0 (sizex - 1) in
  let y0 := clip y 0 (sizey - 1) in
  let w := (w - (x0 - x))%Z in
  let h := (h - (y0 - y))%Z in
  let w := clip w 0 (sizex - 1 - x0) in
  let h := clip h 0 (sizey - 1 - y0) in
  Ok (x0, y0, w, h).

(** rpc_utils.py:274 *)
Definition min_max_heights_from_bbx (env : Env N) cfg (im : cfg_val num)
    (lon_m lon_M lat_m lat_M : num) (rpc : CameraModel N)
    : result (num * num) :=
  let dataset := rasterio_open env im in
  '(x0, y0, w, h) ← dem_window dataset lon_m lon_M lat_m lat_M;
  if negb (w =? 0)%Z && negb (h =? 0)%Z then
    let array := ds_read dataset (y0, y0 + h)%Z (x0, x0 + w)%Z in
    let array := map (fun v => if feqb v (of_Z (-32768)) then fnan else v) array in
    hmin ← np_nanmin array;
    hmax ← np_nanmax array;
    mode ← cfg_get cfg "exogenous_dem_geoid_mode";
    match mode with
    | VBool true =>
        let geoid := geoid_above_ellipsoid env
                       ((lat_m + lat_M) / of_Z 2) ((lon_m + lon_M) / of_Z 2) in
        Ok (hmin + geoid, hmax + geoid)
    | _ => Ok (hmin, hmax)
    end
  else
    k ← cfg_get cfg "rpc_alt_range_scale_factor";
    altitude_range_coarse_cfg rpc k.

(** rpc_utils.py:332 *)
Definition altitude_range (env : Env N) cfg (rpc : CameraModel N)
    (x y w h : Z) (margin_top margin_bottom : num) : result (num * num) :=
  '(lon_m, lon_M, lat_m, lat_M) ← geodesic_bounding_box rpc x y w h;
  dem ← cfg_get cfg "exogenous_dem";
  match dem with
  | VNone =>
      k ← cfg_get cfg "rpc_alt_range_scale_factor";
      altitude_range_coarse_cfg rpc k
  | im =>
      '(h_m, h_M) ← min_max_heights_from_bbx env cfg im lon_m lon_M lat_m lat_M rpc;
      Ok (h_m + margin_bottom, h_M + margin_top)
  end.
End Altitude.

(* ================================================================== *)
(** ** ROI from a polygon *)

Record ROI (T : Type) : Type := { roi_x : T; roi_y : T; roi_w : T; roi_h : T }.
Arguments roi_x {T} r.
Arguments roi_y {T} r.
Arguments roi_w {T} r.
Arguments roi_h {T} r.
Arguments Build_ROI {T} roi_x roi_y roi_w roi_h.

Section Roi.
Context {N : Num}.
Local Open Scope num_scope.
Implicit Types cfg : gmap string (cfg_val num).

(** Python's builtin [min] and [max] over a sequence: the first element,
    replaced by each later one that compares strictly below (above);
    the empty sequence raises ValueError. *)
Definition py_min (u : list num) : result num :=
  match u with
  | [] => Raise ValueError
  | x :: r => Ok (fold_left (fun m v => if v <? m then v else m) r x)
  end.
Definition py_max (u : list num) : result num :=
  match u with
  | [] => Raise ValueError
  | x :: r => Ok (fold_left (fun m v => if m <? v then v else m) r x)
  end.

(** [if not utm_zone]: [None] and the empty string are false. *)
Definition zone_or_default (utm_zone : option string) (default : string) : string :=
  match utm_zone with
  | Some z => if String.eqb z "" then default else z
  | None => default
  end.

(** Line 498, [geographiclib.compute_utm_zone] at the mean vertex
    [ll_poly.mean(axis=0)].  The mean of an array with no row is NaN, and
    [compute_utm_zone] raises on a NaN longitude (it takes [int] of it);
    on the mean of a polygon with a vertex it is assumed to return. *)
Definition mean_utm_zone (env : Env N) (ll_poly : arr2) : result string :=
  match ll_poly with
  | [] => Raise ValueError
  | _ => Ok (compute_utm_zone env (np_mean (col0 ll_poly)) (np_mean (col1 ll_poly)))
  end.

(** Lines 497-498: a zone that is given and not empty is kept, else the
    zone of the mean vertex is computed. *)
Definition settle_utm_zone (env : Env N) (ll_poly : arr2)
    (utm_zone : option string) : result string :=
  match utm_zone with
  | Some z => if String.eqb z "" then mean_utm_zone env ll_poly else Ok z
  | None => mean_utm_zone env ll_poly
  end.

(** rpc_utils.py:479.  The function mutates the global [cfg]: the
    configuration is threaded through, and is returned as it stands
    when the call ends, by [return] or by an exception.  The zone is
    settled before anything is written. *)
Definition roi_process (env : Env N) (rpc : CameraModel N) (ll_poly : arr2)
    (utm_zone : option string) cfg
    : gmap string (cfg_val num) * result (ROI num) :=
  match settle_utm_zone env ll_poly utm_zone with
  | Raise e => (cfg, Raise e)
  | Ok utm_zone =>
  let cfg := <["utm_zone" := VStr utm_zone]> cfg in
  let en := map (fun p => to_utm env utm_zone p.1 p.2) ll_poly in
  let easting := map fst en in
  let northing := map snd en in
  match py_min easting with Raise e => (cfg, Raise e) | Ok east_min =>
  match py_max easting with Raise e => (cfg, Raise e) | Ok east_max =>
  match py_min northing with Raise e => (cfg, Raise e) | Ok nort_min =>
  match py_max northing with Raise e => (cfg, Raise e) | Ok nort_max =>
    let cfg := <["utm_bbx" := VBbx (east_min, east_max, nort_min, nort_max)]> cfg in
    let img_pts :=
      map (fun p => projection rpc p.1 p.2 (alt_offset rpc)) ll_poly in
    let '(x, y, w, h) := bounding_box2D env img_pts in
    (cfg, Ok {| roi_x := x; roi_y := y; roi_w := w; roi_h := h |})
  end end end end
  end.

(** Whether the caller forces the zone; the zone [roi_process] settles on
    when the zone is forced or the polygon has a vertex, and the UTM
    coordinates of the vertices in it. *)
Definition zone_forced (utm_zone : option string) : bool :=
  match utm_zone with
  | Some z => negb (String.eqb z "")
  | None => false
  end.
Definition settled_zone (env : Env N) (ll_poly : arr2) (utm_zone : option string)
    : string :=
  zone_or_default utm_zone
    (compute_utm_zone env (np_mean (col0 ll_poly)) (np_mean (col1 ll_poly))).
Definition easting (env : Env N) (ll_poly : arr2) (utm_zone : option string)
    : list num :=
  map fst (map (fun p => to_utm env (settled_zone env ll_poly utm_zone) p.1 p.2) ll_poly).
Definition northing (env : Env N) (ll_poly : arr2) (utm_zone : option string)
    : list num :=
  map snd (map (fun p => to_utm env (settled_zone env ll_poly utm_zone) p.1 p.2) ll_poly).
End Roi.

(* ================================================================== *)
(** ** The point mesh *)

Section Mesh.
Context {N : Num}.
Local Open Scope num_scope.

Definition of_nat (n : nat) : num := of_Z (Z.of_nat n).

(** [np.linspace(start, stop, num)], from numpy's documentation: [num]
    evenly spaced samples over [start, stop], the last one being [stop]
    itself; a single sample is [start]. *)
Definition np_linspace (start stop : num) (n : nat) : list num :=
  match n with
  | O => []
  | S O => [of_nat 0 * (stop - start) + start]
  | S (S d' as d) =>
      let step := (stop - start) / of_nat d in
      map (fun i => of_nat i * step + start) (seq 0 d) ++ [stop]
  end.

(** rpc_utils.py:519.  The three broadcast sums have shape
    (n_alt, n_row, n_col); [reshape(-1)] reads them row-major. *)
Definition generate_point_mesh (col_range row_range alt_range : num * num * nat)
    : list num * list num * list num :=
  let lin := fun v : num * num * nat => np_linspace v.1.1 v.1.2 v.2 in
  let cols := lin col_range in
  let rows := lin row_range in
  let alts := lin alt_range in
  (flat_map (fun a => flat_map (fun r =>
      map (fun c => c + of_Z 0 * r + of_Z 0 * a) cols) rows) alts,
   flat_map (fun a => flat_map (fun r =>
      map (fun c => of_Z 0 * c + r + of_Z 0 * a) cols) rows) alts,
   flat_map (fun a => flat_map (fun r =>
      map (fun c => of_Z 0 * c + of_Z 0 * r + a) cols) rows) alts).

(** The (col, row, alt) tuples of a mesh. *)
Definition mesh_points (mesh : list num * list num * list num) : arr3 :=
  zip_with3 (fun c r a => (c, r, a)) mesh.1.1 mesh.1.2 mesh.2.
End Mesh.

(* ================================================================== *)
(** ** Disparity range *)

Section Disparity.
Context {N : Num} {NN : NumNaN N}.
Local Open Scope num_scope.
Implicit Types cfg : gmap string (cfg_val num).

Definition points_apply_homography (env : Env N) (H : matrix) (pts : arr2) : arr2 :=
  map (apply_homography env H) pts.

(** rpc_utils.py:635 *)
Definition alt_to_disp (env : Env N) (rpc1 rpc2 : CameraModel N)
    (x y alt : list num) (H1 H2 : matrix) (A : option matrix) : list num :=
  let '(xx, yy, _) := find_corresponding_point rpc1 rpc2 x y alt in
  let p1 := vstack2_T x y in
  let p2 := vstack2_T xx yy in
  let p2 := match A with
            | Some A => points_apply_homography env (linalg_inv env A) p2
            | None => p2
            end in
  let p1 := points_apply_homography env H1 p1 in
  let p2 := points_apply_homography env H2 p2 in
  np_subtract (col0 p2) (col0 p1).

(** rpc_utils.py:696 *)
Definition altitude_range_to_disp_range (env : Env N) (m M : num)
    (rpc1 rpc2 : CameraModel N) (x y w h : Z) (H1 H2 : matrix)
    (A : option matrix) (margin_top margin_bottom : num)
    : result (num * num) :=
  let '(a, b, c) := roi_vertices x y w h m M in
  let d := alt_to_disp env rpc1 rpc2 a b c H1 H2 A in
  d_min ← np_min d; d_max ← np_max d;
  Ok (d_min, d_max).

(** The 8 disparities the range is taken over. *)
Definition corner_disparities (env : Env N) (m M : num)
    (rpc1 rpc2 : CameraModel N) (x y w h : Z) (H1 H2 : matrix)
    (A : option matrix) : list num :=
  let '(a, b, c) := roi_vertices x y w h m M in
  alt_to_disp env rpc1 rpc2 a b c H1 H2 A.

(** rpc_utils.py:670 *)
Definition exogenous_disp_range_estimation (env : Env N) cfg
    (rpc1 rpc2 : CameraModel N) (x y w h : Z) (H1 H2 : matrix)
    (A : option matrix) (margin_top margin_bottom : num)
    : result (num * num) :=
  '(m, M) ← altitude_range env cfg rpc1 x y w h margin_top margin_bottom;
  altitude_range_to_disp_range env m M rpc1 rpc2 x y w h H1 H2 A
    margin_top margin_bottom.
End Disparity.

(* ================================================================== *)
(** ** Normalisation and the DLT *)

Section Dlt.
Context {N : Num}.
Local Open Scope num_scope.

Definition np_eye (n : nat) : matrix :=
  map (fun i => map (fun j => if Nat.eqb i j then one else zero) (seq 0 n)) (seq 0 n).

(** [M[i, j] = v] *)
Definition mset (M : matrix) (i j : nat) (v : num) : matrix :=
  alter (fun row => <[j := v]> row) i M.

(** [u ** 2] *)
Definition np_square (u : list num) : list num := map (fun v => v * v) u.

Definition arr3_col0 (a : arr3) : list num := map (fun p => p.1.1) a.
Definition arr3_col1 (a : arr3) : list num := map (fun p => p.1.2) a.
Definition arr3_col2 (a : arr3) : list num := map (fun p => p.2) a.
Definition vstack3_T (u v w : list num) : arr3 :=
  zip_with3 (fun a b c => (a, b, c)) u v w.

(** rpc_utils.py:805 *)
Definition normalize_2d_points (pts : arr2) : arr2 * matrix :=
  let cx := np_mean (col0 pts) in
  let cy := np_mean (col1 pts) in
  let new_x := sub_scalar (col0 pts) cx in
  let new_y := sub_scalar (col1 pts) cy in
  let mean_dist := np_mean (np_sqrt (np_add (np_square new_x) (np_square new_y))) in
  let s := fsqrt (of_Z 2) / mean_dist in
  let new_x := scalar_mul s new_x in
  let new_y := scalar_mul s new_y in
  let T := np_eye 3 in
  let T := mset T 0 0 s in
  let T := mset T 1 1 s in
  let T := mset T 0 2 (- s * cx) in
  let T := mset T 1 2 (- s * cy) in
  (vstack2_T new_x new_y, T).

(** rpc_utils.py:853 *)
Definition normalize_3d_points (pts : arr3) : arr3 * matrix :=
  let cx := np_mean (arr3_col0 pts) in
  let cy := np_mean (arr3_col1 pts) in
  let cz := np_mean (arr3_col2 pts) in
  let new_x := sub_scalar (arr3_col0 pts) cx in
  let new_y := sub_scalar (arr3_col1 pts) cy in
  let new_z := sub_scalar (arr3_col2 pts) cz in
  let mean_dist :=
    np_mean (np_sqrt (np_add (np_add (np_square new_x) (np_square new_y))
                             (np_square new_z))) in
  let s := fsqrt (of_Z 3) / mean_dist in
  let new_x := scalar_mul s new_x in
  let new_y := scalar_mul s new_y in
  let new_z := scalar_mul s new_z in
  let U := np_eye 4 in
  let U := mset U 0 0 s in
  let U := mset U 1 1 s in
  let U := mset U 2 2 s in
  let U := mset U 0 3 (- s * cx) in
  let U := mset U 1 3 (- s * cy) in
  let U := mset U 2 3 (- s * cz) in
  (vstack3_T new_x new_y new_z, U).

(** [np.dot(A, B)] for two matrices. *)
Definition mat_col (j : nat) (B : matrix) : list num :=
  map (fun row => nth j row zero) B.
Definition np_dot (A B : matrix) : matrix :=
  let ncols := length (hd [] B) in
  map (fun row => map (fun j => vdot row (mat_col j B)) (seq 0 ncols)) A.

(** [row[start:start+len(vals)] = vals] *)
Definition set_slice (row : list num) (start : nat) (vals : list num) : list num :=
  take start row ++ vals ++ drop (start + length vals) row.

(** The two rows a correspondence [(X_i, x_i)] contributes to the
    system (lines 786-789). *)
Definition dlt_rows (Xi : num * num * num) (xi : num * num) : matrix :=
  let Xh := [Xi.1.1; Xi.1.2; Xi.2; of_Z 1] in
  let row0 := np_zeros 12 in
  let row0 := set_slice row0 4 (scalar_mul (of_Z (-1)) Xh) in
  let row0 := set_slice row0 8 (scalar_mul xi.2 Xh) in
  let row1 := np_zeros 12 in
  let row1 := set_slice row1 0 Xh in
  let row1 := set_slice row1 8 (scalar_mul (- xi.1) Xh) in
  [row0; row1].

(** The matrix [A] of the system, of shape (2 len(x), 12). *)
Definition dlt_system (X : arr3) (x : arr2) : matrix :=
  mjoin (zip_with dlt_rows X x).

(** [v.reshape((3, 4))] *)
Definition reshape_3_4 (v : list num) : result matrix :=
  if Nat.eqb (length v) 12
  then Ok [take 4 v; take 4 (drop 4 v); drop 8 v]
  else Raise ValueError.

(** rpc_utils.py:755 *)
Definition camera_matrix (env : Env N) (X : arr3) (x : arr2) : result matrix :=
  let '(X, U) := normalize_3d_points X in
  let '(x, T) := normalize_2d_points x in
  let A := dlt_system X x in
  let '(_, _, V) := linalg_svd env A in
  match last V with
  | None => Raise IndexError
  | Some v =>
      P ← reshape_3_4 v;
      Ok (np_dot (np_dot (linalg_inv env T) P) U)
  end.
End Dlt.

(* ================================================================== *)
(** ** The two carriers *)

(** IEEE binary64. *)
Definition f64_of_Z (z : Z) : float :=
  SF2Prim (binary_normalize prec emax z 0 false).

(** [int(v)]: truncation toward zero; NaN and the infinities raise. *)
Definition f64_to_int (v : float) : option Z :=
  match Prim2SF v with
  | S754_zero _ => Some 0%Z
  | S754_finite s m e =>
      Some (cond_Zopp s (if (0 <=? e)%Z then Z.shiftl (Z.pos m) e
                         else Z.shiftr (Z.pos m) (- e)))
  | _ => None
  end.

#[global] Instance f64_num : Num := {|
  num := float;
  zero := 0%float;
  one := 1%float;
  fadd := PrimFloat.add;
  fsub := PrimFloat.sub;
  fmul := PrimFloat.mul;
  fdiv := PrimFloat.div;
  fneg := PrimFloat.opp;
  fsqrt := PrimFloat.sqrt;
  ffabs := PrimFloat.abs;
  fltb := PrimFloat.ltb;
  feqb := PrimFloat.eqb;
  fisnan := PrimFloat.is_nan;
  of_Z := f64_of_Z;
  to_int := f64_to_int;
  lit_0_001 := 0x1.0624dd2f1a9fcp-10%float;
|}.

#[global] Instance f64_nan : NumNaN f64_num := {| fnan := PrimFloat.nan |}.

(** Exact arithmetic. *)
Definition R_ltb (a b : R) : bool := if Rlt_dec a b then true else false.
Definition R_eqb (a b : R) : bool := if Req_dec_T a b then true else false.
Definition R_to_int (v : R) : option Z :=
  Some (if Rle_dec 0 v then Int_part v else (- Int_part (- v))%Z).

#[global] Instance R_num : Num := {|
  num := R;
  zero := 0%R;
  one := 1%R;
  fadd := Rplus;
  fsub := Rminus;
  fmul := Rmult;
  fdiv := Rdiv;
  fneg := Ropp;
  fsqrt := R_sqrt.sqrt;
  ffabs := Rabs;
  fltb := R_ltb;
  feqb := R_eqb;
  fisnan := fun _ => false;
  of_Z := IZR;
  to_int := R_to_int;
  lit_0_001 := (1 / 1000)%R;
|}.

(* ================================================================== *)
(** ** Statement helpers and concrete inputs

    The single-point readings of the array code that the statements are
    written with, and the inputs of the runs evaluated further down. *)

(** A camera pair whose reprojection is not affine in the altitude:
    image B sees the point at column [1024 z^2]. *)
Definition quad_model : CameraModel f64_num :=
  @Build_CameraModel f64_num
    (fun x y z : float => (x, y))
    (fun lon lat z : float => (1024 * (z * z), 0)%float)
    0%float 1%float.

(** The reprojection of one point: [find_corresponding_point] on a
    single pixel. *)
Definition corresponding_point {N : Num} (model_a model_b : CameraModel N)
    (x y z : num) : num * num :=
  let t := localization model_a x y z in
  projection model_b t.1 t.2 z.

(** What one pass computes for a single point, written out: the probe
    displacement [a = r1 - r0], the residual [b = p2 - r0], the increment
    [h_inc = (a.b)/(a.a)] and the linear prediction [q = r0 + h_inc a]. *)
Section Pointwise.
Context {N : Num}.
Local Open Scope num_scope.
Variables (model_a model_b : CameraModel N).
Variables (xa ya xb yb hi : num).

Definition point_r0 : num * num := corresponding_point model_a model_b xa ya hi.
Definition point_r1 : num * num :=
  corresponding_point model_a model_b xa ya (hi + of_Z HSTEP).
Definition point_a : num * num :=
  (point_r1.1 - point_r0.1, point_r1.2 - point_r0.2).
Definition point_b : num * num := (xb - point_r0.1, yb - point_r0.2).
Definition point_inc : num :=
  (point_a.1 * point_b.1 + point_a.2 * point_b.2)
  / (point_a.1 * point_a.1 + point_a.2 * point_a.2).
Definition point_q : num * num :=
  (point_r0.1 + point_inc * point_a.1, point_r0.2 + point_inc * point_a.2).
Definition point_err : num :=
  fsqrt ((point_q.1 - xb) * (point_q.1 - xb) + (point_q.2 - yb) * (point_q.2 - yb)).
End Pointwise.

(** Row [i] of [q = r0 + np.dot(np.diag(h0_inc), a)] (line 210) for the
    batch at the heights [h0].  Row [i] of the diagonal matrix holds the
    increment [x] of point [i] in column [i] and 0 elsewhere; it is
    multiplied with the two columns of [a], which hold the probe
    displacements of all the points of the batch. *)
Definition diag_row {N : Num} (v : list num) (i : nat) (x : num) : list num :=
  imap (fun k _ => if Nat.eqb i k then x else zero) v.

Definition point_q_row {N : Num} (model_a model_b : CameraModel N)
    (x1 y1 x2 y2 h0 : list num) (i : nat) (xa ya xb yb hi : num) : num * num :=
  let row := diag_row (height_inc model_a model_b x1 y1 x2 y2 h0) i
               (point_inc model_a model_b xa ya xb yb hi) in
  let a := probe_a model_a model_b x1 y1 h0 in
  (fadd (point_r0 model_a model_b xa ya hi).1 (vdot row (col0 a)),
   fadd (point_r0 model_a model_b xa ya hi).2 (vdot row (col1 a))).

(** Two identical cameras: the reprojection does not depend on the
    altitude, so the probe displacement is the zero vector. *)
Definition flat_model : CameraModel f64_num :=
  @Build_CameraModel f64_num
    (fun x y z : float => (x, y))
    (fun lon lat z : float => (lon, lat))
    0%float 1%float.

(** An exact-arithmetic camera pair: image B is image A shifted along the
    columns by the altitude. *)
Definition shift_model : CameraModel R_num :=
  @Build_CameraModel R_num
    (fun x y z : R => (x, y))
    (fun lon lat z : R => ((lon + z)%R, lat))
    0%R 1%R.

(** A configuration, a raster and a camera for the altitude runs.  The
    raster "dem.tif" has 10 x 10 pixels, in pixel coordinates, and reads
    the heights 10, 20 and one nodata cell; any other file has a single
    pixel, so every window on it is empty. *)
Definition dem_10x10 : Dataset f64_num :=
  @Build_Dataset f64_num (10, 10)%Z
    (fun lon lat : float => (lon, lat))
    (fun p : float * float => p)
    (fun _ _ => [10%float; 20%float; (-32768)%float]).

Definition dem_1x1 : Dataset f64_num :=
  @Build_Dataset f64_num (1, 1)%Z
    (fun lon lat : float => (lon, lat))
    (fun p : float * float => p)
    (fun _ _ => []).

Definition env0 : Env f64_num :=
  @Build_Env f64_num
    (fun v => match v with
              | VStr s => if String.eqb s "dem.tif" then dem_10x10 else dem_1x1
              | _ => dem_1x1
              end)
    (fun lat lon : float => 0%float)
    (fun lon lat : float => "31N")
    (fun zone (lon lat : float) => (lon, lat))
    (fun pts => (0%float, 0%float, 0%float, 0%float))
    (fun H (p : float * float) => p)
    (fun A => A)
    (fun A => ([], [], [])).

Definition cfg_with_dem (im : string) : gmap string (cfg_val float) :=
  <["exogenous_dem" := VStr im]>
  (<["exogenous_dem_geoid_mode" := VBool false]>
  (<["rpc_alt_range_scale_factor" := @VNum float 1%float]> ∅)).

Definition cfg_without_dem : gmap string (cfg_val float) :=
  <["exogenous_dem" := VNone]>
  (<["exogenous_dem_geoid_mode" := VBool false]>
  (<["rpc_alt_range_scale_factor" := @VNum float 1%float]> ∅)).

(** The disparity of one point at a known altitude: [alt_to_disp] on a
    single pixel. *)
Definition point_disp {N : Num} (env : Env N) (rpc1 rpc2 : CameraModel N)
    (H1 H2 : matrix) (A : option matrix) (x y alt : num) : num :=
  let p2 := corresponding_point rpc1 rpc2 x y alt in
  let p2 := match A with
            | Some A => apply_homography env (linalg_inv env A) p2
            | None => p2
            end in
  fsub (apply_homography env H2 p2).1 (apply_homography env H1 (x, y)).1.

(** The centroid and the mean distance from the origin of a point set,
    and a matrix applied to a point in homogeneous coordinates. *)
Section PointSets.
Context {N : Num}.
Local Open Scope num_scope.

Definition centroid2 (pts : arr2) : num * num :=
  (np_mean (col0 pts), np_mean (col1 pts)).
Definition mean_radius2 (pts : arr2) : num :=
  np_mean (np_sqrt (np_add (np_square (col0 pts)) (np_square (col1 pts)))).
Definition centroid3 (pts : arr3) : num * num * num :=
  (np_mean (arr3_col0 pts), np_mean (arr3_col1 pts), np_mean (arr3_col2 pts)).
Definition mean_radius3 (pts : arr3) : num :=
  np_mean (np_sqrt (np_add (np_add (np_square (arr3_col0 pts))
                                   (np_square (arr3_col1 pts)))
                           (np_square (arr3_col2 pts)))).

Definition mat_vec (M : matrix) (v : list num) : list num :=
  map (fun row => vdot row v) M.
Definition homog2 (p : num * num) : list num := [p.1; p.2; one].
Definition homog3 (p : num * num * num) : list num := [p.1.1; p.1.2; p.2; one].
End PointSets.

(** Sums of reals. *)
Definition Rsum (l : list R) : R := fold_right Rplus 0%R l.

(** The quantities of [normalize_2d_points] and [normalize_3d_points] in
    exact arithmetic: centroid, distance to it, mean distance, scale. *)
Section Normal2.
Variable pts : list (R * R).
Definition cx2 : R := (Rsum (map fst pts) / INR (length pts))%R.
Definition cy2 : R := (Rsum (map snd pts) / INR (length pts))%R.
Definition dist2 (p : R * R) : R :=
  R_sqrt.sqrt ((p.1 - cx2) * (p.1 - cx2) + (p.2 - cy2) * (p.2 - cy2)).
Definition md2 : R := (Rsum (map dist2 pts) / INR (length pts))%R.
Definition s2 : R := (R_sqrt.sqrt 2 / md2)%R.
End Normal2.

Section Normal3.
Variable pts : list (R * R * R).
Definition cx3 : R := (Rsum (map (fun p => p.1.1) pts) / INR (length pts))%R.
Definition cy3 : R := (Rsum (map (fun p => p.1.2) pts) / INR (length pts))%R.
Definition cz3 : R := (Rsum (map (fun p => p.2) pts) / INR (length pts))%R.
Definition dist3 (p : R * R * R) : R :=
  R_sqrt.sqrt ((p.1.1 - cx3) * (p.1.1 - cx3) + (p.1.2 - cy3) * (p.1.2 - cy3)
               + (p.2 - cz3) * (p.2 - cz3)).
Definition md3 : R := (Rsum (map dist3 pts) / INR (length pts))%R.
Definition s3 : R := (R_sqrt.sqrt 3 / md3)%R.
End Normal3.

(** The cross product of two 3-vectors. *)
Definition cross3 {N : Num} (u w : num * num * num) : num * num * num :=
  (fsub (fmul u.1.2 w.2) (fmul u.2 w.1.2),
   fsub (fmul u.2 w.1.1) (fmul u.1.1 w.2),
   fsub (fmul u.1.1 w.1.2) (fmul u.1.2 w.1.1)).

(** Collaborators in exact arithmetic for the DLT run: the SVD stub
    returns one fixed 12-vector as the last row of V^T, the inverse stub
    returns its argument. *)
Definition env_R : Env R_num :=
  @Build_Env R_num
    (fun v => @Build_Dataset R_num (1, 1)%Z (fun lon lat : R => (lon, lat))
                (fun p : R * R => p) (fun _ _ => []))
    (fun lat lon : R => 0%R)
    (fun lon lat : R => "31N")
    (fun zone (lon lat : R) => (lon, lat))
    (fun pts => (0%R, 0%R, 0%R, 0%R))
    (fun H (p : R * R) => p)
    (fun A => A)
    (fun A => ([], [], [[1; 0; 0; 0; 0; 1; 0; 0; 0; 0; 1; 0]%R])).

Definition six_world_points : list (R * R * R) :=
  [(0, 0, 0); (1, 0, 0); (0, 1, 0); (0, 0, 1); (1, 1, 0); (1, 0, 1)]%R.
Definition six_image_points : list (R * R) :=
  [(0, 0); (1, 0); (0, 1); (0, 0); (1, 1); (1, 0)]%R.

(** ** Tactics and written-out forms *)

(** The grid read row-major, altitude slowest and column fastest. *)
Definition grid {A B C D} (f : A → B → C → D)
    (cols : list A) (rows : list B) (alts : list C) : list D :=
  flat_map (fun a => flat_map (fun r => map (fun c => f c r a) cols) rows) alts.

(** The two rows of a correspondence, written out. *)
Definition dlt_row0 {N : Num} (Xi : num * num * num) (xi : num * num) : list num :=
  [zero; zero; zero; zero;
   fmul (of_Z (-1)) Xi.1.1; fmul (of_Z (-1)) Xi.1.2; fmul (of_Z (-1)) Xi.2;
   fmul (of_Z (-1)) (of_Z 1);
   fmul xi.2 Xi.1.1; fmul xi.2 Xi.1.2; fmul xi.2 Xi.2; fmul xi.2 (of_Z 1)].
Definition dlt_row1 {N : Num} (Xi : num * num * num) (xi : num * num) : list num :=
  [Xi.1.1; Xi.1.2; Xi.2; of_Z 1;
   zero; zero; zero; zero;
   fmul (fneg xi.1) Xi.1.1; fmul (fneg xi.1) Xi.1.2; fmul (fneg xi.1) Xi.2;
   fmul (fneg xi.1) (of_Z 1)].

(** Shows the carrier of [R_num] as [R]. *)
Ltac Rcarrier := change (@num R_num) with R in *.

(** Shows the operations of [R_num] as those of [R]. *)
Ltac Rops :=
  cbv [fadd fsub fmul fdiv fneg fsqrt zero one of_Z of_nat R_num].

(** Lengths of arrays built by the elementwise operations. *)
Ltac arrlen_unfold :=
  unfold np_add, np_subtract, np_multiply, np_divide, np_sqrt, np_fabs,
    add_scalar, sub_scalar, mul_scalar, scalar_mul, vstack2_T, col0, col1,
    sub2, add2, np_zeros, np_dot_n2, np_diag, np_square.

(* ================================================================== *)
(** ** Further functions of the module *)

(** The height of one point after [j] passes of the loop of
    [compute_height], computed from that point's data alone. *)
Definition point_height {N : Num} (model_a model_b : CameraModel N)
    (xa ya xb yb : num) (j : nat) : num :=
  Nat.iter j
    (fun hi => fadd hi (fmul (point_inc model_a model_b xa ya xb yb hi) (of_Z HSTEP)))
    zero.

(** *** GeoJSON input

    The content of a geojson file as [json.load] returns it: dicts,
    lists, strings, numbers, booleans and None. *)
#[warnings="-register-all"] Inductive json (T : Type) : Type :=
| JNull
| JBool (b : bool)
| JNum (v : T)
| JStr (s : string)
| JArr (l : list (json T))
| JObj (o : gmap string (json T)).
Arguments JNull {T}.
Arguments JBool {T} b.
Arguments JNum {T} v.
Arguments JStr {T} s.
Arguments JArr {T} l.
Arguments JObj {T} o.

(** Two more collaborators: [json.load] on the file at a path, and
    [np.array] on a ring of positions, which gives the (n, 2) array that
    [roi_process] documents, or raises. *)
Record GeoEnv {N : Num} : Type := {
  json_load : string → result (json num);
  np_array : json num → result (list (num * num));
}.
Arguments GeoEnv N : clear implicits.

Section GeoJson.
Context {N : Num}.
Implicit Types cfg : gmap string (cfg_val num).

(** [a[key]] for a string key: a dict is looked up, anything else does
    not take a string subscript. *)
Definition json_getitem (a : json num) (key : string) : result (json num) :=
  match a with
  | JObj o => match o !! key with
              | Some v => Ok v
              | None => Raise (KeyError key)
              end
  | _ => Raise TypeError
  end.

(** [a[0]]: the first entry of a list or the first character of a
    string; a dict read from JSON has no key 0 (the KeyError names the
    key as text). *)
Definition json_first (a : json num) : result (json num) :=
  match a with
  | JArr (v :: _) => Ok v
  | JArr [] => Raise IndexError
  | JStr (String c _) => Ok (JStr (String c EmptyString))
  | JStr EmptyString => Raise IndexError
  | JObj _ => Raise (KeyError "0")
  | _ => Raise TypeError
  end.

(** [v == s] for a string literal [s]. *)
Definition json_eq_str (v : json num) (s : string) : bool :=
  match v with
  | JStr t => String.eqb t s
  | _ => false
  end.

(** Lines 462-475 of [geojson_roi_process]: from the file or dict to
    the ring of the polygon. *)
Definition geojson_ring (genv : GeoEnv N) (geojson : json num)
    : result (list (num * num)) :=
  a ← match geojson with
      | JStr path => json_load genv path
      | _ => Ok geojson
      end;
  t ← json_getitem a "type";
  a ← (if json_eq_str t "FeatureCollection"
       then f ← json_getitem a "features"; json_first f
       else Ok a);
  t ← json_getitem a "type";
  a ← (if json_eq_str t "Feature" then json_getitem a "geometry" else Ok a);
  c ← json_getitem a "coordinates";
  r ← json_first c;
  np_array genv r.

(** rpc_utils.py:441.  The configuration is left as it stands when the
    input is rejected before [roi_process] is reached. *)
Definition geojson_roi_process (env : Env N) (genv : GeoEnv N)
    (rpc : CameraModel N) (geojson : json num) (utm_zone : option string) cfg
    : gmap string (cfg_val num) * result (ROI num) :=
  match geojson_ring genv geojson with
  | Raise e => (cfg, Raise e)
  | Ok ll_poly => roi_process env rpc ll_poly utm_zone cfg
  end.
End GeoJson.

(** *** Ground control points and matches

    [1.0 / (2 * n)] divides a Python float by a Python int: a zero
    divisor raises ZeroDivisionError, which [exn] does not list. *)
Inductive py_exn : Type :=
| Exn (e : exn)
| ZeroDivisionError.

Inductive outcome (A : Type) : Type :=
| Returns (a : A)
| Raises (e : py_exn).
Arguments Returns {A} a.
Arguments Raises {A} e.

Section Matches.
Context {N : Num} {NN : NumNaN N}.
Local Open Scope num_scope.
Implicit Types cfg : gmap string (cfg_val num).

(** The sampling range of [ground_control_points] along one axis:
    [[x + (1.0 / (2 n)) w, x + ((2 n - 1.0) / (2 n)) w, n]]. *)
Definition gcp_range (x w : Z) (n : nat) : num * num * nat :=
  let two_n := of_Z (2 * Z.of_nat n) in
  (of_Z x + (one / two_n) * of_Z w,
   of_Z x + ((two_n - one) / two_n) * of_Z w,
   n).

(** rpc_utils.py:548 *)
Definition ground_control_points (rpc : CameraModel N) (x y w h : Z)
    (m M : num) (n : nat) : outcome (list num * list num * list num) :=
  match n with
  | O => Raises ZeroDivisionError
  | _ =>
      let col_range := gcp_range x w n in
      let row_range := gcp_range y h n in
      let alt_range := (m, M, n) in
      let '(col, row, alt) := generate_point_mesh col_range row_range alt_range in
      let '(lon, lat) := localization_v rpc col row alt in
      Returns (lon, lat, alt)
  end.

(** [np.vstack([x1, y1, x2, y2]).T] *)
Definition vstack4_T (x1 y1 x2 y2 : list num) : list (num * num * num * num) :=
  zip_with (fun p q => (p.1, p.2, q.1, q.2)) (zip x1 y1) (zip x2 y2).

(** rpc_utils.py:612 *)
Definition matches_from_rpc (env : Env N) cfg (rpc1 rpc2 : CameraModel N)
    (x y w h : Z) (n : nat) : outcome (list (num * num * num * num)) :=
  match altitude_range env cfg rpc1 x y w h (of_Z 100) (of_Z (-100)) with
  | Raise e => Raises (Exn e)
  | Ok (m, M) =>
      match ground_control_points rpc1 x y w h m M n with
      | Raises e => Raises e
      | Returns (lon, lat, alt) =>
          let '(x1, y1) := projection_v rpc1 lon lat alt in
          let '(x2, y2) := projection_v rpc2 lon lat alt in
          Returns (vstack4_T x1 y1 x2 y2)
      end
  end.
End Matches.

(** *** More inputs for the runs *)

(** A camera pair in which image B does not see the column 1: the
    projection of a point of longitude 1 is NaN. *)
Definition blind_model : CameraModel f64_num :=
  @Build_CameraModel f64_num
    (fun x y z : float => (x, y))
    (fun lon lat z : float =>
       (if PrimFloat.eqb lon 1 then PrimFloat.nan else (lon + z)%float, lat))
    0%float 1%float.

(** A raster of 4 x 4 pixels whose every cell is the nodata value. *)
Definition dem_void : Dataset f64_num :=
  @Build_Dataset f64_num (4, 4)%Z
    (fun lon lat : float => (lon, lat))
    (fun p : float * float => p)
    (fun _ _ => [(-32768)%float; (-32768)%float]).

Definition env_void : Env f64_num :=
  @Build_Env f64_num
    (fun _ => dem_void)
    (fun lat lon : float => 0%float)
    (fun lon lat : float => "31N")
    (fun zone (lon lat : float) => (lon, lat))
    (fun pts => (0%float, 0%float, 0%float, 0%float))
    (fun H (p : float * float) => p)
    (fun A => A)
    (fun A => ([], [], [])).

(** A raster whose affine transform is undefined (NaN) on the columns. *)
Definition dem_nan : Dataset f64_num :=
  @Build_Dataset f64_num (4, 4)%Z
    (fun lon lat : float => (lon, lat))
    (fun p : float * float => (PrimFloat.nan, p.2))
    (fun _ _ => [10%float]).

Definition env_dem_nan : Env f64_num :=
  @Build_Env f64_num
    (fun _ => dem_nan)
    (fun lat lon : float => 0%float)
    (fun lon lat : float => "31N")
    (fun zone (lon lat : float) => (lon, lat))
    (fun pts => (0%float, 0%float, 0%float, 0%float))
    (fun H (p : float * float) => p)
    (fun A => A)
    (fun A => ([], [], [])).

(** Collaborators whose UTM projection is undefined (NaN easting) west
    of the meridian 0. *)
Definition env_utm_nan : Env f64_num :=
  @Build_Env f64_num
    (fun _ => dem_1x1)
    (fun lat lon : float => 0%float)
    (fun lon lat : float => "31N")
    (fun zone (lon lat : float) =>
       (if PrimFloat.ltb lon 0 then PrimFloat.nan else lon, lat))
    (fun pts => (0%float, 0%float, 0%float, 0%float))
    (fun H (p : float * float) => p)
    (fun A => A)
    (fun A => ([], [], [])).

(** A ring of [lon, lat] positions read as an (n, 2) array, for the runs. *)
Definition json_pairs {T : Type} (r : json T) : result (list (T * T)) :=
  match r with
  | JArr rows =>
      foldr (fun row acc =>
               match row, acc with
               | JArr [JNum a; JNum b], Ok l => Ok ((a, b) :: l)
               | _, _ => Raise ValueError
               end) (Ok []) rows
  | _ => Raise ValueError
  end.

Definition genv0 : GeoEnv f64_num :=
  @Build_GeoEnv f64_num (fun _ => Raise ValueError) json_pairs.

(** The same triangle as a bare Polygon, inside a Feature, and inside a
    FeatureCollection with a second entry. *)
Definition triangle_polygon : gmap string (json float) :=
  <["type" := JStr "Polygon"]>
  (<["coordinates" :=
       JArr [JArr [JArr [JNum 0%float; JNum 0%float];
                   JArr [JNum 2%float; JNum 1%float];
                   JArr [JNum 1%float; JNum 3%float]]]]> ∅).
Definition triangle_feature : gmap string (json float) :=
  <["type" := JStr "Feature"]> (<["geometry" := JObj triangle_polygon]> ∅).
Definition triangle_collection : gmap string (json float) :=
  <["type" := JStr "FeatureCollection"]>
  (<["features" := JArr [JObj triangle_feature; JNull]]> ∅).

(** Exact arithmetic has no NaN; a nodata cell is stored as 0 there. *)
Definition R_no_nan : NumNaN R_num := {| fnan := 0%R |}.

(** A camera whose projection inverts its localization. *)
Definition ident_model : CameraModel R_num :=
  @Build_CameraModel R_num
    (fun x y z : R => (x, y))
    (fun lon lat z : R => (lon, lat))
    0%R 1%R.

Definition cfg_R_without_dem : gmap string (cfg_val R) :=
  <["exogenous_dem" := VNone]>
  (<["rpc_alt_range_scale_factor" := @VNum R 1%R]> ∅).

(** Shows the carrier of [f64_num] as [float]. *)
Ltac Fcarrier := change (@num f64_num) with float in *.

(* ================================================================== *)
(** * Theorems *)

(** ** Lists *)

Lemma lookup_map {A B} (f : A → B) (l : list A) (i : nat) :
  map f l !! i = f <$> (l !! i).
Proof.
  revert i. induction l as [|a l IH]; intros [|i]; simpl; auto.
Qed.

Lemma lookup_repeat {A} (x : A) (n i : nat) :
  i < n → repeat x n !! i = Some x.
Proof.
  revert i. induction n as [|n IH]; intros [|i] Hi; simpl; try lia; [done |].
  apply IH. lia.
Qed.

Lemma length_zip_with3 {A B C D} (f : A → B → C → D) x y z :
  length (zip_with3 f x y z) = (length x `min` length y) `min` length z.
Proof. unfold zip_with3. by rewrite !length_zip_with. Qed.

Lemma lookup_zip_with3 {A B C D} (f : A → B → C → D) x y z i a b c :
  x !! i = Some a → y !! i = Some b → z !! i = Some c →
  zip_with3 f x y z !! i = Some (f a b c).
Proof.
  intros Hx Hy Hz. unfold zip_with3.
  rewrite !lookup_zip_with, Hx, Hy, Hz. reflexivity.
Qed.

Create Rewrite HintDb arrlen.
#[global] Hint Rewrite @length_zip_with @length_zip @length_map @length_imap
  @repeat_length @length_zip_with3 @length_app @length_seq : arrlen.

Ltac arrlen := arrlen_unfold; autorewrite with arrlen; simpl; try lia.

(** ** The height loop *)

Section HeightFacts.
Context {N : Num}.
Variables (model_a model_b : CameraModel N).
Variables (x1 y1 x2 y2 : list num).
Hypothesis Hy1 : length y1 = length x1.
Hypothesis Hx2 : length x2 = length x1.
Hypothesis Hy2 : length y2 = length x1.

Local Abbreviation n := (length x1).
Local Abbreviation reproject' := (reproject model_a model_b x1 y1).
Local Abbreviation height_inc' := (height_inc model_a model_b x1 y1 x2 y2).
Local Abbreviation update_height' := (update_height model_a model_b x1 y1 x2 y2).
Local Abbreviation threshold_met' := (threshold_met model_a model_b x1 y1 x2 y2).
Local Abbreviation residual' := (residual model_a model_b x1 y1 x2 y2).
Local Abbreviation heights_after' := (heights_after model_a model_b x1 y1 x2 y2).
Local Abbreviation heights_from' := (heights_from model_a model_b x1 y1 x2 y2).

Lemma length_reproject h0 : length h0 = n → length (reproject' h0) = n.
Proof.
  intros Hh. unfold reproject, find_corresponding_point,
    localization_v, projection_v. arrlen.
Qed.

Lemma length_p2 : length (p2 x2 y2) = n.
Proof. unfold p2. arrlen. Qed.

Lemma length_probe_a h0 : length h0 = n → length (probe_a model_a model_b x1 y1 h0) = n.
Proof.
  intros Hh. unfold probe_a, reproject_probe, sub2.
  rewrite length_zip_with, !length_reproject; [lia | done |].
  unfold add_scalar. by rewrite length_map.
Qed.

Lemma length_resid_b h0 : length h0 = n → length (resid_b model_a model_b x1 y1 x2 y2 h0) = n.
Proof.
  intros Hh. unfold resid_b, sub2.
  rewrite length_zip_with, length_reproject, length_p2; [lia | done].
Qed.

Lemma length_height_inc h0 : length h0 = n → length (height_inc' h0) = n.
Proof.
  intros Hh. unfold height_inc.
  pose proof (length_probe_a h0 Hh). pose proof (length_resid_b h0 Hh).
  arrlen.
Qed.

Lemma length_update_height h0 : length h0 = n → length (update_height' h0) = n.
Proof.
  intros Hh. unfold update_height.
  pose proof (length_height_inc h0 Hh). arrlen.
Qed.

Lemma length_heights_after k : length (heights_after' k) = n.
Proof.
  induction k; simpl.
  - unfold np_zeros. by rewrite repeat_length.
  - by apply length_update_height.
Qed.

Lemma heights_after_from k : heights_after' k = heights_from' (np_zeros n) k.
Proof. induction k; simpl; [done | by rewrite IHk]. Qed.

Lemma length_heights_from h0 k : length h0 = n → length (heights_from' h0 k) = n.
Proof.
  intros Hh. induction k; simpl; [done | by apply length_update_height].
Qed.

(** On a batch with a point, the threshold test returns. *)
Lemma threshold_met_returns h0 :
  length h0 = n → n ≠ 0 → ∃ b, threshold_met' h0 = Ok b.
Proof.
  intros Hh Hn. unfold threshold_met.
  pose proof (length_height_inc h0 Hh) as Hl.
  destruct (height_inc' h0) as [|v l]; simpl in *; [lia |].
  eexists. reflexivity.
Qed.

(** The loop, from any state: it makes [k] passes, [1 <= k <= fuel];
    it stops short of [fuel] only on a pass whose test holds, and the
    test fails on every pass before the last. *)
Lemma for_range_spec fuel : ∀ h0 err cnt,
  length h0 = n → n ≠ 0 → fuel ≠ 0 →
  ∃ k, 1 ≤ k ≤ fuel ∧
    for_range model_a model_b x1 y1 x2 y2 fuel h0 err cnt
      = Ok (heights_from' h0 k, residual' (heights_from' h0 (k - 1)), cnt + k) ∧
    (k < fuel → threshold_met' (heights_from' h0 (k - 1)) = Ok true) ∧
    (∀ j, j + 1 < k → threshold_met' (heights_from' h0 j) = Ok false).
Proof.
  induction fuel as [|fuel IH]; intros h0 err cnt Hh Hn Hf; [done |].
  destruct (threshold_met_returns h0 Hh Hn) as [b Hb].
  simpl. unfold iteration. rewrite Hb. simpl.
  destruct b.
  - exists 1. split; [lia |]. split; [|split].
    + simpl. do 3 f_equal. lia.
    + intros _. exact Hb.
    + intros j Hj. lia.
  - destruct fuel as [|fuel'].
    + exists 1. split; [lia |]. split; [|split].
      * simpl. do 3 f_equal. lia.
      * intros ?. lia.
      * intros j Hj. lia.
    + destruct (IH (update_height' h0) (residual' h0) (S cnt)) as (k & Hk & Hrun & Hlast & Hbefore);
        [by apply length_update_height | done | done |].
      assert (Hshift : ∀ j, heights_from' (update_height' h0) j = heights_from' h0 (S j)).
      { intros j. unfold heights_from. by rewrite <- Nat.iter_succ_r. }
      exists (S k). split; [lia |]. split; [|split].
      * rewrite Hrun. replace (S k - 1) with (S (k - 1)) by lia.
        rewrite <- !Hshift. replace (S cnt + k) with (cnt + S k) by lia.
        reflexivity.
      * intros Hlt. replace (S k - 1) with (S (k - 1)) by lia.
        rewrite <- Hshift. apply Hlast. lia.
      * intros [|j] Hj; [exact Hb |].
        rewrite <- Hshift. apply Hbefore. lia.
Qed.
End HeightFacts.

(** The loop of [compute_height] on a batch with a point: the number of
    passes, what is returned, and when the loop stops. *)
Lemma compute_height_loop_spec {N : Num}
    (model_a model_b : CameraModel N) (x1 y1 x2 y2 : list num) :
  length y1 = length x1 → length x2 = length x1 → length y2 = length x1 →
  x1 ≠ [] →
  ∃ k : nat, 1 ≤ k ≤ 100 ∧
    compute_height_passes model_a model_b x1 y1 x2 y2
      = Ok (heights_after model_a model_b x1 y1 x2 y2 k,
            residual model_a model_b x1 y1 x2 y2
              (heights_after model_a model_b x1 y1 x2 y2 (k - 1)),
            k) ∧
    compute_height model_a model_b x1 y1 x2 y2
      = Ok (heights_after model_a model_b x1 y1 x2 y2 k,
            residual model_a model_b x1 y1 x2 y2
              (heights_after model_a model_b x1 y1 x2 y2 (k - 1))) ∧
    (k < 100 →
       threshold_met model_a model_b x1 y1 x2 y2
         (heights_after model_a model_b x1 y1 x2 y2 (k - 1)) = Ok true) ∧
    (∀ j, j + 1 < k →
       threshold_met model_a model_b x1 y1 x2 y2
         (heights_after model_a model_b x1 y1 x2 y2 j) = Ok false).
Proof.
  intros Hy1 Hx2 Hy2 Hne.
  assert (Hn : length x1 ≠ 0) by (destruct x1; simpl; [done | lia]).
  destruct (for_range_spec model_a model_b x1 y1 x2 y2 Hy1 Hx2 Hy2 100
              (np_zeros (length x1)) (np_zeros (length x1)) 0)
    as (k & Hk & Hrun & Hlast & Hbefore).
  { unfold np_zeros. by rewrite repeat_length. }
  { done. }
  { done. }
  exists k. split; [exact Hk |].
  assert (Hpasses : compute_height_passes model_a model_b x1 y1 x2 y2
      = Ok (heights_after model_a model_b x1 y1 x2 y2 k,
            residual model_a model_b x1 y1 x2 y2
              (heights_after model_a model_b x1 y1 x2 y2 (k - 1)), k)).
  { unfold compute_height_passes. rewrite Hrun, !heights_after_from. reflexivity. }
  split; [exact Hpasses |]. split; [|split].
  - unfold compute_height. rewrite Hpasses. reflexivity.
  - intros Hlt. rewrite heights_after_from. by apply Hlast.
  - intros j Hj. rewrite heights_after_from. by apply Hbefore.
Qed.

(** C2, as amended.  On a batch of equal lengths with at least one point,
    [compute_height] returns, after [k] passes of the loop with
    [1 <= k <= 100]; it returns the heights after [k] passes and the
    residual of the last pass.  It makes fewer than 100 passes only if the
    test [max |h_inc| < 0.001] holds on the last pass, and the test fails
    on every earlier pass, so the test is the only early exit. *)
Theorem compute_height_passes_bounded {N : Num}
    (model_a model_b : CameraModel N) (x1 y1 x2 y2 : list num) :
  length y1 = length x1 → length x2 = length x1 → length y2 = length x1 →
  x1 ≠ [] →
  ∃ k : nat, 1 ≤ k ≤ 100 ∧
    compute_height_passes model_a model_b x1 y1 x2 y2
      = Ok (heights_after model_a model_b x1 y1 x2 y2 k,
            residual model_a model_b x1 y1 x2 y2
              (heights_after model_a model_b x1 y1 x2 y2 (k - 1)),
            k) ∧
    compute_height model_a model_b x1 y1 x2 y2
      = Ok (heights_after model_a model_b x1 y1 x2 y2 k,
            residual model_a model_b x1 y1 x2 y2
              (heights_after model_a model_b x1 y1 x2 y2 (k - 1))) ∧
    (k < 100 →
       threshold_met model_a model_b x1 y1 x2 y2
         (heights_after model_a model_b x1 y1 x2 y2 (k - 1)) = Ok true) ∧
    (∀ j, j + 1 < k →
       threshold_met model_a model_b x1 y1 x2 y2
         (heights_after model_a model_b x1 y1 x2 y2 j) = Ok false).
Proof.
  intros Hy1 Hx2 Hy2 Hne.
  exact (compute_height_loop_spec model_a model_b x1 y1 x2 y2 Hy1 Hx2 Hy2 Hne).
Qed.

(** A run of C2's theorem: one point, one pass. *)
Lemma compute_height_passes_bounded_witness :
  ∃ k : nat, 1 ≤ k ≤ 100 ∧
    compute_height_passes quad_model quad_model [0%float] [0%float] [0.5%float] [0%float]
      = Ok (heights_after quad_model quad_model [0%float] [0%float] [0.5%float] [0%float] k,
            residual quad_model quad_model [0%float] [0%float] [0.5%float] [0%float]
              (heights_after quad_model quad_model [0%float] [0%float] [0.5%float] [0%float] (k - 1)),
            k) ∧
    compute_height quad_model quad_model [0%float] [0%float] [0.5%float] [0%float]
      = Ok (heights_after quad_model quad_model [0%float] [0%float] [0.5%float] [0%float] k,
            residual quad_model quad_model [0%float] [0%float] [0.5%float] [0%float]
              (heights_after quad_model quad_model [0%float] [0%float] [0.5%float] [0%float] (k - 1))) ∧
    (k < 100 →
       threshold_met quad_model quad_model [0%float] [0%float] [0.5%float] [0%float]
         (heights_after quad_model quad_model [0%float] [0%float] [0.5%float] [0%float] (k - 1)) = Ok true) ∧
    (∀ j, j + 1 < k →
       threshold_met quad_model quad_model [0%float] [0%float] [0.5%float] [0%float]
         (heights_after quad_model quad_model [0%float] [0%float] [0.5%float] [0%float] j) = Ok false).
Proof.
  apply (compute_height_passes_bounded quad_model quad_model
           [0%float] [0%float] [0.5%float] [0%float]);
    [reflexivity | reflexivity | reflexivity | discriminate].
Defined.

(** C2 as stated fails on the empty batch: the four arrays have equal
    lengths, and [np.max] of the empty [h0_inc] raises ValueError on the
    first pass. *)
Lemma compute_height_empty_batch_raises :
  length (@nil float) = length (@nil float) ∧
  compute_height quad_model quad_model [] [] [] [] = Raise ValueError.
Proof. split; reflexivity. Qed.

(** ** One pass, point by point *)

Section HeightPoint.
Context {N : Num}.
Local Open Scope num_scope.
Variables (model_a model_b : CameraModel N).
Variables (x1 y1 x2 y2 : list num).
Variables (i : nat) (xa ya xb yb : num).
Hypothesis Hxa : x1 !! i = Some xa.
Hypothesis Hya : y1 !! i = Some ya.
Hypothesis Hxb : x2 !! i = Some xb.
Hypothesis Hyb : y2 !! i = Some yb.

Lemma lookup_reproject h0 hi :
  h0 !! i = Some hi →
  reproject model_a model_b x1 y1 h0 !! i
    = Some (corresponding_point model_a model_b xa ya hi).
Proof.
  intros Hh. unfold reproject, find_corresponding_point, localization_v,
    projection_v, vstack2_T, corresponding_point.
  pose proof (lookup_zip_with3 (fun a b c => (localization model_a a b c).1)
                x1 y1 h0 i xa ya hi Hxa Hya Hh) as Ht1.
  pose proof (lookup_zip_with3 (fun a b c => (localization model_a a b c).2)
                x1 y1 h0 i xa ya hi Hxa Hya Hh) as Ht2.
  cbv beta iota zeta. rewrite lookup_zip_with.
  rewrite (lookup_zip_with3 (fun a b c => (projection model_b a b c).1)
             _ _ _ i _ _ _ Ht1 Ht2 Hh).
  rewrite (lookup_zip_with3 (fun a b c => (projection model_b a b c).2)
             _ _ _ i _ _ _ Ht1 Ht2 Hh).
  simpl. f_equal. symmetry. apply surjective_pairing.
Qed.

Lemma lookup_probe_a h0 hi :
  h0 !! i = Some hi →
  probe_a model_a model_b x1 y1 h0 !! i = Some (point_a model_a model_b xa ya hi).
Proof.
  intros Hh. unfold probe_a, reproject_probe, sub2.
  rewrite lookup_zip_with.
  rewrite (lookup_reproject (add_scalar h0 (of_Z HSTEP)) (hi + of_Z HSTEP)).
  - rewrite (lookup_reproject h0 hi Hh). reflexivity.
  - unfold add_scalar. by rewrite lookup_map, Hh.
Qed.

Lemma lookup_resid_b h0 hi :
  h0 !! i = Some hi →
  resid_b model_a model_b x1 y1 x2 y2 h0 !! i
    = Some (point_b model_a model_b xa ya xb yb hi).
Proof.
  intros Hh. unfold resid_b, sub2, p2, vstack2_T.
  rewrite lookup_zip_with.
  assert (Hp : zip x2 y2 !! i = Some (xb, yb)) by by apply lookup_zip_Some.
  rewrite Hp. simpl. rewrite (lookup_reproject h0 hi Hh). reflexivity.
Qed.

Lemma lookup_height_inc h0 hi :
  h0 !! i = Some hi →
  height_inc model_a model_b x1 y1 x2 y2 h0 !! i
    = Some (point_inc model_a model_b xa ya xb yb hi).
Proof.
  intros Hh. unfold height_inc, np_divide, np_add, np_multiply, col0, col1.
  rewrite !lookup_zip_with, !lookup_map.
  rewrite (lookup_probe_a h0 hi Hh), (lookup_resid_b h0 hi Hh).
  reflexivity.
Qed.

Lemma lookup_update_height h0 hi :
  h0 !! i = Some hi →
  update_height model_a model_b x1 y1 x2 y2 h0 !! i
    = Some (hi + point_inc model_a model_b xa ya xb yb hi * of_Z HSTEP).
Proof.
  intros Hh. unfold update_height, np_add, mul_scalar.
  rewrite lookup_zip_with, lookup_map, Hh, (lookup_height_inc h0 hi Hh).
  reflexivity.
Qed.
End HeightPoint.

(** ** IEEE facts used below *)

Lemma is_nan_spec (x : float) :
  PrimFloat.is_nan x = true ↔ Prim2SF x = S754_nan.
Proof.
  unfold PrimFloat.is_nan. rewrite FloatAxioms.eqb_spec.
  destruct (Prim2SF x) as [s|s| |s m e]; unfold SFeqb, SFcompare.
  - split; discriminate.
  - destruct s; split; discriminate.
  - split; reflexivity.
  - rewrite Z.compare_refl, Pos.compare_cont_refl.
    destruct s; split; discriminate.
Qed.

Lemma is_zero_spec (x : float) :
  PrimFloat.is_zero x = true → ∃ s, Prim2SF x = S754_zero s.
Proof.
  unfold PrimFloat.is_zero. rewrite FloatAxioms.eqb_spec.
  change (Prim2SF PrimFloat.zero) with (S754_zero false).
  destruct (Prim2SF x) as [s|s| |s m e]; unfold SFeqb, SFcompare.
  - intros _. by exists s.
  - destruct s; discriminate.
  - discriminate.
  - destruct s; discriminate.
Qed.

(** 0/0: with [a] the zero vector, [(a.b)/(a.a)] is NaN whatever [b]. *)
Lemma zero_probe_quotient_nan (a0 a1 b0 b1 : float) :
  PrimFloat.is_zero a0 = true → PrimFloat.is_zero a1 = true →
  PrimFloat.is_nan ((a0 * b0 + a1 * b1) / (a0 * a0 + a1 * a1))%float = true.
Proof.
  intros [s0 H0]%is_zero_spec [s1 H1]%is_zero_spec.
  apply is_nan_spec.
  rewrite div_spec, !add_spec, !mul_spec, H0, H1.
  destruct (Prim2SF b0) as [[]|[]| |[] ? ?], (Prim2SF b1) as [[]|[]| |[] ? ?],
    s0, s1; reflexivity.
Qed.

Lemma nan_add_l (x y : float) :
  PrimFloat.is_nan x = true → PrimFloat.is_nan (x + y)%float = true.
Proof.
  intros H%is_nan_spec. apply is_nan_spec. rewrite add_spec, H. reflexivity.
Qed.

Lemma nan_add_r (x y : float) :
  PrimFloat.is_nan y = true → PrimFloat.is_nan (x + y)%float = true.
Proof.
  intros H%is_nan_spec. apply is_nan_spec. rewrite add_spec, H.
  destruct (Prim2SF x); reflexivity.
Qed.

Lemma nan_mul_l (x y : float) :
  PrimFloat.is_nan x = true → PrimFloat.is_nan (x * y)%float = true.
Proof.
  intros H%is_nan_spec. apply is_nan_spec. rewrite mul_spec, H. reflexivity.
Qed.

Lemma nan_mul_r (x y : float) :
  PrimFloat.is_nan y = true → PrimFloat.is_nan (x * y)%float = true.
Proof.
  intros H%is_nan_spec. apply is_nan_spec. rewrite mul_spec, H.
  destruct (Prim2SF x); reflexivity.
Qed.

Lemma nan_sub_l (x y : float) :
  PrimFloat.is_nan x = true → PrimFloat.is_nan (x - y)%float = true.
Proof.
  intros H%is_nan_spec. apply is_nan_spec. rewrite sub_spec, H. reflexivity.
Qed.

Lemma nan_sqrt (x : float) :
  PrimFloat.is_nan x = true → PrimFloat.is_nan (PrimFloat.sqrt x) = true.
Proof.
  intros H%is_nan_spec. apply is_nan_spec. rewrite sqrt_spec, H. reflexivity.
Qed.

Lemma nan_abs (x : float) :
  PrimFloat.is_nan x = true → PrimFloat.is_nan (PrimFloat.abs x) = true.
Proof.
  intros H%is_nan_spec. apply is_nan_spec. rewrite abs_spec, H. reflexivity.
Qed.

Lemma nan_ltb_l (x y : float) :
  PrimFloat.is_nan x = true → PrimFloat.ltb x y = false.
Proof.
  intros H%is_nan_spec. rewrite ltb_spec, H. reflexivity.
Qed.

Lemma nan_ltb_r (x y : float) :
  PrimFloat.is_nan y = true → PrimFloat.ltb x y = false.
Proof.
  intros H%is_nan_spec. rewrite ltb_spec, H.
  destruct (Prim2SF x) as [[]|[]| |[] ? ?]; reflexivity.
Qed.

(** [np.maximum] and [np.minimum] return NaN as soon as an argument is. *)
Lemma maximum_nan (a b : float) :
  PrimFloat.is_nan a = true ∨ PrimFloat.is_nan b = true →
  PrimFloat.is_nan (@maximum f64_num a b) = true.
Proof.
  unfold maximum. simpl. intros [Ha | Hb].
  - by rewrite Ha, orb_true_r.
  - rewrite (nan_ltb_l b a Hb). simpl. by destruct (PrimFloat.is_nan a) eqn:Ha.
Qed.

Lemma minimum_nan (a b : float) :
  PrimFloat.is_nan a = true ∨ PrimFloat.is_nan b = true →
  PrimFloat.is_nan (@minimum f64_num a b) = true.
Proof.
  unfold minimum. simpl. intros [Ha | Hb].
  - by rewrite Ha, orb_true_r.
  - rewrite (nan_ltb_r a b Hb). simpl. by destruct (PrimFloat.is_nan a) eqn:Ha.
Qed.

(** A reduction by an operation that propagates NaN is NaN as soon as
    the start value or an entry is. *)
Lemma fold_left_nan (f : float → float → float) (l : list float) (acc : float) :
  (∀ a b, PrimFloat.is_nan a = true ∨ PrimFloat.is_nan b = true →
          PrimFloat.is_nan (f a b) = true) →
  PrimFloat.is_nan acc = true ∨ (∃ i v, l !! i = Some v ∧ PrimFloat.is_nan v = true) →
  PrimFloat.is_nan (fold_left f l acc) = true.
Proof.
  intros Hf. revert acc. induction l as [|b l IH]; intros acc H; simpl.
  - destruct H as [H | (i & v & Hv & _)]; [done | by rewrite lookup_nil in Hv].
  - apply IH. destruct H as [H | ([|i] & v & Hv & Hnan)].
    + left. apply Hf. by left.
    + injection Hv as ->. left. apply Hf. by right.
    + right. by exists i, v.
Qed.

Lemma np_max_nan (u : list float) (i : nat) (v : float) :
  u !! i = Some v → PrimFloat.is_nan v = true →
  ∃ m, @np_max f64_num u = Ok m ∧ PrimFloat.is_nan m = true.
Proof.
  intros Hv Hnan. destruct u as [|x l]; [by rewrite lookup_nil in Hv |].
  eexists. split; [reflexivity |].
  apply fold_left_nan; [exact maximum_nan |].
  destruct i as [|i]; [injection Hv as ->; by left | right; by exists i, v].
Qed.

Lemma np_min_nan (u : list float) (i : nat) (v : float) :
  u !! i = Some v → PrimFloat.is_nan v = true →
  ∃ m, @np_min f64_num u = Ok m ∧ PrimFloat.is_nan m = true.
Proof.
  intros Hv Hnan. destruct u as [|x l]; [by rewrite lookup_nil in Hv |].
  eexists. split; [reflexivity |].
  apply fold_left_nan; [exact minimum_nan |].
  destruct i as [|i]; [injection Hv as ->; by left | right; by exists i, v].
Qed.

Lemma add_nan (a b : float) :
  PrimFloat.is_nan a = true ∨ PrimFloat.is_nan b = true →
  PrimFloat.is_nan (a + b)%float = true.
Proof. intros [H | H]; [by apply nan_add_l | by apply nan_add_r]. Qed.

Lemma vdot_nan (u c : list float) (p : nat) (x cp : float) :
  u !! p = Some x → c !! p = Some cp → PrimFloat.is_nan cp = true →
  PrimFloat.is_nan (@vdot f64_num u c) = true.
Proof.
  intros Hu Hc Hnan. unfold vdot, np_sum.
  apply fold_left_nan; [exact add_nan |]. right.
  exists p, (x * cp)%float. split; [|by apply nan_mul_r].
  unfold np_multiply. apply lookup_zip_with_Some.
  eexists _, _. split; [reflexivity |]. split; [exact Hu | exact Hc].
Qed.

(** ** The order of binary64 *)

Lemma SFleb_refl (x : spec_float) : x ≠ S754_nan → SFleb x x = true.
Proof.
  destruct x as [s|s| |s m e]; unfold SFleb, SFcompare; intros H; try done.
  - by destruct s.
  - rewrite Z.compare_refl, Pos.compare_cont_refl. by destruct s.
Qed.

Lemma SFltb_SFleb (x y : spec_float) : SFltb x y = true → SFleb x y = true.
Proof. unfold SFltb, SFleb. by destruct (SFcompare x y) as [[]|]. Qed.

(** The rank of a float that is not NaN: comparing two floats is
    comparing their ranks lexicographically. *)
Definition SFrank (x : spec_float) : Z * Z * Z :=
  match x with
  | S754_infinity true => (-2, 0, 0)
  | S754_finite true m e => (-1, - e, - Z.pos m)
  | S754_zero _ | S754_nan => (0, 0, 0)
  | S754_finite false m e => (1, e, Z.pos m)
  | S754_infinity false => (2, 0, 0)
  end%Z.

Definition lex3 (a b : Z * Z * Z) : comparison :=
  match (a.1.1 ?= b.1.1)%Z with
  | Eq => match (a.1.2 ?= b.1.2)%Z with
          | Eq => (a.2 ?= b.2)%Z
          | c => c
          end
  | c => c
  end.

Lemma SFcompare_rank (x y : spec_float) :
  x ≠ S754_nan → y ≠ S754_nan → SFcompare x y = Some (lex3 (SFrank x) (SFrank y)).
Proof.
  intros Hx Hy.
  destruct x as [s|s| |s m e], y as [s'|s'| |s' m' e']; try done;
    try (destruct s; reflexivity); try (destruct s'; reflexivity);
    try (destruct s, s'; reflexivity).
  destruct s, s'; try reflexivity; unfold SFcompare, SFrank, lex3; simpl; f_equal.
  rewrite Z.compare_opp, (Z.compare_antisym e e').
  by destruct (e ?= e')%Z.
Qed.

Lemma lex3_le_trans (a b c : Z * Z * Z) :
  lex3 a b ≠ Gt → lex3 b c ≠ Gt → lex3 a c ≠ Gt.
Proof.
  destruct a as [[a1 a2] a3], b as [[b1 b2] b3], c as [[c1 c2] c3].
  unfold lex3. simpl.
  destruct (Z.compare_spec a1 b1), (Z.compare_spec b1 c1), (Z.compare_spec a1 c1);
    try lia; try done;
  destruct (Z.compare_spec a2 b2), (Z.compare_spec b2 c2), (Z.compare_spec a2 c2);
    try lia; try done;
  destruct (Z.compare_spec a3 b3), (Z.compare_spec b3 c3), (Z.compare_spec a3 c3);
    try lia; done.
Qed.

Lemma lex3_antisym (a b : Z * Z * Z) : lex3 b a = CompOpp (lex3 a b).
Proof.
  unfold lex3.
  rewrite (Z.compare_antisym a.1.1 b.1.1), (Z.compare_antisym a.1.2 b.1.2),
    (Z.compare_antisym a.2 b.2).
  destruct (a.1.1 ?= b.1.1)%Z, (a.1.2 ?= b.1.2)%Z, (a.2 ?= b.2)%Z; reflexivity.
Qed.

Lemma SFltb_false_SFleb (x y : spec_float) :
  x ≠ S754_nan → y ≠ S754_nan → SFltb x y = false → SFleb y x = true.
Proof.
  intros Hx Hy. unfold SFltb, SFleb.
  rewrite (SFcompare_rank x y Hx Hy), (SFcompare_rank y x Hy Hx),
    (lex3_antisym (SFrank x) (SFrank y)).
  by destruct (lex3 (SFrank x) (SFrank y)).
Qed.

Lemma SFleb_not_nan (x y : spec_float) :
  SFleb x y = true → x ≠ S754_nan ∧ y ≠ S754_nan.
Proof.
  destruct x as [s|s| |s m e], y as [s'|s'| |s' m' e']; try done.
Qed.

Lemma SFleb_trans (x y z : spec_float) :
  SFleb x y = true → SFleb y z = true → SFleb x z = true.
Proof.
  intros Hxy Hyz.
  destruct (SFleb_not_nan x y Hxy) as [Hx Hy].
  destruct (SFleb_not_nan y z Hyz) as [_ Hz].
  revert Hxy Hyz. unfold SFleb.
  rewrite (SFcompare_rank x y Hx Hy), (SFcompare_rank y z Hy Hz),
    (SFcompare_rank x z Hx Hz).
  intros Hxy Hyz.
  pose proof (lex3_le_trans (SFrank x) (SFrank y) (SFrank z)) as Ht.
  destruct (lex3 (SFrank x) (SFrank y)), (lex3 (SFrank y) (SFrank z)),
    (lex3 (SFrank x) (SFrank z)); try done; exfalso; by apply Ht.
Qed.

Lemma is_nan_false_spec (x : float) :
  PrimFloat.is_nan x = false ↔ Prim2SF x ≠ S754_nan.
Proof.
  rewrite <- is_nan_spec. destruct (PrimFloat.is_nan x); split; done.
Qed.

Lemma leb_refl (x : float) :
  PrimFloat.is_nan x = false → PrimFloat.leb x x = true.
Proof. intros H%is_nan_false_spec. rewrite leb_spec. by apply SFleb_refl. Qed.

Lemma ltb_leb (x y : float) :
  PrimFloat.ltb x y = true → PrimFloat.leb x y = true.
Proof. rewrite ltb_spec, leb_spec. apply SFltb_SFleb. Qed.

Lemma ltb_false_leb (x y : float) :
  PrimFloat.is_nan x = false → PrimFloat.is_nan y = false →
  PrimFloat.ltb x y = false → PrimFloat.leb y x = true.
Proof.
  intros Hx%is_nan_false_spec Hy%is_nan_false_spec.
  rewrite ltb_spec, leb_spec. by apply SFltb_false_SFleb.
Qed.

Lemma leb_trans (x y z : float) :
  PrimFloat.leb x y = true → PrimFloat.leb y z = true → PrimFloat.leb x z = true.
Proof. rewrite !leb_spec. apply SFleb_trans. Qed.

Lemma nan_leb_l (x y : float) :
  PrimFloat.is_nan x = true → PrimFloat.leb x y = false.
Proof. intros H%is_nan_spec. rewrite leb_spec, H. reflexivity. Qed.

Lemma nan_leb_r (x y : float) :
  PrimFloat.is_nan y = true → PrimFloat.leb x y = false.
Proof.
  intros H%is_nan_spec. rewrite leb_spec, H.
  destruct (Prim2SF x) as [[]|[]| |[] ? ?]; reflexivity.
Qed.

(** [np.minimum] and [np.maximum] of two floats that are not NaN: one of
    the two, below (above) both. *)
Lemma minimum_f64 (a b : float) :
  PrimFloat.is_nan a = false → PrimFloat.is_nan b = false →
  (@minimum f64_num a b = a ∨ @minimum f64_num a b = b) ∧
  PrimFloat.leb (@minimum f64_num a b) a = true ∧
  PrimFloat.leb (@minimum f64_num a b) b = true.
Proof.
  intros Ha Hb. unfold minimum. simpl. rewrite Ha, orb_false_r.
  destruct (PrimFloat.ltb a b) eqn:Hlt.
  - split; [by left |]. split; [by apply leb_refl | by apply ltb_leb].
  - split; [by right |]. split; [by apply ltb_false_leb | by apply leb_refl].
Qed.

Lemma maximum_f64 (a b : float) :
  PrimFloat.is_nan a = false → PrimFloat.is_nan b = false →
  (@maximum f64_num a b = a ∨ @maximum f64_num a b = b) ∧
  PrimFloat.leb a (@maximum f64_num a b) = true ∧
  PrimFloat.leb b (@maximum f64_num a b) = true.
Proof.
  intros Ha Hb. unfold maximum. simpl. rewrite Ha, orb_false_r.
  destruct (PrimFloat.ltb b a) eqn:Hlt.
  - split; [by left |]. split; [by apply leb_refl | by apply ltb_leb].
  - split; [by right |]. split; [by apply ltb_false_leb | by apply leb_refl].
Qed.

Lemma fold_minimum_f64 (l : list float) (x : float) :
  PrimFloat.is_nan x = false → Forall (fun d => PrimFloat.is_nan d = false) l →
  fold_left (@minimum f64_num) l x ∈ x :: l ∧
  PrimFloat.leb (fold_left (@minimum f64_num) l x) x = true ∧
  Forall (fun d => PrimFloat.leb (fold_left (@minimum f64_num) l x) d = true) l.
Proof.
  revert x. induction l as [|a l IH]; intros x Hx Hl; cbn [fold_left].
  - split; [by left |]. split; [by apply leb_refl | constructor].
  - apply Forall_cons in Hl as [Ha Hl].
    destruct (minimum_f64 x a Hx Ha) as (Hsel & Hmx & Hma).
    assert (Ht : PrimFloat.is_nan (@minimum f64_num x a) = false)
      by (destruct Hsel as [-> | ->]; done).
    destruct (IH _ Ht Hl) as (Hin & Hle & Hall).
    split; [|split].
    + apply elem_of_cons in Hin as [-> | Hin].
      * destruct Hsel as [-> | ->]; [by left | right; by left].
      * right. by right.
    + exact (leb_trans _ _ _ Hle Hmx).
    + constructor; [exact (leb_trans _ _ _ Hle Hma) | exact Hall].
Qed.

Lemma fold_maximum_f64 (l : list float) (x : float) :
  PrimFloat.is_nan x = false → Forall (fun d => PrimFloat.is_nan d = false) l →
  fold_left (@maximum f64_num) l x ∈ x :: l ∧
  PrimFloat.leb x (fold_left (@maximum f64_num) l x) = true ∧
  Forall (fun d => PrimFloat.leb d (fold_left (@maximum f64_num) l x) = true) l.
Proof.
  revert x. induction l as [|a l IH]; intros x Hx Hl; cbn [fold_left].
  - split; [by left |]. split; [by apply leb_refl | constructor].
  - apply Forall_cons in Hl as [Ha Hl].
    destruct (maximum_f64 x a Hx Ha) as (Hsel & Hmx & Hma).
    assert (Ht : PrimFloat.is_nan (@maximum f64_num x a) = false)
      by (destruct Hsel as [-> | ->]; done).
    destruct (IH _ Ht Hl) as (Hin & Hle & Hall).
    split; [|split].
    + apply elem_of_cons in Hin as [-> | Hin].
      * destruct Hsel as [-> | ->]; [by left | right; by left].
      * right. by right.
    + exact (leb_trans _ _ _ Hmx Hle).
    + constructor; [exact (leb_trans _ _ _ Hma Hle) | exact Hall].
Qed.

(** [np.min] and [np.max] of a non-empty binary64 array without NaN are
    entries of the array and bracket its entries. *)
Lemma np_min_max_bracket_f64 (d : list float) :
  d ≠ [] → Forall (fun v => PrimFloat.is_nan v = false) d →
  ∃ lo hi, @np_min f64_num d = Ok lo ∧ @np_max f64_num d = Ok hi ∧
    lo ∈ d ∧ hi ∈ d ∧ PrimFloat.leb lo hi = true ∧
    Forall (fun v => PrimFloat.leb lo v = true ∧ PrimFloat.leb v hi = true) d.
Proof.
  destruct d as [|x l]; [done |]. intros _ Hd.
  apply Forall_cons in Hd as [Hx Hl].
  destruct (fold_minimum_f64 l x Hx Hl) as (Hlo_in & Hlo & Hlos).
  destruct (fold_maximum_f64 l x Hx Hl) as (Hhi_in & Hhi & Hhis).
  eexists _, _. split; [reflexivity |]. split; [reflexivity |].
  split; [exact Hlo_in |]. split; [exact Hhi_in |].
  split; [exact (leb_trans _ _ _ Hlo Hhi) |].
  constructor; [by split |].
  rewrite Forall_forall in *. intros v Hv. split; [by apply Hlos | by apply Hhis].
Qed.

(** ** NaN in the height loop (binary64) *)

Section HeightNaN.
Variables (model_a model_b : CameraModel f64_num).
Variables (x1 y1 x2 y2 : list (@num f64_num)).
Hypothesis Hy1 : length y1 = length x1.
Hypothesis Hx2 : length x2 = length x1.
Hypothesis Hy2 : length y2 = length x1.

(** A NaN height stays NaN: [h0 + h_inc * HSTEP] with [h0] NaN. *)
Lemma update_height_keeps_nan h0 i v :
  length h0 = length x1 → h0 !! i = Some v → PrimFloat.is_nan v = true →
  ∃ v', update_height model_a model_b x1 y1 x2 y2 h0 !! i = Some v'
        ∧ PrimFloat.is_nan v' = true.
Proof.
  intros Hl Hv Hnan.
  assert (Hi : i < length x1) by (rewrite <- Hl; by eapply lookup_lt_Some).
  destruct (lookup_lt_is_Some_2 x1 i Hi) as [xa Hxa].
  destruct (lookup_lt_is_Some_2 y1 i ltac:(lia)) as [ya Hya].
  destruct (lookup_lt_is_Some_2 x2 i ltac:(lia)) as [xb Hxb].
  destruct (lookup_lt_is_Some_2 y2 i ltac:(lia)) as [yb Hyb].
  eexists. split.
  - by apply (lookup_update_height model_a model_b x1 y1 x2 y2 i xa ya xb yb).
  - by apply nan_add_l.
Qed.

Lemma heights_after_keep_nan j i v t :
  heights_after model_a model_b x1 y1 x2 y2 j !! i = Some v →
  PrimFloat.is_nan v = true →
  ∃ v', heights_after model_a model_b x1 y1 x2 y2 (j + t) !! i = Some v'
        ∧ PrimFloat.is_nan v' = true.
Proof.
  intros Hv Hnan. induction t as [|t (v' & Hv' & Hnan')].
  - rewrite Nat.add_0_r. eauto.
  - replace (j + S t) with (S (j + t)) by lia. simpl.
    eapply update_height_keeps_nan; [|exact Hv'|exact Hnan'].
    exact (length_heights_after model_a model_b x1 y1 x2 y2 Hy1 Hx2 Hy2 (j + t)).
Qed.

(** A zero probe displacement at point [i] of pass [j] makes the
    increment, and the height after that pass, NaN. *)
Lemma zero_probe_step j i (a : @num f64_num * @num f64_num) :
  probe_a model_a model_b x1 y1
    (heights_after model_a model_b x1 y1 x2 y2 j) !! i = Some a →
  PrimFloat.is_zero a.1 = true → PrimFloat.is_zero a.2 = true →
  (∃ v, height_inc model_a model_b x1 y1 x2 y2
          (heights_after model_a model_b x1 y1 x2 y2 j) !! i = Some v
        ∧ PrimFloat.is_nan v = true) ∧
  (∃ v, heights_after model_a model_b x1 y1 x2 y2 (S j) !! i = Some v
        ∧ PrimFloat.is_nan v = true).
Proof.
  intros Ha Hz0 Hz1.
  pose proof (length_heights_after model_a model_b x1 y1 x2 y2 Hy1 Hx2 Hy2 j) as Hl.
  assert (Hi : i < length x1).
  { rewrite <- (length_probe_a model_a model_b x1 y1 x2 y2 Hy1 Hx2 Hy2 _ Hl).
    by eapply lookup_lt_Some. }
  destruct (lookup_lt_is_Some_2 x1 i Hi) as [xa Hxa].
  destruct (lookup_lt_is_Some_2 y1 i ltac:(lia)) as [ya Hya].
  destruct (lookup_lt_is_Some_2 x2 i ltac:(lia)) as [xb Hxb].
  destruct (lookup_lt_is_Some_2 y2 i ltac:(lia)) as [yb Hyb].
  destruct (lookup_lt_is_Some_2
              (heights_after model_a model_b x1 y1 x2 y2 j) i ltac:(lia)) as [hi Hhi].
  rewrite (lookup_probe_a model_a model_b x1 y1 i xa ya Hxa Hya _ hi Hhi) in Ha.
  injection Ha as <-.
  assert (Hnan : PrimFloat.is_nan (point_inc model_a model_b xa ya xb yb hi) = true).
  { unfold point_inc. by apply zero_probe_quotient_nan. }
  split.
  - eexists. split; [|exact Hnan].
    by apply (lookup_height_inc model_a model_b x1 y1 x2 y2 i xa ya xb yb).
  - eexists. split.
    + simpl. by apply (lookup_update_height model_a model_b x1 y1 x2 y2 i xa ya xb yb).
    + apply nan_add_r. by apply nan_mul_l.
Qed.
End HeightNaN.

(** C6.  In IEEE arithmetic the division [h_inc = (a.b)/(a.a)] is not
    guarded.  On a batch of equal lengths with at least one point
    [compute_height] returns after [k] passes of the loop, [1 <= k <= 100].
    If at one of these passes, [j < k], the probe displacement
    [a = r1 - r0] of point [i] is the zero vector, then the increment of
    that point at that pass is NaN and the height returned for that point
    is NaN.  The first pass starts from the height 0: a point whose
    reprojections at the altitudes 0 and 1 coincide gets the height NaN. *)
Theorem compute_height_zero_probe_nan
    (model_a model_b : CameraModel f64_num) (x1 y1 x2 y2 : list (@num f64_num)) :
  length y1 = length x1 → length x2 = length x1 → length y2 = length x1 →
  x1 ≠ [] →
  ∃ k h err, 1 ≤ k ≤ 100 ∧
    compute_height_passes model_a model_b x1 y1 x2 y2 = Ok (h, err, k) ∧
    compute_height model_a model_b x1 y1 x2 y2 = Ok (h, err) ∧
    (∀ j i (a : @num f64_num * @num f64_num),
       j < k →
       probe_a model_a model_b x1 y1
         (heights_after model_a model_b x1 y1 x2 y2 j) !! i = Some a →
       PrimFloat.is_zero a.1 = true → PrimFloat.is_zero a.2 = true →
       (∃ v, height_inc model_a model_b x1 y1 x2 y2
               (heights_after model_a model_b x1 y1 x2 y2 j) !! i = Some v
             ∧ PrimFloat.is_nan v = true) ∧
       (∃ v, h !! i = Some v ∧ PrimFloat.is_nan v = true)) ∧
    (∀ i (xa ya : @num f64_num),
       x1 !! i = Some xa → y1 !! i = Some ya →
       PrimFloat.is_zero (point_a model_a model_b xa ya 0%float).1 = true →
       PrimFloat.is_zero (point_a model_a model_b xa ya 0%float).2 = true →
       ∃ v, h !! i = Some v ∧ PrimFloat.is_nan v = true).
Proof.
  intros Hy1 Hx2 Hy2 Hne.
  destruct (compute_height_loop_spec model_a model_b x1 y1 x2 y2
              Hy1 Hx2 Hy2 Hne) as (k & Hk & Hp & Hc & _).
  eexists k, _, _. split; [exact Hk |]. split; [exact Hp |]. split; [exact Hc |].
  assert (Hpass : ∀ j i (a : @num f64_num * @num f64_num),
    j < k →
    probe_a model_a model_b x1 y1
      (heights_after model_a model_b x1 y1 x2 y2 j) !! i = Some a →
    PrimFloat.is_zero a.1 = true → PrimFloat.is_zero a.2 = true →
    (∃ v, height_inc model_a model_b x1 y1 x2 y2
            (heights_after model_a model_b x1 y1 x2 y2 j) !! i = Some v
          ∧ PrimFloat.is_nan v = true) ∧
    (∃ v, heights_after model_a model_b x1 y1 x2 y2 k !! i = Some v
          ∧ PrimFloat.is_nan v = true)).
  { intros j i a Hj Ha Hz0 Hz1.
    destruct (zero_probe_step model_a model_b x1 y1 x2 y2 Hy1 Hx2 Hy2 j i a Ha Hz0 Hz1)
      as [Hinc (v & Hv & Hnan)].
    split; [exact Hinc |].
    replace k with (S j + (k - S j)) by lia.
    by eapply heights_after_keep_nan. }
  split; [exact Hpass |].
  intros i xa ya Hxa Hya Hz0 Hz1.
  refine (proj2 (Hpass 0 i _ ltac:(lia) _ Hz0 Hz1)).
  apply (lookup_probe_a model_a model_b x1 y1 i xa ya Hxa Hya).
  simpl. unfold np_zeros. apply lookup_repeat.
  by eapply lookup_lt_Some.
Qed.

(** A run of C6's theorem: two identical cameras, one point.  The
    height returned is NaN. *)
Lemma compute_height_zero_probe_nan_witness :
  ∃ k h err, 1 ≤ k ≤ 100 ∧
    compute_height_passes flat_model flat_model
      [0%float] [0%float] [1%float] [1%float] = Ok (h, err, k) ∧
    compute_height flat_model flat_model
      [0%float] [0%float] [1%float] [1%float] = Ok (h, err) ∧
    ∃ v, h !! 0 = Some v ∧ PrimFloat.is_nan v = true.
Proof.
  destruct (compute_height_zero_probe_nan flat_model flat_model
              [0%float] [0%float] [1%float] [1%float]
              eq_refl eq_refl eq_refl ltac:(discriminate))
    as (k & h & err & Hk & Hp & Hc & _ & Hfirst).
  exists k, h, err. split; [exact Hk |]. split; [exact Hp |]. split; [exact Hc |].
  exact (Hfirst 0 0%float 0%float eq_refl eq_refl eq_refl eq_refl).
Defined.

(** The same run evaluated: the probe displacement of the first pass is
    (0, 0), and the function returns NaN for the height after making all
    100 passes. *)
Example compute_height_flat_run :
  probe_a flat_model flat_model [0%float] [0%float] [0%float]
    = [(0%float, 0%float)] ∧
  compute_height_passes flat_model flat_model
    [0%float] [0%float] [1%float] [1%float]
    = Ok ([PrimFloat.nan], [PrimFloat.nan], 100).
Proof. split; vm_compute; reflexivity. Qed.

(** ** Exact arithmetic: sums *)



Lemma fold_left_Rplus (l : list R) (acc : R) :
  fold_left Rplus l acc = (acc + Rsum l)%R.
Proof.
  revert acc. induction l as [|a l IH]; intros acc; simpl.
  - lra.
  - rewrite IH. lra.
Qed.

Lemma np_sum_R (l : list R) : @np_sum R_num l = Rsum l.
Proof. unfold np_sum. simpl. rewrite fold_left_Rplus. lra. Qed.

Lemma Rsum_all_zero (l : list R) :
  (∀ k z, l !! k = Some z → z = 0%R) → Rsum l = 0%R.
Proof.
  induction l as [|a l IH]; intros H; simpl; [done |].
  rewrite (H 0 a eq_refl), IH; [lra |].
  intros k z Hk. exact (H (S k) z Hk).
Qed.

(** A sum with a single entry that may differ from 0. *)
Lemma Rsum_single (l : list R) (i : nat) (y : R) :
  l !! i = Some y →
  (∀ k z, k ≠ i → l !! k = Some z → z = 0%R) →
  Rsum l = y.
Proof.
  revert i. induction l as [|a l IH]; intros i Hi H; [done |].
  destruct i as [|i]; simpl in *.
  - injection Hi as ->. rewrite Rsum_all_zero; [lra |].
    intros k z Hk. exact (H (S k) z ltac:(lia) Hk).
  - rewrite (H 0 a ltac:(lia) eq_refl), (IH i Hi); [lra |].
    intros k z Hne Hk. exact (H (S k) z ltac:(lia) Hk).
Qed.

(** Row [i] of [np.diag v] times a column [c] is [v_i c_i]. *)
Lemma vdot_diag_row (v c : list R) (i : nat) (x ci : R) :
  v !! i = Some x → c !! i = Some ci →
  @vdot R_num (imap (fun k _ => if Nat.eqb i k then x else 0%R) v) c = (x * ci)%R.
Proof.
  intros Hv Hc. unfold vdot. rewrite np_sum_R.
  apply (Rsum_single _ i).
  - unfold np_multiply. rewrite lookup_zip_with, list_lookup_imap, Hv.
    simpl. rewrite Hc. simpl. by rewrite Nat.eqb_refl.
  - intros k z Hne Hk. unfold np_multiply in Hk.
    apply lookup_zip_with_Some in Hk as (r & ck & -> & Hr & _).
    apply list_lookup_imap_Some in Hr as (_ & _ & ->).
    destruct (Nat.eqb_spec i k); [congruence |]. simpl. lra.
Qed.

Lemma lookup_dot_diag (v : list R) (a : list (R * R)) (i : nat) (x : R) (ai : R * R) :
  v !! i = Some x → a !! i = Some ai →
  @np_dot_n2 R_num (@np_diag R_num v) a !! i = Some ((x * ai.1)%R, (x * ai.2)%R).
Proof.
  intros Hv Ha. unfold np_dot_n2, np_diag.
  rewrite lookup_map, list_lookup_imap. Rcarrier.
  rewrite Hv. simpl. f_equal. f_equal.
  - apply vdot_diag_row; [done |]. unfold col0. Rcarrier.
    by rewrite lookup_map, Ha.
  - apply vdot_diag_row; [done |]. unfold col1. Rcarrier.
    by rewrite lookup_map, Ha.
Qed.

(** ** The residual of a pass (exact arithmetic) *)

Section ResidualPoint.
Variables (model_a model_b : CameraModel R_num).
Variables (x1 y1 x2 y2 : list (@num R_num)).
Variables (i : nat) (xa ya xb yb : @num R_num).
Hypothesis Hxa : x1 !! i = Some xa.
Hypothesis Hya : y1 !! i = Some ya.
Hypothesis Hxb : x2 !! i = Some xb.
Hypothesis Hyb : y2 !! i = Some yb.

Lemma lookup_predicted_q h0 hi :
  h0 !! i = Some hi →
  predicted_q model_a model_b x1 y1 x2 y2 h0 !! i
    = Some (point_q model_a model_b xa ya xb yb hi).
Proof.
  intros Hh. unfold predicted_q, add2.
  apply lookup_zip_with_Some. eexists _, _. split; [|split].
  2: exact (lookup_reproject model_a model_b x1 y1 i xa ya Hxa Hya h0 hi Hh).
  2: exact (lookup_dot_diag _ _ i _ _
             (lookup_height_inc model_a model_b x1 y1 x2 y2 i xa ya xb yb
                Hxa Hya Hxb Hyb h0 hi Hh)
             (lookup_probe_a model_a model_b x1 y1 i xa ya Hxa Hya h0 hi Hh)).
  reflexivity.
Qed.

Lemma lookup_residual h0 hi :
  h0 !! i = Some hi →
  residual model_a model_b x1 y1 x2 y2 h0 !! i
    = Some (point_err model_a model_b xa ya xb yb hi).
Proof.
  intros Hh. unfold residual, np_sqrt, np_add, np_multiply, col0, col1, sub2.
  rewrite lookup_map, !lookup_zip_with, !lookup_map, !lookup_zip_with.
  rewrite (lookup_predicted_q h0 hi Hh).
  assert (Hp : p2 x2 y2 !! i = Some (xb, yb))
    by (unfold p2, vstack2_T; by apply lookup_zip_Some).
  rewrite Hp. reflexivity.
Qed.
End ResidualPoint.

(** ** The residual of a pass (every carrier) *)

Section ResidualRow.
Context {N : Num}.
Local Open Scope num_scope.
Variables (model_a model_b : CameraModel N).
Variables (x1 y1 x2 y2 : list num).
Variables (i : nat) (xa ya xb yb : num).
Hypothesis Hxa : x1 !! i = Some xa.
Hypothesis Hya : y1 !! i = Some ya.
Hypothesis Hxb : x2 !! i = Some xb.
Hypothesis Hyb : y2 !! i = Some yb.

Lemma lookup_dot_diag_row (v : list num) (a : arr2) (x : num) :
  v !! i = Some x →
  np_dot_n2 (np_diag v) a !! i
    = Some (vdot (diag_row v i x) (col0 a), vdot (diag_row v i x) (col1 a)).
Proof.
  intros Hv. unfold np_dot_n2, np_diag, diag_row.
  by rewrite lookup_map, list_lookup_imap, Hv.
Qed.

Lemma lookup_predicted_q_row h0 hi :
  h0 !! i = Some hi →
  predicted_q model_a model_b x1 y1 x2 y2 h0 !! i
    = Some (point_q_row model_a model_b x1 y1 x2 y2 h0 i xa ya xb yb hi).
Proof.
  intros Hh. unfold predicted_q, add2.
  apply lookup_zip_with_Some. eexists _, _. split; [|split].
  2: exact (lookup_reproject model_a model_b x1 y1 i xa ya Hxa Hya h0 hi Hh).
  2: exact (lookup_dot_diag_row _ _ _
             (lookup_height_inc model_a model_b x1 y1 x2 y2 i xa ya xb yb
                Hxa Hya Hxb Hyb h0 hi Hh)).
  reflexivity.
Qed.

Lemma lookup_residual_row h0 hi :
  h0 !! i = Some hi →
  residual model_a model_b x1 y1 x2 y2 h0 !! i
    = Some (let q := point_q_row model_a model_b x1 y1 x2 y2 h0 i xa ya xb yb hi in
            fsqrt ((q.1 - xb) * (q.1 - xb) + (q.2 - yb) * (q.2 - yb))).
Proof.
  intros Hh. unfold residual, np_sqrt, np_add, np_multiply, col0, col1, sub2.
  rewrite lookup_map, !lookup_zip_with, !lookup_map, !lookup_zip_with.
  rewrite (lookup_predicted_q_row h0 hi Hh).
  assert (Hp : p2 x2 y2 !! i = Some (xb, yb))
    by (unfold p2, vstack2_T; by apply lookup_zip_Some).
  rewrite Hp. reflexivity.
Qed.
End ResidualRow.

(** In exact arithmetic the row is the linear prediction of the point. *)
Lemma point_q_row_exact (model_a model_b : CameraModel R_num)
    (x1 y1 x2 y2 h0 : list R) (i : nat) (xa ya xb yb hi : R) :
  x1 !! i = Some xa → y1 !! i = Some ya → x2 !! i = Some xb → y2 !! i = Some yb →
  h0 !! i = Some hi →
  point_q_row model_a model_b x1 y1 x2 y2 h0 i xa ya xb yb hi
  = point_q model_a model_b xa ya xb yb hi.
Proof.
  intros Hxa Hya Hxb Hyb Hh.
  pose proof (lookup_predicted_q_row model_a model_b x1 y1 x2 y2 i xa ya xb yb
                Hxa Hya Hxb Hyb h0 hi Hh) as Hrow.
  pose proof (lookup_predicted_q model_a model_b x1 y1 x2 y2 i xa ya xb yb
                Hxa Hya Hxb Hyb h0 hi Hh) as Hq.
  congruence.
Qed.

(** C3, as amended.  On a batch of equal lengths with at least one point,
    [compute_height] returns after [k] passes.  With [hi] the height of
    point [i] before the last pass, the height returned is [hi + h_inc * 1]
    and the residual returned is the Euclidean distance to [p2] from row
    [i] of [q = r0 + np.dot(np.diag(h_inc), a)], where [r0], [a = r1 - r0]
    and [h_inc] are those of the last pass: no reprojection at the new
    height is made.  This holds for every arithmetic (first part).  In
    exact arithmetic (second part) row [i] of the product is
    [h_inc_i (r1_i - r0_i)], so that [q] is the linear prediction
    [r0 + h_inc (r1 - r0)] of the point, at the last pass and at every
    pass [j]. *)
Theorem compute_height_residual_linear_prediction :
  (∀ (N : Num) (model_a model_b : CameraModel N) (x1 y1 x2 y2 : list num),
     length y1 = length x1 → length x2 = length x1 → length y2 = length x1 →
     x1 ≠ [] →
     ∃ k h err, 1 ≤ k ≤ 100 ∧
       compute_height model_a model_b x1 y1 x2 y2 = Ok (h, err) ∧
       ∀ i (xa ya xb yb hi : num),
         x1 !! i = Some xa → y1 !! i = Some ya →
         x2 !! i = Some xb → y2 !! i = Some yb →
         heights_after model_a model_b x1 y1 x2 y2 (k - 1) !! i = Some hi →
         let q := point_q_row model_a model_b x1 y1 x2 y2
                    (heights_after model_a model_b x1 y1 x2 y2 (k - 1))
                    i xa ya xb yb hi in
         h !! i = Some (fadd hi (fmul (point_inc model_a model_b xa ya xb yb hi)
                                      (of_Z HSTEP))) ∧
         predicted_q model_a model_b x1 y1 x2 y2
           (heights_after model_a model_b x1 y1 x2 y2 (k - 1)) !! i = Some q ∧
         err !! i = Some (fsqrt (fadd (fmul (fsub q.1 xb) (fsub q.1 xb))
                                      (fmul (fsub q.2 yb) (fsub q.2 yb))))) ∧
  (∀ (model_a model_b : CameraModel R_num) (x1 y1 x2 y2 : list (@num R_num)),
     length y1 = length x1 → length x2 = length x1 → length y2 = length x1 →
     x1 ≠ [] →
     ∃ k h err, 1 ≤ k ≤ 100 ∧
       compute_height model_a model_b x1 y1 x2 y2 = Ok (h, err) ∧
       ∀ i (xa ya xb yb hi : R),
         x1 !! i = Some xa → y1 !! i = Some ya →
         x2 !! i = Some xb → y2 !! i = Some yb →
         heights_after model_a model_b x1 y1 x2 y2 (k - 1) !! i = Some hi →
         point_q_row model_a model_b x1 y1 x2 y2
           (heights_after model_a model_b x1 y1 x2 y2 (k - 1)) i xa ya xb yb hi
           = point_q model_a model_b xa ya xb yb hi ∧
         h !! i = Some (hi + point_inc model_a model_b xa ya xb yb hi * 1)%R ∧
         err !! i = Some (point_err model_a model_b xa ya xb yb hi) ∧
         point_err model_a model_b xa ya xb yb hi
           = R_sqrt.sqrt
               (((point_q model_a model_b xa ya xb yb hi).1 - xb)
                * ((point_q model_a model_b xa ya xb yb hi).1 - xb)
                + ((point_q model_a model_b xa ya xb yb hi).2 - yb)
                  * ((point_q model_a model_b xa ya xb yb hi).2 - yb))%R ∧
         ∀ j (hj : R),
           heights_after model_a model_b x1 y1 x2 y2 j !! i = Some hj →
           heights_after model_a model_b x1 y1 x2 y2 (S j) !! i
             = Some (hj + point_inc model_a model_b xa ya xb yb hj * 1)%R ∧
           residual model_a model_b x1 y1 x2 y2
             (heights_after model_a model_b x1 y1 x2 y2 j) !! i
             = Some (point_err model_a model_b xa ya xb yb hj)).
Proof.
  split.
  - intros N model_a model_b x1 y1 x2 y2 Hy1 Hx2 Hy2 Hne.
    destruct (compute_height_loop_spec model_a model_b x1 y1 x2 y2
                Hy1 Hx2 Hy2 Hne) as (k & Hk & _ & Hc & _).
    eexists k, _, _. split; [exact Hk |]. split; [exact Hc |].
    intros i xa ya xb yb hi Hxa Hya Hxb Hyb Hhi q. split; [|split].
    + replace k with (S (k - 1)) at 1 by lia. simpl.
      exact (lookup_update_height model_a model_b x1 y1 x2 y2 i xa ya xb yb
               Hxa Hya Hxb Hyb _ hi Hhi).
    + exact (lookup_predicted_q_row model_a model_b x1 y1 x2 y2 i xa ya xb yb
               Hxa Hya Hxb Hyb _ hi Hhi).
    + exact (lookup_residual_row model_a model_b x1 y1 x2 y2 i xa ya xb yb
               Hxa Hya Hxb Hyb _ hi Hhi).
  - intros model_a model_b x1 y1 x2 y2 Hy1 Hx2 Hy2 Hne.
    destruct (compute_height_loop_spec model_a model_b x1 y1 x2 y2
                Hy1 Hx2 Hy2 Hne) as (k & Hk & _ & Hc & _).
    eexists k, _, _. split; [exact Hk |]. split; [exact Hc |].
    intros i xa ya xb yb hi Hxa Hya Hxb Hyb Hhi. split; [|split; [|split; [|split]]].
    + exact (point_q_row_exact model_a model_b x1 y1 x2 y2 _ i xa ya xb yb hi
               Hxa Hya Hxb Hyb Hhi).
    + replace k with (S (k - 1)) at 1 by lia. simpl.
      exact (lookup_update_height model_a model_b x1 y1 x2 y2 i xa ya xb yb
               Hxa Hya Hxb Hyb _ hi Hhi).
    + exact (lookup_residual model_a model_b x1 y1 x2 y2 i xa ya xb yb
               Hxa Hya Hxb Hyb _ hi Hhi).
    + reflexivity.
    + intros j hj Hhj. split.
      * simpl.
        exact (lookup_update_height model_a model_b x1 y1 x2 y2 i xa ya xb yb
                 Hxa Hya Hxb Hyb _ hj Hhj).
      * exact (lookup_residual model_a model_b x1 y1 x2 y2 i xa ya xb yb
                 Hxa Hya Hxb Hyb _ hj Hhj).
Qed.

(** Runs of C3's theorem: one point in binary64 and one point in exact
    arithmetic. *)
Lemma compute_height_residual_linear_prediction_witness :
  (∃ k h err, 1 ≤ k ≤ 100 ∧
     compute_height quad_model quad_model [0%float] [0%float] [0.5%float] [0%float]
       = Ok (h, err) ∧
     ∀ i (xa ya xb yb hi : float),
       [0%float] !! i = Some xa → [0%float] !! i = Some ya →
       [0.5%float] !! i = Some xb → [0%float] !! i = Some yb →
       heights_after quad_model quad_model [0%float] [0%float] [0.5%float] [0%float]
         (k - 1) !! i = Some hi →
       let q := point_q_row quad_model quad_model
                  [0%float] [0%float] [0.5%float] [0%float]
                  (heights_after quad_model quad_model
                     [0%float] [0%float] [0.5%float] [0%float] (k - 1))
                  i xa ya xb yb hi in
       h !! i = Some (hi + point_inc quad_model quad_model xa ya xb yb hi
                             * f64_of_Z HSTEP)%float ∧
       predicted_q quad_model quad_model [0%float] [0%float] [0.5%float] [0%float]
         (heights_after quad_model quad_model
            [0%float] [0%float] [0.5%float] [0%float] (k - 1)) !! i = Some q ∧
       err !! i = Some (PrimFloat.sqrt ((q.1 - xb) * (q.1 - xb)
                                        + (q.2 - yb) * (q.2 - yb)))%float) ∧
  (∃ k h err, 1 ≤ k ≤ 100 ∧
     compute_height shift_model shift_model [0%R] [0%R] [2%R] [0%R] = Ok (h, err) ∧
     ∀ i (xa ya xb yb hi : R),
       [0%R] !! i = Some xa → [0%R] !! i = Some ya →
       [2%R] !! i = Some xb → [0%R] !! i = Some yb →
       heights_after shift_model shift_model [0%R] [0%R] [2%R] [0%R] (k - 1) !! i
         = Some hi →
       point_q_row shift_model shift_model [0%R] [0%R] [2%R] [0%R]
         (heights_after shift_model shift_model [0%R] [0%R] [2%R] [0%R] (k - 1))
         i xa ya xb yb hi
         = point_q shift_model shift_model xa ya xb yb hi ∧
       h !! i = Some (hi + point_inc shift_model shift_model xa ya xb yb hi * 1)%R ∧
       err !! i = Some (point_err shift_model shift_model xa ya xb yb hi) ∧
       point_err shift_model shift_model xa ya xb yb hi
         = R_sqrt.sqrt
             (((point_q shift_model shift_model xa ya xb yb hi).1 - xb)
              * ((point_q shift_model shift_model xa ya xb yb hi).1 - xb)
              + ((point_q shift_model shift_model xa ya xb yb hi).2 - yb)
                * ((point_q shift_model shift_model xa ya xb yb hi).2 - yb))%R ∧
       ∀ j (hj : R),
         heights_after shift_model shift_model [0%R] [0%R] [2%R] [0%R] j !! i = Some hj →
         heights_after shift_model shift_model [0%R] [0%R] [2%R] [0%R] (S j) !! i
           = Some (hj + point_inc shift_model shift_model xa ya xb yb hj * 1)%R ∧
         residual shift_model shift_model [0%R] [0%R] [2%R] [0%R]
           (heights_after shift_model shift_model [0%R] [0%R] [2%R] [0%R] j) !! i
           = Some (point_err shift_model shift_model xa ya xb yb hj)).
Proof.
  split.
  - apply (proj1 compute_height_residual_linear_prediction f64_num
             quad_model quad_model [0%float] [0%float] [0.5%float] [0%float]);
      [reflexivity | reflexivity | reflexivity | discriminate].
  - apply (proj2 compute_height_residual_linear_prediction shift_model shift_model
             [0%R] [0%R] [2%R] [0%R]);
      [reflexivity | reflexivity | reflexivity | discriminate].
Defined.

(** C3 as stated fails (binary64 run).  With the camera pair [quad_model]
    and the observation p2 = (0.5, 0) of the pixel (0, 0), the loop makes
    one pass and returns the height 2^-11 with residual 0; the
    reprojection of (0, 0, 2^-11) into image B is (2^-12, 0), at distance
    0.5 - 2^-12 from p2. *)
Lemma compute_height_residual_not_reprojection :
  compute_height quad_model quad_model [0%float] [0%float] [0.5%float] [0%float]
    = Ok ([0x1p-11%float], [0%float]) ∧
  corresponding_point quad_model quad_model 0%float 0%float 0x1p-11%float
    = (0x1p-12%float, 0%float) ∧
  PrimFloat.sqrt ((0x1p-12 - 0.5) * (0x1p-12 - 0.5) + (0 - 0) * (0 - 0))%float
    = 0x1.ffcp-2%float ∧
  PrimFloat.eqb 0%float 0x1.ffcp-2%float = false.
Proof. repeat split; vm_compute; reflexivity. Qed.

(** ** The altitude range *)

Lemma geodesic_bounding_box_returns {N : Num} (rpc : CameraModel N) (x y w h : Z) :
  ∃ bbx, geodesic_bounding_box rpc x y w h = Ok bbx.
Proof. unfold geodesic_bounding_box. simpl. eexists. reflexivity. Qed.

(** The no-data branch of [min_max_heights_from_bbx]. *)
Lemma min_max_heights_no_data {N : Num} {NN : NumNaN N} (env : Env N)
    (cfg : gmap string (cfg_val num)) (im : cfg_val num) (lon_m lon_M lat_m lat_M : num)
    (rpc : CameraModel N) (x0 y0 w h : Z) (k : num) :
  dem_window (rasterio_open env im) lon_m lon_M lat_m lat_M = Ok (x0, y0, w, h) →
  w = 0%Z ∨ h = 0%Z →
  cfg !! "rpc_alt_range_scale_factor" = Some (VNum k) →
  min_max_heights_from_bbx env cfg im lon_m lon_M lat_m lat_M rpc
    = Ok (altitude_range_coarse rpc k).
Proof.
  intros Hwin Hempty Hk. unfold min_max_heights_from_bbx.
  rewrite Hwin. simpl.
  assert (Hc : negb (w =? 0)%Z && negb (h =? 0)%Z = false).
  { destruct Hempty as [-> | ->]; simpl; [done | by rewrite andb_false_r]. }
  rewrite Hc. unfold cfg_get. rewrite Hk. reflexivity.
Qed.

(** C1, as amended.  (1) When an elevation source is configured,
    [altitude_range] adds [margin_bottom] to the lower bound and
    [margin_top] to the upper bound of whatever range
    [min_max_heights_from_bbx] returned, raster heights or coarse
    fallback alike.  (2) When none is configured, it returns the coarse
    range of the camera model with no margin added.  (3) When the source
    has no data for the box (the clipped read window is empty), the base
    range is exactly [(alt_offset - k alt_scale, alt_offset + k alt_scale)]
    for the configured [k], and so (4) [altitude_range] returns that
    range with the margins added. *)
Theorem altitude_range_margins {N : Num} {NN : NumNaN N} :
  (∀ (env : Env N) (cfg : gmap string (cfg_val num)) rpc x y w h
     margin_top margin_bottom im lon_m lon_M lat_m lat_M h_m h_M,
     cfg !! "exogenous_dem" = Some im → im ≠ VNone →
     geodesic_bounding_box rpc x y w h = Ok (lon_m, lon_M, lat_m, lat_M) →
     min_max_heights_from_bbx env cfg im lon_m lon_M lat_m lat_M rpc = Ok (h_m, h_M) →
     altitude_range env cfg rpc x y w h margin_top margin_bottom
       = Ok (h_m + margin_bottom, h_M + margin_top)%fl) ∧
  (∀ (env : Env N) (cfg : gmap string (cfg_val num)) rpc x y w h
     margin_top margin_bottom k,
     cfg !! "exogenous_dem" = Some VNone →
     cfg !! "rpc_alt_range_scale_factor" = Some (VNum k) →
     altitude_range env cfg rpc x y w h margin_top margin_bottom
       = Ok (alt_offset rpc - k * alt_scale rpc,
             alt_offset rpc + k * alt_scale rpc)%fl) ∧
  (∀ (env : Env N) (cfg : gmap string (cfg_val num)) rpc im
     lon_m lon_M lat_m lat_M x0 y0 w' h' k,
     dem_window (rasterio_open env im) lon_m lon_M lat_m lat_M = Ok (x0, y0, w', h') →
     w' = 0%Z ∨ h' = 0%Z →
     cfg !! "rpc_alt_range_scale_factor" = Some (VNum k) →
     min_max_heights_from_bbx env cfg im lon_m lon_M lat_m lat_M rpc
       = Ok (alt_offset rpc - k * alt_scale rpc,
             alt_offset rpc + k * alt_scale rpc)%fl) ∧
  (∀ (env : Env N) (cfg : gmap string (cfg_val num)) rpc x y w h
     margin_top margin_bottom im lon_m lon_M lat_m lat_M x0 y0 w' h' k,
     cfg !! "exogenous_dem" = Some im → im ≠ VNone →
     geodesic_bounding_box rpc x y w h = Ok (lon_m, lon_M, lat_m, lat_M) →
     dem_window (rasterio_open env im) lon_m lon_M lat_m lat_M = Ok (x0, y0, w', h') →
     w' = 0%Z ∨ h' = 0%Z →
     cfg !! "rpc_alt_range_scale_factor" = Some (VNum k) →
     altitude_range env cfg rpc x y w h margin_top margin_bottom
       = Ok (alt_offset rpc - k * alt_scale rpc + margin_bottom,
             alt_offset rpc + k * alt_scale rpc + margin_top)%fl).
Proof.
  assert (Hexo : ∀ (env : Env N) (cfg : gmap string (cfg_val num)) rpc x y w h
     margin_top margin_bottom im lon_m lon_M lat_m lat_M h_m h_M,
     cfg !! "exogenous_dem" = Some im → im ≠ VNone →
     geodesic_bounding_box rpc x y w h = Ok (lon_m, lon_M, lat_m, lat_M) →
     min_max_heights_from_bbx env cfg im lon_m lon_M lat_m lat_M rpc = Ok (h_m, h_M) →
     altitude_range env cfg rpc x y w h margin_top margin_bottom
       = Ok (h_m + margin_bottom, h_M + margin_top)%fl).
  { intros env cfg rpc x y w h mt mb im lon_m lon_M lat_m lat_M h_m h_M
      Hdem Hsome Hbbx Hmm.
    unfold altitude_range. rewrite Hbbx. simpl.
    unfold cfg_get. rewrite Hdem. simpl.
    destruct im; try done; rewrite Hmm; reflexivity. }
  split; [exact Hexo |]. split; [|split].
  - intros env cfg rpc x y w h mt mb k Hdem Hk.
    destruct (geodesic_bounding_box_returns rpc x y w h) as ([[[lon_m lon_M] lat_m] lat_M] & Hbbx).
    unfold altitude_range. rewrite Hbbx. simpl.
    unfold cfg_get. rewrite Hdem. simpl. rewrite Hk. reflexivity.
  - intros env cfg rpc im lon_m lon_M lat_m lat_M x0 y0 w' h' k Hwin Hempty Hk.
    by rewrite (min_max_heights_no_data env cfg im lon_m lon_M lat_m lat_M rpc
                  x0 y0 w' h' k Hwin Hempty Hk).
  - intros env cfg rpc x y w h mt mb im lon_m lon_M lat_m lat_M x0 y0 w' h' k
      Hdem Hsome Hbbx Hwin Hempty Hk.
    eapply Hexo; [exact Hdem | exact Hsome | exact Hbbx |].
    by rewrite (min_max_heights_no_data env cfg im lon_m lon_M lat_m lat_M rpc
                  x0 y0 w' h' k Hwin Hempty Hk).
Qed.

(** Runs of C1's theorem (binary64): a source with data, no source, and a
    source with no data for the box. *)
Lemma altitude_range_margins_witness :
  altitude_range env0 (cfg_with_dem "dem.tif") flat_model 0 0 1 1
      100%float (-100)%float
    = Ok ((10 + -100)%float, (20 + 100)%float) ∧
  altitude_range env0 cfg_without_dem flat_model 0 0 1 1
      100%float (-100)%float
    = Ok ((0 - 1 * 1)%float, (0 + 1 * 1)%float) ∧
  min_max_heights_from_bbx env0 (cfg_with_dem "other.tif") (VStr "other.tif")
      0%float 1%float 0%float 1%float flat_model
    = Ok ((0 - 1 * 1)%float, (0 + 1 * 1)%float) ∧
  altitude_range env0 (cfg_with_dem "other.tif") flat_model 0 0 1 1
      100%float (-100)%float
    = Ok ((0 - 1 * 1 + -100)%float, (0 + 1 * 1 + 100)%float).
Proof.
  destruct (@altitude_range_margins f64_num f64_nan) as (H1 & H2 & H3 & H4).
  split; [|split; [|split]].
  - apply (H1 env0 (cfg_with_dem "dem.tif") flat_model 0%Z 0%Z 1%Z 1%Z
             100%float (-100)%float (VStr "dem.tif")
             0%float 1%float 0%float 1%float 10%float 20%float);
      [vm_compute; reflexivity | discriminate
      | vm_compute; reflexivity | vm_compute; reflexivity].
  - apply (H2 env0 cfg_without_dem flat_model 0%Z 0%Z 1%Z 1%Z
             100%float (-100)%float 1%float);
      vm_compute; reflexivity.
  - apply (H3 env0 (cfg_with_dem "other.tif") flat_model (VStr "other.tif")
             0%float 1%float 0%float 1%float 0%Z 0%Z 0%Z 0%Z 1%float);
      [vm_compute; reflexivity | left; reflexivity | vm_compute; reflexivity].
  - apply (H4 env0 (cfg_with_dem "other.tif") flat_model 0%Z 0%Z 1%Z 1%Z
             100%float (-100)%float (VStr "other.tif")
             0%float 1%float 0%float 1%float 0%Z 0%Z 0%Z 0%Z 1%float);
      [vm_compute; reflexivity | discriminate | vm_compute; reflexivity
      | vm_compute; reflexivity | left; reflexivity | vm_compute; reflexivity].
Defined.

(** C1 as stated fails on the coarse path (binary64 run): with no
    elevation source configured the range determined is the coarse range
    (-1, 1), and with margins (100, -100) the function returns (-1, 1),
    not (-101, 101). *)
Lemma altitude_range_coarse_path_no_margins :
  cfg_without_dem !! "exogenous_dem" = Some VNone ∧
  altitude_range_coarse flat_model 1%float = ((-1)%float, 1%float) ∧
  altitude_range env0 cfg_without_dem flat_model 0 0 1 1 100%float (-100)%float
    = Ok ((-1)%float, 1%float) ∧
  ((-1 + -100)%float, (1 + 100)%float) = ((-101)%float, 101%float) ∧
  PrimFloat.eqb (-1) (-101) = false ∧ PrimFloat.eqb 1 101 = false.
Proof. repeat split; vm_compute; reflexivity. Qed.

(** The scale factor read from the configuration: a bool counts as 1 or
    0, a string raises TypeError. *)
Example altitude_range_coarse_cfg_run :
  altitude_range_coarse_cfg flat_model (VNum 2%float) = Ok ((-2)%float, 2%float) ∧
  altitude_range_coarse_cfg flat_model (VBool true) = Ok ((-1)%float, 1%float) ∧
  altitude_range_coarse_cfg flat_model (VBool false) = Ok (0%float, 0%float) ∧
  altitude_range_coarse_cfg flat_model (VStr "2") = Raise TypeError.
Proof. repeat split; vm_compute; reflexivity. Qed.

(** ** The disparity range *)

(** C10.  [altitude_range_to_disp_range] does not depend on its
    [margin_top] and [margin_bottom] arguments: two calls that differ only
    there return the same result.  So the margins that
    [exogenous_disp_range_estimation] passes on act through
    [altitude_range] only. *)
Theorem altitude_range_to_disp_range_ignores_margins {N : Num} {NN : NumNaN N}
    (env : Env N) (m M : num) (rpc1 rpc2 : CameraModel N) (x y w h : Z)
    (H1 H2 : matrix) (A : option matrix)
    (margin_top margin_bottom margin_top' margin_bottom' : num) :
  altitude_range_to_disp_range env m M rpc1 rpc2 x y w h H1 H2 A
    margin_top margin_bottom
  = altitude_range_to_disp_range env m M rpc1 rpc2 x y w h H1 H2 A
      margin_top' margin_bottom' ∧
  ∀ cfg : gmap string (cfg_val num),
    exogenous_disp_range_estimation env cfg rpc1 rpc2 x y w h H1 H2 A
      margin_top margin_bottom
    = ('(m, M) ← altitude_range env cfg rpc1 x y w h margin_top margin_bottom;
       altitude_range_to_disp_range env m M rpc1 rpc2 x y w h H1 H2 A
         margin_top' margin_bottom').
Proof.
  split.
  - unfold altitude_range_to_disp_range. reflexivity.
  - intros cfg. unfold exogenous_disp_range_estimation. reflexivity.
Qed.

(** The 8 disparities are those of the 4 ROI corners, each at the
    altitudes [m] and [M]. *)
Lemma corner_disparities_pointwise {N : Num} (env : Env N) (m M : num)
    (rpc1 rpc2 : CameraModel N) (x y w h : Z) (H1 H2 : matrix) (A : option matrix) :
  corner_disparities env m M rpc1 rpc2 x y w h H1 H2 A
  = map (fun p : Z * Z * num =>
           point_disp env rpc1 rpc2 H1 H2 A (of_Z p.1.1) (of_Z p.1.2) p.2)
      [(x, y, m); (x, y, M); (x, y + h, m); (x, y + h, M);
       (x + w, y, m); (x + w, y, M); (x + w, y + h, m); (x + w, y + h, M)]%Z.
Proof.
  unfold corner_disparities, alt_to_disp, point_disp, corresponding_point,
    roi_vertices, find_corresponding_point, localization_v, projection_v,
    zip_with3, points_apply_homography, vstack2_T, np_subtract, col0.
  destruct A; simpl; rewrite <- !surjective_pairing; reflexivity.
Qed.

Lemma R_ltb_true (a b : R) : R_ltb a b = true ↔ (a < b)%R.
Proof. unfold R_ltb. destruct (Rlt_dec a b); split; intros; try done. Qed.

Lemma R_minimum (a b : R) : @minimum R_num a b = Rmin a b.
Proof.
  unfold minimum. simpl. rewrite orb_false_r. unfold R_ltb, Rmin.
  destruct (Rlt_dec a b), (Rle_dec a b); try reflexivity; lra.
Qed.

Lemma R_maximum (a b : R) : @maximum R_num a b = Rmax a b.
Proof.
  unfold maximum. simpl. rewrite orb_false_r. unfold R_ltb, Rmax.
  destruct (Rlt_dec b a), (Rle_dec a b); try reflexivity; lra.
Qed.

Lemma fold_minimum_le (l : list R) (x : R) :
  (fold_left (@minimum R_num) l x <= x)%R ∧
  Forall (fun d => (fold_left (@minimum R_num) l x <= d)%R) l.
Proof.
  revert x. induction l as [|a l IH]; intros x; cbn [fold_left].
  - split; [lra | constructor].
  - rewrite R_minimum. destruct (IH (Rmin x a)) as [Hx Hl].
    pose proof (Rmin_l x a). pose proof (Rmin_r x a).
    split; [lra |]. constructor; [lra | exact Hl].
Qed.

Lemma fold_maximum_ge (l : list R) (x : R) :
  (x <= fold_left (@maximum R_num) l x)%R ∧
  Forall (fun d => (d <= fold_left (@maximum R_num) l x)%R) l.
Proof.
  revert x. induction l as [|a l IH]; intros x; cbn [fold_left].
  - split; [lra | constructor].
  - rewrite R_maximum. destruct (IH (Rmax x a)) as [Hx Hl].
    pose proof (Rmax_l x a). pose proof (Rmax_r x a).
    split; [lra |]. constructor; [lra | exact Hl].
Qed.

(** [np.min] and [np.max] of a non-empty array bracket its entries. *)
Lemma np_min_max_bracket (d : list R) :
  d ≠ [] →
  ∃ lo hi, @np_min R_num d = Ok lo ∧ @np_max R_num d = Ok hi ∧
    (lo <= hi)%R ∧ Forall (fun v => (lo <= v <= hi)%R) d.
Proof.
  destruct d as [|x l]; [done |]. intros _.
  destruct (fold_minimum_le l x) as [Hlo Hlos].
  destruct (fold_maximum_ge l x) as [Hhi Hhis].
  eexists _, _. split; [reflexivity |]. split; [reflexivity |].
  split; [lra |]. constructor; [lra |].
  rewrite Forall_forall in *. intros v Hv.
  specialize (Hlos v Hv). specialize (Hhis v Hv). simpl in *. lra.
Qed.

(** The range is [np.min] and [np.max] of the 8 disparities. *)
Lemma altitude_range_to_disp_range_eq {N : Num} (env : Env N) (m M : num)
    (rpc1 rpc2 : CameraModel N) (x y w h : Z) (H1 H2 : matrix) (A : option matrix)
    (margin_top margin_bottom : num) (lo hi : num) :
  np_min (corner_disparities env m M rpc1 rpc2 x y w h H1 H2 A) = Ok lo →
  np_max (corner_disparities env m M rpc1 rpc2 x y w h H1 H2 A) = Ok hi →
  altitude_range_to_disp_range env m M rpc1 rpc2 x y w h H1 H2 A
    margin_top margin_bottom = Ok (lo, hi).
Proof.
  intros Hmin Hmax.
  assert (Hrun : altitude_range_to_disp_range env m M rpc1 rpc2 x y w h H1 H2 A
                   margin_top margin_bottom
                 = (d_min ← np_min (corner_disparities env m M rpc1 rpc2 x y w h H1 H2 A);
                    d_max ← np_max (corner_disparities env m M rpc1 rpc2 x y w h H1 H2 A);
                    Ok (d_min, d_max))) by reflexivity.
  rewrite Hrun, Hmin. cbn [mbind result_bind]. rewrite Hmax. reflexivity.
Qed.

(** C7, as amended.  For every ROI, altitude range, pair of homographies
    and optional pointing matrix, [altitude_range_to_disp_range] returns
    a pair [(d_min, d_max)], the [np.min] and [np.max] of the 8
    disparities, those of the 4 ROI corners at the altitudes [m] and [M].
    In binary64 (first part): when none of the 8 disparities is NaN,
    [d_min] and [d_max] are two of them, [d_min <= d_max] and each of the
    8 lies in [[d_min, d_max]]; when one of them is NaN, [d_min] and
    [d_max] are both NaN and no comparison with them holds, so nothing is
    bracketed.  In exact arithmetic (second part) [d_min <= d_max] and
    each of the 8 disparities lies in [[d_min, d_max]]. *)
Theorem altitude_range_to_disp_range_brackets :
  (∀ (env : Env f64_num) (m M : float) (rpc1 rpc2 : CameraModel f64_num)
     (x y w h : Z) (H1 H2 : list (list float)) (A : option (list (list float)))
     (margin_top margin_bottom : float),
     ∃ d_min d_max : float,
       altitude_range_to_disp_range env m M rpc1 rpc2 x y w h H1 H2 A
         margin_top margin_bottom = Ok (d_min, d_max) ∧
       corner_disparities env m M rpc1 rpc2 x y w h H1 H2 A
         = map (fun p : Z * Z * float =>
                  point_disp env rpc1 rpc2 H1 H2 A
                    (f64_of_Z p.1.1) (f64_of_Z p.1.2) p.2)
             [(x, y, m); (x, y, M); (x, y + h, m); (x, y + h, M);
              (x + w, y, m); (x + w, y, M); (x + w, y + h, m); (x + w, y + h, M)]%Z ∧
       (Forall (fun d => PrimFloat.is_nan d = false)
          (corner_disparities env m M rpc1 rpc2 x y w h H1 H2 A) →
        d_min ∈ corner_disparities env m M rpc1 rpc2 x y w h H1 H2 A ∧
        d_max ∈ corner_disparities env m M rpc1 rpc2 x y w h H1 H2 A ∧
        PrimFloat.leb d_min d_max = true ∧
        Forall (fun d => PrimFloat.leb d_min d = true ∧ PrimFloat.leb d d_max = true)
          (corner_disparities env m M rpc1 rpc2 x y w h H1 H2 A)) ∧
       (Exists (fun d => PrimFloat.is_nan d = true)
          (corner_disparities env m M rpc1 rpc2 x y w h H1 H2 A) →
        PrimFloat.is_nan d_min = true ∧ PrimFloat.is_nan d_max = true ∧
        PrimFloat.leb d_min d_max = false ∧
        Forall (fun d => PrimFloat.leb d_min d = false ∧ PrimFloat.leb d d_max = false)
          (corner_disparities env m M rpc1 rpc2 x y w h H1 H2 A))) ∧
  (∀ (env : Env R_num) (m M : R) (rpc1 rpc2 : CameraModel R_num) (x y w h : Z)
     (H1 H2 : list (list R)) (A : option (list (list R)))
     (margin_top margin_bottom : R),
     ∃ d_min d_max : R,
       altitude_range_to_disp_range env m M rpc1 rpc2 x y w h H1 H2 A
         margin_top margin_bottom = Ok (d_min, d_max) ∧
       (d_min <= d_max)%R ∧
       corner_disparities env m M rpc1 rpc2 x y w h H1 H2 A
         = map (fun p : Z * Z * R =>
                  point_disp env rpc1 rpc2 H1 H2 A (IZR p.1.1) (IZR p.1.2) p.2)
             [(x, y, m); (x, y, M); (x, y + h, m); (x, y + h, M);
              (x + w, y, m); (x + w, y, M); (x + w, y + h, m); (x + w, y + h, M)]%Z ∧
       Forall (fun d => (d_min <= d <= d_max)%R)
         (corner_disparities env m M rpc1 rpc2 x y w h H1 H2 A)).
Proof.
  split.
  - intros env m M rpc1 rpc2 x y w h H1 H2 A margin_top margin_bottom.
    pose proof (corner_disparities_pointwise env m M rpc1 rpc2 x y w h H1 H2 A) as Hpt.
    pose proof (altitude_range_to_disp_range_eq env m M rpc1 rpc2 x y w h H1 H2 A
                  margin_top margin_bottom) as Hrun.
    change (@of_Z f64_num) with f64_of_Z in Hpt.
    generalize dependent (corner_disparities env m M rpc1 rpc2 x y w h H1 H2 A).
    intros ds Hpt Hrun.
    assert (Hne : ds ≠ []) by (rewrite Hpt; discriminate).
    destruct ds as [|d0 l]; [done |].
    exists (fold_left (@minimum f64_num) l d0), (fold_left (@maximum f64_num) l d0).
    split; [by apply Hrun |].
    split; [exact Hpt |]. split.
    + intros Hall.
      destruct (np_min_max_bracket_f64 (d0 :: l) Hne Hall)
        as (lo & hi & Hlo & Hhi & Hlo_in & Hhi_in & Hle & Hbr).
      injection Hlo as <-. injection Hhi as <-. done.
    + intros (d & Hd & Hnan)%Exists_exists.
      apply list_elem_of_lookup_1 in Hd as [i Hi].
      destruct (np_min_nan (d0 :: l) i d Hi Hnan) as (lo & Hlo & Hlonan).
      destruct (np_max_nan (d0 :: l) i d Hi Hnan) as (hi & Hhi & Hhinan).
      injection Hlo as <-. injection Hhi as <-.
      split; [exact Hlonan |]. split; [exact Hhinan |].
      split; [by apply nan_leb_l |].
      apply Forall_forall. intros v _.
      split; [by apply nan_leb_l | by apply nan_leb_r].
  - intros env m M rpc1 rpc2 x y w h H1 H2 A margin_top margin_bottom.
    pose proof (corner_disparities_pointwise env m M rpc1 rpc2 x y w h H1 H2 A) as Hpt.
    destruct (np_min_max_bracket (corner_disparities env m M rpc1 rpc2 x y w h H1 H2 A))
      as (lo & hi & Hmin & Hmax & Hle & Hall).
    { rewrite Hpt. discriminate. }
    exists lo, hi. split; [|split; [exact Hle | split; [exact Hpt | exact Hall]]].
    exact (altitude_range_to_disp_range_eq env m M rpc1 rpc2 x y w h H1 H2 A
             margin_top margin_bottom lo hi Hmin Hmax).
Qed.

(** Runs of C7's theorem: in binary64 the ROI (0, 0, 1, 1) at the
    altitudes 0 and 1 with the camera pair [quad_model], whose 8
    disparities are numbers, and in exact arithmetic the same ROI with
    [shift_model]. *)
Lemma altitude_range_to_disp_range_brackets_witness :
  (∃ d_min d_max : float,
     altitude_range_to_disp_range env0 0%float 1%float quad_model quad_model
       0 0 1 1 [] [] None 0%float 0%float = Ok (d_min, d_max) ∧
     d_min ∈ corner_disparities env0 0%float 1%float quad_model quad_model
               0 0 1 1 [] [] None ∧
     d_max ∈ corner_disparities env0 0%float 1%float quad_model quad_model
               0 0 1 1 [] [] None ∧
     PrimFloat.leb d_min d_max = true ∧
     Forall (fun d => PrimFloat.leb d_min d = true ∧ PrimFloat.leb d d_max = true)
       (corner_disparities env0 0%float 1%float quad_model quad_model
          0 0 1 1 [] [] None)) ∧
  (∃ d_min d_max : R,
     altitude_range_to_disp_range env_R 0%R 1%R shift_model shift_model
       0 0 1 1 [] [] None 0%R 0%R = Ok (d_min, d_max) ∧
     (d_min <= d_max)%R ∧
     Forall (fun d => (d_min <= d <= d_max)%R)
       (corner_disparities env_R 0%R 1%R shift_model shift_model 0 0 1 1 [] [] None)).
Proof.
  split.
  - destruct (proj1 altitude_range_to_disp_range_brackets env0 0%float 1%float
                quad_model quad_model 0%Z 0%Z 1%Z 1%Z [] [] None 0%float 0%float)
      as (lo & hi & Hrun & _ & Hnum & _).
    exists lo, hi. split; [exact Hrun |].
    apply Hnum. vm_compute. repeat constructor.
  - destruct (proj2 altitude_range_to_disp_range_brackets env_R 0%R 1%R
                shift_model shift_model 0%Z 0%Z 1%Z 1%Z [] [] None 0%R 0%R)
      as (lo & hi & Hrun & Hle & _ & Hall).
    exists lo, hi. split; [exact Hrun |]. split; [exact Hle | exact Hall].
Defined.

(** C7 as stated fails in binary64 when a disparity is NaN.  With the
    camera pair [flat_model], [blind_model], whose second image does not
    see the corners of column 1, the ROI (0, 0, 1, 1) at the altitudes
    0 < 1 has the disparities 0, 1, 0, 1 and four NaN; the range returned
    is (NaN, NaN), for which [d_min <= d_max] is false and which contains
    none of the disparities 0 and 1. *)
Lemma altitude_range_to_disp_range_nan_range :
  PrimFloat.ltb 0%float 1%float = true ∧
  corner_disparities env0 0%float 1%float flat_model blind_model 0 0 1 1 [] [] None
    = [0%float; 1%float; 0%float; 1%float;
       PrimFloat.nan; PrimFloat.nan; PrimFloat.nan; PrimFloat.nan] ∧
  altitude_range_to_disp_range env0 0%float 1%float flat_model blind_model
    0 0 1 1 [] [] None 0%float 0%float = Ok (PrimFloat.nan, PrimFloat.nan) ∧
  PrimFloat.leb PrimFloat.nan PrimFloat.nan = false ∧
  PrimFloat.leb PrimFloat.nan 0%float = false ∧
  PrimFloat.leb 0%float PrimFloat.nan = false ∧
  PrimFloat.leb PrimFloat.nan 1%float = false ∧
  PrimFloat.leb 1%float PrimFloat.nan = false.
Proof. repeat split; vm_compute; reflexivity. Qed.

(** The range evaluated in binary64: the ROI (0, 0, 1, 1) at the altitudes
    0 and 1 with the camera pair [quad_model] gives the 8 disparities
    0, 1024, 0, 1024, -1, 1023, -1, 1023. *)
Example altitude_range_to_disp_range_run :
  corner_disparities env0 0%float 1%float quad_model quad_model 0 0 1 1 [] [] None
    = [0; 1024; 0; 1024; -1; 1023; -1; 1023]%float ∧
  altitude_range_to_disp_range env0 0%float 1%float quad_model quad_model
    0 0 1 1 [] [] None 0%float 0%float
    = Ok ((-1)%float, 1024%float).
Proof. split; vm_compute; reflexivity. Qed.

(** ** The configuration written by [roi_process] *)

Section RoiFacts.
Context {N : Num}.
Variables (env : Env N) (rpc : CameraModel N).
Variables (ll_poly : list (num * num)) (utm_zone : option string).
Variable cfg : gmap string (cfg_val num).

Local Abbreviation settled_zone' := (settled_zone env ll_poly utm_zone).
Local Abbreviation easting' := (easting env ll_poly utm_zone).
Local Abbreviation northing' := (northing env ll_poly utm_zone).

(** The zone is settled when it is forced or the polygon has a vertex;
    otherwise settling it raises. *)
Lemma settle_utm_zone_settled :
  ll_poly ≠ [] ∨ zone_forced utm_zone = true →
  settle_utm_zone env ll_poly utm_zone = Ok settled_zone'.
Proof.
  unfold settle_utm_zone, settled_zone, zone_or_default, zone_forced, mean_utm_zone.
  intros [Hne | Hf].
  - destruct ll_poly as [|p l]; [done |].
    destruct utm_zone as [z|]; [by destruct (String.eqb z "") | done].
  - destruct utm_zone as [z|]; [|done]. by destruct (String.eqb z "").
Qed.



(** On a polygon with a vertex the call returns, and the configuration
    it leaves is [cfg] with the two keys written. *)
Lemma roi_process_returns :
  ll_poly ≠ [] →
  ∃ east_min east_max nort_min nort_max,
    py_min easting' = Ok east_min ∧ py_max easting' = Ok east_max ∧
    py_min northing' = Ok nort_min ∧ py_max northing' = Ok nort_max ∧
    roi_process env rpc ll_poly utm_zone cfg
      = (<["utm_bbx" := VBbx (east_min, east_max, nort_min, nort_max)]>
           (<["utm_zone" := VStr settled_zone']> cfg),
         let b := bounding_box2D env
                    (map (fun p => projection rpc p.1 p.2 (alt_offset rpc)) ll_poly) in
         Ok {| roi_x := b.1.1.1; roi_y := b.1.1.2; roi_w := b.1.2; roi_h := b.2 |}).
Proof.
  intros Hne. unfold roi_process.
  rewrite (settle_utm_zone_settled (or_introl Hne)).
  fold (easting env ll_poly utm_zone). fold (northing env ll_poly utm_zone).
  assert (He : easting' ≠ []) by (unfold easting'; by destruct ll_poly).
  assert (Hn : northing' ≠ []) by (unfold northing'; by destruct ll_poly).
  destruct easting' as [|e es]; [done |]. destruct northing' as [|n ns]; [done |].
  simpl. eexists _, _, _, _. repeat (split; [reflexivity |]).
  by destruct (bounding_box2D env _) as [[[x y] w] h].
Qed.

End RoiFacts.




(** ** The point mesh (exact arithmetic) *)

Lemma zip_with_map_same {A B C D} (f : B → C → D) (g1 : A → B) (g2 : A → C)
    (l : list A) :
  zip_with f (map g1 l) (map g2 l) = map (fun x => f (g1 x) (g2 x)) l.
Proof. induction l as [|a l IH]; simpl; [done | by rewrite IH]. Qed.

Lemma zip_with_flat_map_same {X B C D} (f : B → C → D)
    (F1 : X → list B) (F2 : X → list C) (l : list X) :
  (∀ x, length (F1 x) = length (F2 x)) →
  zip_with f (flat_map F1 l) (flat_map F2 l)
  = flat_map (fun x => zip_with f (F1 x) (F2 x)) l.
Proof.
  intros Hlen. induction l as [|a l IH]; simpl; [done |].
  by rewrite zip_with_app, IH.
Qed.

Lemma length_flat_map_const {X B} (F : X → list B) (l : list X) (c : nat) :
  (∀ x, length (F x) = c) → length (flat_map F l) = length l * c.
Proof. intros H. apply flat_map_constant_length. intros x _. apply H. Qed.

Lemma length_grid {A B C D} (f : A → B → C → D) cols rows alts :
  length (grid f cols rows alts) = length cols * length rows * length alts.
Proof.
  unfold grid.
  rewrite (length_flat_map_const _ alts (length rows * length cols)).
  - lia.
  - intros a. rewrite (length_flat_map_const _ rows (length cols)); [done |].
    intros r. by rewrite length_map.
Qed.

Lemma zip_with_grid {A B C D1 D2 E} (f : D1 → D2 → E)
    (g1 : A → B → C → D1) (g2 : A → B → C → D2) cols rows alts :
  zip_with f (grid g1 cols rows alts) (grid g2 cols rows alts)
  = grid (fun c r a => f (g1 c r a) (g2 c r a)) cols rows alts.
Proof.
  unfold grid. rewrite zip_with_flat_map_same.
  - apply flat_map_ext. intros a. rewrite zip_with_flat_map_same.
    + apply flat_map_ext. intros r. apply zip_with_map_same.
    + intros r. by rewrite !length_map.
  - intros a.
    rewrite (length_flat_map_const _ rows (length cols)),
      (length_flat_map_const _ rows (length cols)); [done | |];
      intros r; by rewrite length_map.
Qed.

(** The grid is the Cartesian product [list_prod], coordinates reordered. *)
Lemma grid_list_prod {A B C} (cols : list A) (rows : list B) (alts : list C) :
  grid (fun c r a => (c, r, a)) cols rows alts
  = map (fun p : C * (B * A) => (p.2.2, p.2.1, p.1))
      (list_prod alts (list_prod rows cols)).
Proof.
  unfold grid. rewrite list_prod_as_flat_map.
  induction alts as [|a alts IH]; simpl; [done |].
  rewrite map_app, <- IH. f_equal.
  rewrite map_map, list_prod_as_flat_map. simpl.
  clear IH. induction rows as [|r rows IH]; simpl; [done |].
  rewrite map_app, <- IH, map_map. reflexivity.
Qed.

Lemma generate_point_mesh_R (col_range row_range alt_range : R * R * nat) :
  let cols := @np_linspace R_num col_range.1.1 col_range.1.2 col_range.2 in
  let rows := @np_linspace R_num row_range.1.1 row_range.1.2 row_range.2 in
  let alts := @np_linspace R_num alt_range.1.1 alt_range.1.2 alt_range.2 in
  @generate_point_mesh R_num col_range row_range alt_range
  = (grid (fun c r a => c) cols rows alts,
     grid (fun c r a => r) cols rows alts,
     grid (fun c r a => a) cols rows alts).
Proof.
  intros cols rows alts. unfold generate_point_mesh, grid.
  fold cols. fold rows. fold alts.
  f_equal; [f_equal |];
    apply flat_map_ext; intros a; apply flat_map_ext; intros r;
    apply map_ext; intros c; Rops; lra.
Qed.

(** [np.linspace] in exact arithmetic. *)
Lemma length_np_linspace {N : Num} (lo hi : num) (n : nat) :
  length (np_linspace lo hi n) = n.
Proof.
  destruct n as [|[|d]]; simpl; [done | done |].
  rewrite length_app, length_map, length_seq. simpl. lia.
Qed.

Lemma np_linspace_one (lo hi : R) : @np_linspace R_num lo hi 1 = [lo].
Proof.
  unfold np_linspace. f_equal. Rops. rewrite <- INR_IZR_INZ. simpl. lra.
Qed.

Lemma np_linspace_lookup (lo hi : R) (n i : nat) :
  2 ≤ n → i < n →
  @np_linspace R_num lo hi n !! i
  = Some (lo + INR i * ((hi - lo) / INR (n - 1)))%R.
Proof.
  intros Hn Hi. destruct n as [|[|d]]; [lia | lia |].
  replace (S (S d) - 1) with (S d) by lia.
  assert (Hd : INR (S d) ≠ 0%R) by (apply not_0_INR; lia).
  unfold np_linspace. Rops. rewrite <- INR_IZR_INZ.
  remember (INR (S d)) as D eqn:HD.
  destruct (decide (i < S d)) as [Hlt | Hge].
  - rewrite lookup_app_l by (rewrite length_map, length_seq; lia).
    rewrite lookup_map, lookup_seq_lt by lia. simpl.
    rewrite <- INR_IZR_INZ. f_equal. lra.
  - assert (i = S d) as -> by lia.
    rewrite lookup_app_r by (rewrite length_map, length_seq; lia).
    rewrite length_map, length_seq, Nat.sub_diag.
    change ([hi] !! 0) with (Some hi). f_equal.
    rewrite <- HD. field. subst D. exact Hd.
Qed.

(** C5.  In exact arithmetic, for every three ranges (min, max, count),
    [generate_point_mesh] returns three sequences of length
    [nc * nr * na] whose (col, row, alt) tuples are the Cartesian product
    of the three linear spacings, each combination of a column sample, a
    row sample and an altitude sample once (altitude slowest, column
    fastest).  A spacing has [count] samples; with [count = 1] it is the
    single value [min]; with [count >= 2] its samples are
    [min + i (max - min)/(count - 1)], the first being [min] and the last
    [max]. *)
Theorem generate_point_mesh_cartesian (col_range row_range alt_range : R * R * nat) :
  let cols := @np_linspace R_num col_range.1.1 col_range.1.2 col_range.2 in
  let rows := @np_linspace R_num row_range.1.1 row_range.1.2 row_range.2 in
  let alts := @np_linspace R_num alt_range.1.1 alt_range.1.2 alt_range.2 in
  let mesh := @generate_point_mesh R_num col_range row_range alt_range in
  let total := col_range.2 * row_range.2 * alt_range.2 in
  (length mesh.1.1 = total ∧ length mesh.1.2 = total ∧ length mesh.2 = total) ∧
  (length cols = col_range.2 ∧ length rows = row_range.2 ∧ length alts = alt_range.2) ∧
  mesh_points mesh
    = map (fun p : R * (R * R) => (p.2.2, p.2.1, p.1))
        (list_prod alts (list_prod rows cols)) ∧
  length (mesh_points mesh) = total ∧
  (∀ lo hi : R, @np_linspace R_num lo hi 1 = [lo]) ∧
  (∀ (lo hi : R) (n : nat), 2 ≤ n →
     @np_linspace R_num lo hi n !! 0 = Some lo ∧
     last (@np_linspace R_num lo hi n) = Some hi ∧
     ∀ i, i < n →
       @np_linspace R_num lo hi n !! i
       = Some (lo + INR i * ((hi - lo) / INR (n - 1)))%R).
Proof.
  intros cols rows alts mesh total.
  assert (Hc : length cols = col_range.2) by apply length_np_linspace.
  assert (Hr : length rows = row_range.2) by apply length_np_linspace.
  assert (Ha : length alts = alt_range.2) by apply length_np_linspace.
  assert (Hmesh : mesh = (grid (fun c r a => c) cols rows alts,
                          grid (fun c r a => r) cols rows alts,
                          grid (fun c r a => a) cols rows alts))
    by apply generate_point_mesh_R.
  assert (Hpts : mesh_points mesh
                 = map (fun p : R * (R * R) => (p.2.2, p.2.1, p.1))
                     (list_prod alts (list_prod rows cols))).
  { rewrite Hmesh. unfold mesh_points, zip_with3. simpl.
    rewrite !zip_with_grid. apply grid_list_prod. }
  Rcarrier.
  split; [|split; [|split; [|split; [|split]]]].
  - rewrite Hmesh. simpl. rewrite !length_grid, Hc, Hr, Ha. done.
  - done.
  - exact Hpts.
  - rewrite Hpts, length_map, !length_prod, Hc, Hr, Ha. unfold total. lia.
  - apply np_linspace_one.
  - intros lo hi n Hn. split; [|split].
    + rewrite np_linspace_lookup by lia. f_equal. simpl. lra.
    + destruct n as [|[|d]]; [lia | lia |]. unfold np_linspace.
      apply last_snoc.
    + intros i Hi. by apply np_linspace_lookup.
Qed.

(** A run of C5's theorem: the spacing of [0, 1] with 3 samples. *)
Lemma generate_point_mesh_cartesian_witness :
  @np_linspace R_num 0%R 1%R 3 !! 0 = Some 0%R ∧
  last (@np_linspace R_num 0%R 1%R 3) = Some 1%R ∧
  @np_linspace R_num 0%R 1%R 3 !! 1 = Some (0 + INR 1 * ((1 - 0) / INR (3 - 1)))%R.
Proof.
  destruct (generate_point_mesh_cartesian (0%R, 1%R, 3) (0%R, 1%R, 3) (0%R, 1%R, 3))
    as (_ & _ & _ & _ & _ & Hlin).
  destruct (Hlin 0%R 1%R 3 ltac:(lia)) as (H0 & Hlast & Hi).
  split; [exact H0 |]. split; [exact Hlast |]. apply Hi. lia.
Defined.

(** The mesh of the ranges (0, 1, 2), (5, 7, 3), (10, 20, 1), evaluated in
    binary64: 6 points, every (column, row) pair once. *)
Example generate_point_mesh_run :
  @generate_point_mesh f64_num
    (0%float, 1%float, 2) (5%float, 7%float, 3) (10%float, 20%float, 1)
  = ([0; 1; 0; 1; 0; 1]%float, [5; 5; 6; 6; 7; 7]%float,
     [10; 10; 10; 10; 10; 10]%float).
Proof. vm_compute. reflexivity. Qed.

(** ** Normalisation (exact arithmetic) *)

Lemma np_mean_R (l : list R) : @np_mean R_num l = (Rsum l / INR (length l))%R.
Proof. unfold np_mean. rewrite np_sum_R. Rops. by rewrite <- INR_IZR_INZ. Qed.

Lemma Rsum_map_shift {A} (f : A → R) (c : R) (l : list A) :
  Rsum (map (fun x => f x - c)%R l) = (Rsum (map f l) - INR (length l) * c)%R.
Proof.
  induction l as [|a l IH]; [simpl; lra |].
  change (Rsum (map (fun x => f x - c)%R (a :: l)))
    with (f a - c + Rsum (map (fun x => f x - c)%R l))%R.
  change (Rsum (map f (a :: l))) with (f a + Rsum (map f l))%R.
  rewrite IH. change (length (a :: l)) with (S (length l)). rewrite S_INR. lra.
Qed.

Lemma Rsum_map_scale {A} (f : A → R) (s : R) (l : list A) :
  Rsum (map (fun x => s * f x)%R l) = (s * Rsum (map f l))%R.
Proof. induction l as [|a l IH]; simpl; [lra | rewrite IH; lra]. Qed.

Lemma Rsum_nonneg {A} (f : A → R) (l : list A) :
  (∀ x, 0 <= f x)%R → (0 <= Rsum (map f l))%R.
Proof.
  intros Hf. induction l as [|a l IH]; simpl; [lra |].
  specialize (Hf a). lra.
Qed.

Lemma Rsum_pos {A} (f : A → R) (l : list A) (i : nat) (a : A) :
  (∀ x, 0 <= f x)%R → l !! i = Some a → (0 < f a)%R → (0 < Rsum (map f l))%R.
Proof.
  intros Hf. revert i. induction l as [|b l IH]; intros i Hi Ha; [done |].
  destruct i as [|i]; simpl in *.
  - injection Hi as ->. pose proof (Rsum_nonneg f l Hf). lra.
  - specialize (IH i Hi Ha). specialize (Hf b). lra.
Qed.

(** The mean of the shifted and scaled coordinates is 0. *)
Lemma mean_centered {A} (f : A → R) (s : R) (l : list A) :
  l ≠ [] →
  let c := (Rsum (map f l) / INR (length l))%R in
  (Rsum (map (fun x => s * (f x - c))%R l) / INR (length l))%R = 0%R.
Proof.
  intros Hne c.
  assert (Hn : INR (length l) ≠ 0%R).
  { apply not_0_INR. destruct l; simpl; [done | lia]. }
  rewrite (Rsum_map_scale (fun x => f x - c)%R), Rsum_map_shift.
  unfold c. field. exact Hn.
Qed.

Lemma sqrt_scale2 (s a b : R) :
  (0 <= s)%R →
  R_sqrt.sqrt (s * a * (s * a) + s * b * (s * b)) = (s * R_sqrt.sqrt (a * a + b * b))%R.
Proof.
  intros Hs.
  replace (s * a * (s * a) + s * b * (s * b))%R
    with ((s * s) * (a * a + b * b))%R by ring.
  rewrite sqrt_mult_alt by nra. by rewrite sqrt_square.
Qed.

Lemma sqrt_scale3 (s a b c : R) :
  (0 <= s)%R →
  R_sqrt.sqrt (s * a * (s * a) + s * b * (s * b) + s * c * (s * c))
  = (s * R_sqrt.sqrt (a * a + b * b + c * c))%R.
Proof.
  intros Hs.
  replace (s * a * (s * a) + s * b * (s * b) + s * c * (s * c))%R
    with ((s * s) * (a * a + b * b + c * c))%R by ring.
  rewrite sqrt_mult_alt by nra. by rewrite sqrt_square.
Qed.

Lemma sqrt_pos_of_nonzero2 (a b : R) :
  (a ≠ 0 ∨ b ≠ 0)%R → (0 < R_sqrt.sqrt (a * a + b * b))%R.
Proof. intros H. apply sqrt_lt_R0. destruct H; nra. Qed.

Lemma sqrt_pos_of_nonzero3 (a b c : R) :
  (a ≠ 0 ∨ b ≠ 0 ∨ c ≠ 0)%R → (0 < R_sqrt.sqrt (a * a + b * b + c * c))%R.
Proof. intros H. apply sqrt_lt_R0. destruct H as [H | [H | H]]; nra. Qed.

Lemma R2_eq_or_not (p q : R * R) : p = q ∨ p ≠ q.
Proof.
  destruct p as [a b], q as [c d].
  destruct (Req_dec a c) as [-> | H1]; [|right; congruence].
  destruct (Req_dec b d) as [-> | H2]; [by left | right; congruence].
Qed.

Lemma R3_eq_or_not (p q : R * R * R) : p = q ∨ p ≠ q.
Proof.
  destruct p as [[a b] c], q as [[d e] f].
  destruct (Req_dec a d) as [-> | H1]; [|right; congruence].
  destruct (Req_dec b e) as [-> | H2]; [|right; congruence].
  destruct (Req_dec c f) as [-> | H3]; [by left | right; congruence].
Qed.

Section Normalize2.
Variable pts : list (R * R).

Lemma normalize_2d_points_R :
  @normalize_2d_points R_num pts
  = (map (fun p => (s2 pts * (p.1 - cx2 pts), s2 pts * (p.2 - cy2 pts))%R) pts,
     [[s2 pts; 0; - s2 pts * cx2 pts]; [0; s2 pts; - s2 pts * cy2 pts]; [0; 0; 1]]%R).
Proof.
  unfold normalize_2d_points. cbv zeta.
  unfold vstack2_T, scalar_mul, sub_scalar, np_sqrt, np_add, np_square, col0, col1.
  rewrite !np_mean_R, !map_map, !zip_with_map_same, !map_map, !length_map.
  reflexivity.
Qed.

Hypothesis Hdistinct :
  ∃ i j p q, pts !! i = Some p ∧ pts !! j = Some q ∧ p ≠ q.

Lemma pts2_nonempty : pts ≠ [].
Proof. destruct Hdistinct as (i & _ & p & _ & Hp & _). by destruct pts. Qed.

Lemma dist2_nonneg p : (0 <= dist2 pts p)%R.
Proof. apply sqrt_pos. Qed.

Lemma dist2_pos p : p ≠ (cx2 pts, cy2 pts) → (0 < dist2 pts p)%R.
Proof.
  intros Hp. apply sqrt_pos_of_nonzero2.
  destruct (Req_dec p.1 (cx2 pts)) as [H1 | H1]; [|left; lra].
  destruct (Req_dec p.2 (cy2 pts)) as [H2 | H2]; [|right; lra].
  destruct p as [a b]. simpl in *. congruence.
Qed.

Lemma md2_pos : (0 < md2 pts)%R.
Proof.
  assert (Hn : (0 < INR (length pts))%R).
  { apply lt_0_INR. pose proof pts2_nonempty. destruct pts; simpl; [done | lia]. }
  assert (Hsum : (0 < Rsum (map (dist2 pts) pts))%R).
  { destruct Hdistinct as (i & j & p & q & Hp & Hq & Hpq).
    destruct (R2_eq_or_not p (cx2 pts, cy2 pts)) as [-> | Hpc].
    - by apply (Rsum_pos (dist2 pts) pts j q dist2_nonneg Hq), dist2_pos.
    - by apply (Rsum_pos (dist2 pts) pts i p dist2_nonneg Hp), dist2_pos. }
  unfold md2. by apply Rdiv_lt_0_compat.
Qed.

Lemma s2_pos : (0 < s2 pts)%R.
Proof.
  unfold s2. apply Rdiv_lt_0_compat; [|exact md2_pos].
  apply sqrt_lt_R0. lra.
Qed.

Lemma normalize_2d_centroid :
  centroid2 (@normalize_2d_points R_num pts).1 = (0%R, 0%R).
Proof.
  rewrite normalize_2d_points_R. unfold centroid2, col0, col1. cbn [fst snd].
  rewrite !np_mean_R, !map_map, !length_map. cbn [fst snd].
  f_equal.
  - exact (mean_centered fst (s2 pts) pts pts2_nonempty).
  - exact (mean_centered snd (s2 pts) pts pts2_nonempty).
Qed.

Lemma normalize_2d_mean_radius :
  mean_radius2 (@normalize_2d_points R_num pts).1 = R_sqrt.sqrt 2.
Proof.
  rewrite normalize_2d_points_R. unfold mean_radius2. cbn [fst snd].
  unfold np_sqrt, np_add, np_square, col0, col1.
  rewrite !map_map, !zip_with_map_same, !map_map, np_mean_R, length_map.
  cbn [fst snd].
  assert (Hext : map (fun x : R * R =>
                   @fsqrt R_num
                     (@fadd R_num
                        (@fmul R_num (s2 pts * (x.1 - cx2 pts))%R (s2 pts * (x.1 - cx2 pts))%R)
                        (@fmul R_num (s2 pts * (x.2 - cy2 pts))%R (s2 pts * (x.2 - cy2 pts))%R)))
                  pts
                = map (fun x => (s2 pts * dist2 pts x)%R) pts).
  { apply map_ext. intros x. Rops. unfold dist2.
    apply sqrt_scale2. pose proof s2_pos. lra. }
  rewrite Hext, Rsum_map_scale.
  pose proof md2_pos as Hmd. unfold s2 at 1. fold (md2 pts).
  replace (R_sqrt.sqrt 2 / md2 pts * Rsum (map (dist2 pts) pts) / INR (length pts))%R
    with (R_sqrt.sqrt 2 / md2 pts * md2 pts)%R by (unfold md2; lra).
  Rcarrier. field. lra.
Qed.

Lemma normalize_2d_transform i p :
  pts !! i = Some p →
  ∃ q, (@normalize_2d_points R_num pts).1 !! i = Some q ∧
       mat_vec (@normalize_2d_points R_num pts).2 (homog2 p) = homog2 q.
Proof.
  intros Hp. rewrite normalize_2d_points_R. cbn [fst snd]. Rcarrier.
  eexists. split.
  - rewrite lookup_map, Hp. reflexivity.
  - unfold mat_vec, homog2, vdot, np_sum, np_multiply. simpl.
    repeat f_equal; Rops; ring.
Qed.
End Normalize2.

Section Normalize3.
Variable pts : list (R * R * R).

Lemma normalize_3d_points_R :
  @normalize_3d_points R_num pts
  = (map (fun p => (s3 pts * (p.1.1 - cx3 pts), s3 pts * (p.1.2 - cy3 pts),
                    s3 pts * (p.2 - cz3 pts))%R) pts,
     [[s3 pts; 0; 0; - s3 pts * cx3 pts];
      [0; s3 pts; 0; - s3 pts * cy3 pts];
      [0; 0; s3 pts; - s3 pts * cz3 pts];
      [0; 0; 0; 1]]%R).
Proof.
  unfold normalize_3d_points. cbv zeta.
  unfold vstack3_T, zip_with3, scalar_mul, sub_scalar, np_sqrt, np_add, np_square,
    arr3_col0, arr3_col1, arr3_col2.
  rewrite !np_mean_R, !map_map, !zip_with_map_same, !map_map, !length_map.
  reflexivity.
Qed.

Hypothesis Hdistinct :
  ∃ i j p q, pts !! i = Some p ∧ pts !! j = Some q ∧ p ≠ q.

Lemma pts3_nonempty : pts ≠ [].
Proof. destruct Hdistinct as (i & _ & p & _ & Hp & _). by destruct pts. Qed.

Lemma dist3_nonneg p : (0 <= dist3 pts p)%R.
Proof. apply sqrt_pos. Qed.

Lemma dist3_pos p : p ≠ (cx3 pts, cy3 pts, cz3 pts) → (0 < dist3 pts p)%R.
Proof.
  intros Hp. apply sqrt_pos_of_nonzero3.
  destruct (Req_dec p.1.1 (cx3 pts)) as [H1 | H1]; [|left; lra].
  destruct (Req_dec p.1.2 (cy3 pts)) as [H2 | H2]; [|right; left; lra].
  destruct (Req_dec p.2 (cz3 pts)) as [H3 | H3]; [|right; right; lra].
  destruct p as [[a b] c]. simpl in *. congruence.
Qed.

Lemma md3_pos : (0 < md3 pts)%R.
Proof.
  assert (Hn : (0 < INR (length pts))%R).
  { apply lt_0_INR. pose proof pts3_nonempty. destruct pts; simpl; [done | lia]. }
  assert (Hsum : (0 < Rsum (map (dist3 pts) pts))%R).
  { destruct Hdistinct as (i & j & p & q & Hp & Hq & Hpq).
    destruct (R3_eq_or_not p (cx3 pts, cy3 pts, cz3 pts)) as [-> | Hpc].
    - by apply (Rsum_pos (dist3 pts) pts j q dist3_nonneg Hq), dist3_pos.
    - by apply (Rsum_pos (dist3 pts) pts i p dist3_nonneg Hp), dist3_pos. }
  unfold md3. by apply Rdiv_lt_0_compat.
Qed.

Lemma s3_pos : (0 < s3 pts)%R.
Proof.
  unfold s3. apply Rdiv_lt_0_compat; [|exact md3_pos].
  apply sqrt_lt_R0. lra.
Qed.

Lemma normalize_3d_centroid :
  centroid3 (@normalize_3d_points R_num pts).1 = (0%R, 0%R, 0%R).
Proof.
  rewrite normalize_3d_points_R.
  unfold centroid3, arr3_col0, arr3_col1, arr3_col2. cbn [fst snd].
  rewrite !np_mean_R, !map_map, !length_map. cbn [fst snd].
  f_equal; [f_equal |].
  - exact (mean_centered (fun p : R * R * R => p.1.1) (s3 pts) pts pts3_nonempty).
  - exact (mean_centered (fun p : R * R * R => p.1.2) (s3 pts) pts pts3_nonempty).
  - exact (mean_centered (fun p : R * R * R => p.2) (s3 pts) pts pts3_nonempty).
Qed.

Lemma normalize_3d_mean_radius :
  mean_radius3 (@normalize_3d_points R_num pts).1 = R_sqrt.sqrt 3.
Proof.
  rewrite normalize_3d_points_R. unfold mean_radius3. cbn [fst snd].
  unfold np_sqrt, np_add, np_square, arr3_col0, arr3_col1, arr3_col2.
  rewrite !map_map, !zip_with_map_same, !map_map, np_mean_R, length_map.
  cbn [fst snd].
  assert (Hext : map (fun x : R * R * R =>
                   @fsqrt R_num
                     (@fadd R_num
                       (@fadd R_num
                        (@fmul R_num (s3 pts * (x.1.1 - cx3 pts))%R (s3 pts * (x.1.1 - cx3 pts))%R)
                        (@fmul R_num (s3 pts * (x.1.2 - cy3 pts))%R (s3 pts * (x.1.2 - cy3 pts))%R))
                       (@fmul R_num (s3 pts * (x.2 - cz3 pts))%R (s3 pts * (x.2 - cz3 pts))%R)))
                  pts
                = map (fun x => (s3 pts * dist3 pts x)%R) pts).
  { apply map_ext. intros x. Rops. unfold dist3.
    apply sqrt_scale3. pose proof s3_pos. lra. }
  rewrite Hext, Rsum_map_scale.
  pose proof md3_pos as Hmd. unfold s3 at 1. fold (md3 pts).
  replace (R_sqrt.sqrt 3 / md3 pts * Rsum (map (dist3 pts) pts) / INR (length pts))%R
    with (R_sqrt.sqrt 3 / md3 pts * md3 pts)%R by (unfold md3; lra).
  Rcarrier. field. lra.
Qed.

Lemma normalize_3d_transform i p :
  pts !! i = Some p →
  ∃ q, (@normalize_3d_points R_num pts).1 !! i = Some q ∧
       mat_vec (@normalize_3d_points R_num pts).2 (homog3 p) = homog3 q.
Proof.
  intros Hp. rewrite normalize_3d_points_R. cbn [fst snd]. Rcarrier.
  eexists. split.
  - rewrite lookup_map, Hp. reflexivity.
  - unfold mat_vec, homog3, vdot, np_sum, np_multiply. simpl.
    repeat f_equal; Rops; ring.
Qed.
End Normalize3.

(** C8.  In exact arithmetic, for a point set with at least two distinct
    points, [normalize_2d_points] (resp. [normalize_3d_points]) returns
    points whose centroid is the origin and whose mean distance from the
    origin is sqrt 2 (resp. sqrt 3), and a matrix T (resp. U) made of a
    uniform scale [s > 0] on the diagonal, a translation in the last
    column and the last row (0, .., 0, 1), which maps every input point,
    in homogeneous coordinates, to the output point of the same index. *)
Theorem normalize_points_similarity :
  (∀ pts : list (R * R),
     (∃ i j p q, pts !! i = Some p ∧ pts !! j = Some q ∧ p ≠ q) →
     let new_pts := (@normalize_2d_points R_num pts).1 in
     let T := (@normalize_2d_points R_num pts).2 in
     length new_pts = length pts ∧
     centroid2 new_pts = (0%R, 0%R) ∧
     mean_radius2 new_pts = R_sqrt.sqrt 2 ∧
     (∃ s tx ty : R, (0 < s)%R ∧ T = [[s; 0; tx]; [0; s; ty]; [0; 0; 1]]%R) ∧
     ∀ i p, pts !! i = Some p →
       ∃ q, new_pts !! i = Some q ∧ mat_vec T (homog2 p) = homog2 q) ∧
  (∀ pts : list (R * R * R),
     (∃ i j p q, pts !! i = Some p ∧ pts !! j = Some q ∧ p ≠ q) →
     let new_pts := (@normalize_3d_points R_num pts).1 in
     let U := (@normalize_3d_points R_num pts).2 in
     length new_pts = length pts ∧
     centroid3 new_pts = (0%R, 0%R, 0%R) ∧
     mean_radius3 new_pts = R_sqrt.sqrt 3 ∧
     (∃ s tx ty tz : R, (0 < s)%R ∧
        U = [[s; 0; 0; tx]; [0; s; 0; ty]; [0; 0; s; tz]; [0; 0; 0; 1]]%R) ∧
     ∀ i p, pts !! i = Some p →
       ∃ q, new_pts !! i = Some q ∧ mat_vec U (homog3 p) = homog3 q).
Proof.
  split.
  - intros pts Hd new_pts T. subst new_pts T.
    split; [|split; [|split; [|split]]].
    + rewrite normalize_2d_points_R. cbn [fst]. by rewrite length_map.
    + by apply normalize_2d_centroid.
    + by apply normalize_2d_mean_radius.
    + rewrite normalize_2d_points_R. cbn [snd].
      eexists _, _, _. split; [exact (s2_pos pts Hd) | reflexivity].
    + intros i p Hp. by apply normalize_2d_transform.
  - intros pts Hd new_pts U. subst new_pts U.
    split; [|split; [|split; [|split]]].
    + rewrite normalize_3d_points_R. cbn [fst]. by rewrite length_map.
    + by apply normalize_3d_centroid.
    + by apply normalize_3d_mean_radius.
    + rewrite normalize_3d_points_R. cbn [snd].
      eexists _, _, _, _. split; [exact (s3_pos pts Hd) | reflexivity].
    + intros i p Hp. by apply normalize_3d_transform.
Qed.

(** A run of C8's theorem: two points on a line. *)
Lemma normalize_points_similarity_witness :
  (centroid2 (@normalize_2d_points R_num [(0, 0); (2, 0)]%R).1 = (0%R, 0%R) ∧
   mean_radius2 (@normalize_2d_points R_num [(0, 0); (2, 0)]%R).1 = R_sqrt.sqrt 2) ∧
  (centroid3 (@normalize_3d_points R_num [(0, 0, 0); (2, 0, 0)]%R).1
     = (0%R, 0%R, 0%R) ∧
   mean_radius3 (@normalize_3d_points R_num [(0, 0, 0); (2, 0, 0)]%R).1
     = R_sqrt.sqrt 3).
Proof.
  destruct normalize_points_similarity as [H2 H3]. split.
  - destruct (H2 [(0, 0); (2, 0)]%R) as (_ & Hc & Hr & _); [|by split].
    exists 0, 1, (0, 0)%R, (2, 0)%R.
    split; [reflexivity |]. split; [reflexivity |].
    intros H. injection H. lra.
  - destruct (H3 [(0, 0, 0); (2, 0, 0)]%R) as (_ & Hc & Hr & _); [|by split].
    exists 0, 1, (0, 0, 0)%R, (2, 0, 0)%R.
    split; [reflexivity |]. split; [reflexivity |].
    intros H. injection H. lra.
Defined.

(** ** The DLT system (exact arithmetic) *)

Lemma length_mjoin_pairs {A B} (f g : A → B) (l : list A) :
  length (mjoin (map (fun a => [f a; g a]) l)) = 2 * length l.
Proof. induction l as [|a l IH]; simpl in *; [done | rewrite IH; lia]. Qed.

Lemma lookup_mjoin_pairs {A B} (f g : A → B) (l : list A) (i : nat) :
  mjoin (map (fun a => [f a; g a]) l) !! (2 * i) = f <$> l !! i ∧
  mjoin (map (fun a => [f a; g a]) l) !! (2 * i + 1) = g <$> l !! i.
Proof.
  revert i. induction l as [|a l IH]; intros i.
  - by rewrite !lookup_nil.
  - destruct i as [|i]; [done |].
    replace (2 * S i) with (S (S (2 * i))) by lia.
    replace (S (S (2 * i)) + 1) with (S (S (2 * i + 1))) by lia.
    exact (IH i).
Qed.

Lemma Forall_mjoin_pairs {A B} (P : B → Prop) (f g : A → B) (l : list A) :
  (∀ a, P (f a) ∧ P (g a)) → Forall P (mjoin (map (fun a => [f a; g a]) l)).
Proof.
  intros H. induction l as [|a l IH]; simpl; [constructor |].
  destruct (H a). by repeat constructor.
Qed.

Lemma dlt_rows_eq {N : Num} (Xi : num * num * num) (xi : num * num) :
  dlt_rows Xi xi = [dlt_row0 Xi xi; dlt_row1 Xi xi].
Proof. reflexivity. Qed.

Lemma dlt_system_eq {N : Num} (X : list (num * num * num)) (x : list (num * num)) :
  dlt_system X x
  = mjoin (map (fun p => [dlt_row0 p.1 p.2; dlt_row1 p.1 p.2]) (zip X x)).
Proof.
  unfold dlt_system. f_equal.
  revert x. induction X as [|a X IH]; intros [|b x]; simpl; try done.
  by rewrite IH.
Qed.

(** A row of the system applied to the 12 entries of [P] is a component
    of the cross product [x_i x (P X_i)]. *)
Lemma dlt_rows_cross (Xi : R * R * R) (xi : R * R)
    (p11 p12 p13 p14 p21 p22 p23 p24 p31 p32 p33 p34 : R) :
  let P1 := [p11; p12; p13; p14] in
  let P2 := [p21; p22; p23; p24] in
  let P3 := [p31; p32; p33; p34] in
  let PX := (@vdot R_num P1 (homog3 Xi), @vdot R_num P2 (homog3 Xi),
             @vdot R_num P3 (homog3 Xi)) in
  @vdot R_num (dlt_row0 Xi xi) (P1 ++ P2 ++ P3)
    = (@cross3 R_num (xi.1, xi.2, 1%R) PX).1.1 ∧
  @vdot R_num (dlt_row1 Xi xi) (P1 ++ P2 ++ P3)
    = (@cross3 R_num (xi.1, xi.2, 1%R) PX).1.2.
Proof.
  destruct Xi as [[X1 X2] X3], xi as [u v].
  unfold vdot, np_sum, np_multiply, dlt_row0, dlt_row1, homog3, cross3.
  simpl. split; Rops; ring.
Qed.

(** C4.  In exact arithmetic, for N world points and N image points
    (whatever N, so in particular for N >= 6), [camera_matrix] builds from
    the normalised points a system [A] of 2N rows of 12 entries; the
    correspondence of index i gives the rows 2i and 2i+1, which applied to
    the 12 entries of a matrix P are the first two components of the
    cross product [x_i x (P X_i)]; it takes the last row of the third
    result of [np.linalg.svd] (the rows of V^T are ordered by decreasing
    singular value, so this is the right singular vector of the smallest
    one), reshapes it to 3 x 4 and returns [inv(T) . P . U]. *)
Theorem camera_matrix_dlt (env : Env R_num) (X : list (R * R * R))
    (x : list (R * R)) :
  length X = length x →
  let Xn := (@normalize_3d_points R_num X).1 in
  let U := (@normalize_3d_points R_num X).2 in
  let xn := (@normalize_2d_points R_num x).1 in
  let T := (@normalize_2d_points R_num x).2 in
  let A := @dlt_system R_num Xn xn in
  length A = 2 * length x ∧
  Forall (fun row => length row = 12) A ∧
  (∀ i, i < length x → ∃ Xi xi, Xn !! i = Some Xi ∧ xn !! i = Some xi) ∧
  (∀ i Xi xi, Xn !! i = Some Xi → xn !! i = Some xi →
     A !! (2 * i) = Some (dlt_row0 Xi xi) ∧
     A !! (2 * i + 1) = Some (dlt_row1 Xi xi) ∧
     dlt_row0 Xi xi
       = [0; 0; 0; 0; -1 * Xi.1.1; -1 * Xi.1.2; -1 * Xi.2; -1 * 1;
          xi.2 * Xi.1.1; xi.2 * Xi.1.2; xi.2 * Xi.2; xi.2 * 1]%R ∧
     dlt_row1 Xi xi
       = [Xi.1.1; Xi.1.2; Xi.2; 1; 0; 0; 0; 0;
          - xi.1 * Xi.1.1; - xi.1 * Xi.1.2; - xi.1 * Xi.2; - xi.1 * 1]%R ∧
     ∀ p11 p12 p13 p14 p21 p22 p23 p24 p31 p32 p33 p34 : R,
       let P1 := [p11; p12; p13; p14] in
       let P2 := [p21; p22; p23; p24] in
       let P3 := [p31; p32; p33; p34] in
       let PX := (@vdot R_num P1 (homog3 Xi), @vdot R_num P2 (homog3 Xi),
                  @vdot R_num P3 (homog3 Xi)) in
       @vdot R_num (dlt_row0 Xi xi) (P1 ++ P2 ++ P3)
         = (@cross3 R_num (xi.1, xi.2, 1%R) PX).1.1 ∧
       @vdot R_num (dlt_row1 Xi xi) (P1 ++ P2 ++ P3)
         = (@cross3 R_num (xi.1, xi.2, 1%R) PX).1.2) ∧
  (∀ W S V v, linalg_svd env A = (W, S, V) → last V = Some v → length v = 12 →
     camera_matrix env X x
     = Ok (@np_dot R_num
             (@np_dot R_num (linalg_inv env T)
                [take 4 v; take 4 (drop 4 v); drop 8 v])
             U)).
Proof.
  intros Hlen Xn U xn T A.
  assert (HXn : length Xn = length x).
  { unfold Xn. rewrite normalize_3d_points_R. cbn [fst]. by rewrite length_map. }
  assert (Hxn : length xn = length x).
  { unfold xn. rewrite normalize_2d_points_R. cbn [fst]. by rewrite length_map. }
  assert (HA : A = mjoin (map (fun p : R * R * R * (R * R) =>
                                 [dlt_row0 p.1 p.2; dlt_row1 p.1 p.2]) (zip Xn xn)))
    by apply (@dlt_system_eq R_num).
  split; [|split; [|split; [|split]]].
  - rewrite HA, length_mjoin_pairs, length_zip. Rcarrier. lia.
  - rewrite HA. apply Forall_mjoin_pairs. intros a. by split.
  - intros i Hi.
    destruct (lookup_lt_is_Some_2 Xn i ltac:(lia)) as [Xi HXi].
    destruct (lookup_lt_is_Some_2 xn i ltac:(lia)) as [xi Hxi].
    by exists Xi, xi.
  - intros i Xi xi HXi Hxi.
    assert (Hz : zip Xn xn !! i = Some (Xi, xi)) by by apply lookup_zip_Some.
    destruct (lookup_mjoin_pairs
                (fun p : R * R * R * (R * R) => @dlt_row0 R_num p.1 p.2)
                (fun p : R * R * R * (R * R) => @dlt_row1 R_num p.1 p.2)
                (zip Xn xn) i) as [H0 H1].
    Rcarrier.
    split; [by rewrite HA, H0, Hz |]. split; [by rewrite HA, H1, Hz |].
    split; [reflexivity |]. split; [reflexivity |].
    intros. by apply dlt_rows_cross.
  - intros W S V v Hsvd Hlast Hv.
    unfold camera_matrix.
    rewrite (surjective_pairing (@normalize_3d_points R_num X)).
    rewrite (surjective_pairing (@normalize_2d_points R_num x)).
    fold Xn U xn T A. rewrite Hsvd, Hlast. unfold reshape_3_4. rewrite Hv.
    reflexivity.
Qed.

(** A run of C4's theorem: six correspondences. *)
Lemma camera_matrix_dlt_witness :
  length (@dlt_system R_num (@normalize_3d_points R_num six_world_points).1
            (@normalize_2d_points R_num six_image_points).1) = 2 * 6 ∧
  camera_matrix env_R six_world_points six_image_points
  = Ok (@np_dot R_num
          (@np_dot R_num
             (linalg_inv env_R (@normalize_2d_points R_num six_image_points).2)
             [[1; 0; 0; 0]; [0; 1; 0; 0]; [0; 0; 1; 0]]%R)
          (@normalize_3d_points R_num six_world_points).2).
Proof.
  destruct (camera_matrix_dlt env_R six_world_points six_image_points eq_refl)
    as (Hrows & _ & _ & _ & Hrun).
  split; [exact Hrows |].
  exact (Hrun [] [] [[1; 0; 0; 0; 0; 1; 0; 0; 0; 0; 1; 0]%R]
           [1; 0; 0; 0; 0; 1; 0; 0; 0; 0; 1; 0]%R eq_refl eq_refl eq_refl).
Defined.

(* ================================================================== *)
(** * Further properties

    What the code shows beyond the statements above: error and edge
    behaviour, invariants, round trips and how the functions compose. *)

(** ** Reprojection between two images *)

Lemma find_corresponding_point_id {N : Num} (m : CameraModel N)
    (x y z : list num) :
  length y = length x → length z = length x →
  (∀ a b c,
     projection m (localization m a b c).1 (localization m a b c).2 c = (a, b)) →
  find_corresponding_point m m x y z = (x, y, z).
Proof.
  intros Hy Hz Hround. unfold find_corresponding_point, localization_v, projection_v.
  f_equal. revert y z Hy Hz.
  induction x as [|a x IH]; intros [|b y] [|c z] Hy Hz; try done.
  simpl in Hy, Hz.
  specialize (IH y z ltac:(lia) ltac:(lia)). injection IH as IHx IHy.
  unfold zip_with3 in *. cbn [zip_with]. rewrite IHx, IHy, (Hround a b c). reflexivity.
Qed.

(** X1.  Round trip: when the projection of a camera inverts its
    localization at every altitude, [find_corresponding_point] from the
    camera to itself returns the input pixels and altitudes unchanged, on
    arrays of equal lengths and for every carrier. *)
Theorem find_corresponding_point_round_trip {N : Num} (m : CameraModel N)
    (x y z : list num) :
  length y = length x → length z = length x →
  (∀ a b c,
     projection m (localization m a b c).1 (localization m a b c).2 c = (a, b)) →
  find_corresponding_point m m x y z = (x, y, z).
Proof.
  intros Hy Hz Hround. exact (find_corresponding_point_id m x y z Hy Hz Hround).
Qed.

(** A run of X1's theorem (binary64). *)
Lemma find_corresponding_point_round_trip_witness :
  find_corresponding_point flat_model flat_model
    [1%float; 2%float] [3%float; 4%float] [5%float; 6%float]
  = ([1%float; 2%float], [3%float; 4%float], [5%float; 6%float]).
Proof.
  apply (find_corresponding_point_round_trip flat_model
           [1%float; 2%float] [3%float; 4%float] [5%float; 6%float]);
    reflexivity.
Defined.

(** ** The height loop: shapes and single points *)

Section HeightShape.
Context {N : Num}.
Variables (model_a model_b : CameraModel N).
Variables (x1 y1 x2 y2 : list num).
Hypothesis Hy1 : length y1 = length x1.
Hypothesis Hx2 : length x2 = length x1.
Hypothesis Hy2 : length y2 = length x1.

Lemma length_predicted_q h0 :
  length h0 = length x1 →
  length (predicted_q model_a model_b x1 y1 x2 y2 h0) = length x1.
Proof.
  intros Hh. unfold predicted_q.
  pose proof (length_reproject model_a model_b x1 y1 x2 y2 Hy1 Hx2 Hy2 h0 Hh).
  pose proof (length_height_inc model_a model_b x1 y1 x2 y2 Hy1 Hx2 Hy2 h0 Hh).
  arrlen.
Qed.

Lemma length_residual h0 :
  length h0 = length x1 →
  length (residual model_a model_b x1 y1 x2 y2 h0) = length x1.
Proof.
  intros Hh. unfold residual.
  pose proof (length_predicted_q h0 Hh).
  pose proof (length_p2 x1 y1 x2 y2 Hy1 Hx2 Hy2).
  arrlen.
Qed.

Lemma lookup_heights_after i xa ya xb yb j :
  x1 !! i = Some xa → y1 !! i = Some ya → x2 !! i = Some xb → y2 !! i = Some yb →
  heights_after model_a model_b x1 y1 x2 y2 j !! i
    = Some (point_height model_a model_b xa ya xb yb j).
Proof.
  intros Hxa Hya Hxb Hyb. induction j as [|j IH]; simpl.
  - unfold np_zeros. apply lookup_repeat. by eapply lookup_lt_Some.
  - by apply (lookup_update_height model_a model_b x1 y1 x2 y2 i xa ya xb yb).
Qed.
End HeightShape.

(** X2.  On a batch of equal lengths with at least one point,
    [compute_height] returns a height array and a residual array that both
    have the length of the batch, for every carrier. *)
Theorem compute_height_output_lengths {N : Num}
    (model_a model_b : CameraModel N) (x1 y1 x2 y2 : list num) :
  length y1 = length x1 → length x2 = length x1 → length y2 = length x1 →
  x1 ≠ [] →
  ∃ h err, compute_height model_a model_b x1 y1 x2 y2 = Ok (h, err) ∧
    length h = length x1 ∧ length err = length x1.
Proof.
  intros Hy1 Hx2 Hy2 Hne.
  destruct (compute_height_loop_spec model_a model_b x1 y1 x2 y2
              Hy1 Hx2 Hy2 Hne) as (k & Hk & _ & Hc & _).
  eexists _, _. split; [exact Hc |]. split.
  - by apply length_heights_after.
  - apply length_residual; try done. by apply length_heights_after.
Qed.

(** A run of X2's theorem (binary64): one point. *)
Lemma compute_height_output_lengths_witness :
  ∃ h err,
    compute_height quad_model quad_model [0%float] [0%float] [0.5%float] [0%float]
      = Ok (h, err) ∧
    length h = length [0%float] ∧ length err = length [0%float].
Proof.
  apply (compute_height_output_lengths quad_model quad_model
           [0%float] [0%float] [0.5%float] [0%float]);
    [reflexivity | reflexivity | reflexivity | discriminate].
Defined.

(** X3.  Point by point: on a batch of equal lengths with at least one
    point, [compute_height] makes [k] passes and the height it returns for
    point [i] is the [k]-fold iterate, from 0, of the single-point update
    [h -> h + h_inc(h) * HSTEP] computed from that point's own pixel pair.
    The other points of the batch act on it only through the common number
    of passes [k].  This holds for every carrier. *)
Theorem compute_height_pointwise {N : Num}
    (model_a model_b : CameraModel N) (x1 y1 x2 y2 : list num) :
  length y1 = length x1 → length x2 = length x1 → length y2 = length x1 →
  x1 ≠ [] →
  ∃ k h err, 1 ≤ k ≤ 100 ∧
    compute_height model_a model_b x1 y1 x2 y2 = Ok (h, err) ∧
    ∀ i xa ya xb yb,
      x1 !! i = Some xa → y1 !! i = Some ya →
      x2 !! i = Some xb → y2 !! i = Some yb →
      h !! i = Some (point_height model_a model_b xa ya xb yb k).
Proof.
  intros Hy1 Hx2 Hy2 Hne.
  destruct (compute_height_loop_spec model_a model_b x1 y1 x2 y2
              Hy1 Hx2 Hy2 Hne) as (k & Hk & _ & Hc & _).
  eexists k, _, _. split; [exact Hk |]. split; [exact Hc |].
  intros i xa ya xb yb Hxa Hya Hxb Hyb. by apply lookup_heights_after.
Qed.

(** A run of X3's theorem (binary64): one point. *)
Lemma compute_height_pointwise_witness :
  ∃ k h err, 1 ≤ k ≤ 100 ∧
    compute_height quad_model quad_model [0%float] [0%float] [0.5%float] [0%float]
      = Ok (h, err) ∧
    ∀ i xa ya xb yb,
      [0%float] !! i = Some xa → [0%float] !! i = Some ya →
      [0.5%float] !! i = Some xb → [0%float] !! i = Some yb →
      h !! i = Some (point_height quad_model quad_model xa ya xb yb k).
Proof.
  apply (compute_height_pointwise quad_model quad_model
           [0%float] [0%float] [0.5%float] [0%float]);
    [reflexivity | reflexivity | reflexivity | discriminate].
Defined.

(** ** The height loop on an affine reprojection (exact arithmetic) *)

Section AffineHeight.
Variables (model_a model_b : CameraModel R_num).
Variables (base dir : R → R → R * R).
Hypothesis Haff : ∀ xa ya h : R,
  corresponding_point model_a model_b xa ya h
  = (((base xa ya).1 + h * (dir xa ya).1)%R, ((base xa ya).2 + h * (dir xa ya).2)%R).

Lemma affine_point_inc (xa ya ht hi : R) :
  ((dir xa ya).1 ≠ 0 ∨ (dir xa ya).2 ≠ 0)%R →
  point_inc model_a model_b xa ya
    ((base xa ya).1 + ht * (dir xa ya).1)%R ((base xa ya).2 + ht * (dir xa ya).2)%R hi
  = (ht - hi)%R.
Proof.
  intros Hd. unfold point_inc, point_a, point_b, point_r0, point_r1.
  rewrite !Haff. cbn [fst snd]. Rcarrier. Rops. unfold HSTEP.
  destruct (base xa ya) as [bx by'], (dir xa ya) as [dx dy]. cbn [fst snd] in *.
  assert (Hden : (dx * dx + dy * dy ≠ 0)%R) by (destruct Hd; nra).
  replace (bx + (hi + 1) * dx - (bx + hi * dx))%R with dx by ring.
  replace (by' + (hi + 1) * dy - (by' + hi * dy))%R with dy by ring.
  field. exact Hden.
Qed.

Lemma affine_point_err (xa ya ht hi : R) :
  ((dir xa ya).1 ≠ 0 ∨ (dir xa ya).2 ≠ 0)%R →
  point_err model_a model_b xa ya
    ((base xa ya).1 + ht * (dir xa ya).1)%R ((base xa ya).2 + ht * (dir xa ya).2)%R hi
  = 0%R.
Proof.
  intros Hd. unfold point_err, point_q.
  rewrite affine_point_inc by exact Hd.
  unfold point_a, point_r0, point_r1. rewrite !Haff. cbn [fst snd]. Rcarrier. Rops. unfold HSTEP.
  destruct (base xa ya) as [bx by'], (dir xa ya) as [dx dy]. cbn [fst snd] in *.
  rewrite <- sqrt_0. f_equal. ring.
Qed.
End AffineHeight.

Lemma np_max_fabs_zeros (n : nat) :
  n ≠ 0 → @np_max R_num (@np_fabs R_num (@np_zeros R_num n)) = Ok 0%R.
Proof.
  destruct n as [|n]; [done |]. intros _.
  unfold np_zeros, np_fabs. simpl. f_equal.
  induction n as [|n IH]; simpl.
  - apply Rabs_R0.
  - rewrite R_maximum, Rmax_left by lra. exact IH.
Qed.

Section AffineBatch.
Variables (model_a model_b : CameraModel R_num).
Variables (base dir : R → R → R * R).
Variables (x1 y1 x2 y2 truth : list (@num R_num)).
Hypothesis Hy1 : length y1 = length x1.
Hypothesis Hx2 : length x2 = length x1.
Hypothesis Hy2 : length y2 = length x1.
Hypothesis Htruth : length truth = length x1.
Hypothesis Haff : ∀ xa ya h : R,
  corresponding_point model_a model_b xa ya h
  = (((base xa ya).1 + h * (dir xa ya).1)%R, ((base xa ya).2 + h * (dir xa ya).2)%R).
Hypothesis Hdir : ∀ i xa ya, x1 !! i = Some xa → y1 !! i = Some ya →
  ((dir xa ya).1 ≠ 0 ∨ (dir xa ya).2 ≠ 0)%R.
Hypothesis Hobs : ∀ i xa ya ht,
  x1 !! i = Some xa → y1 !! i = Some ya → truth !! i = Some ht →
  x2 !! i = Some ((base xa ya).1 + ht * (dir xa ya).1)%R ∧
  y2 !! i = Some ((base xa ya).2 + ht * (dir xa ya).2)%R.

Lemma affine_point_data i :
  i < length x1 →
  ∃ xa ya ht, x1 !! i = Some xa ∧ y1 !! i = Some ya ∧ truth !! i = Some ht ∧
    x2 !! i = Some ((base xa ya).1 + ht * (dir xa ya).1)%R ∧
    y2 !! i = Some ((base xa ya).2 + ht * (dir xa ya).2)%R ∧
    ((dir xa ya).1 ≠ 0 ∨ (dir xa ya).2 ≠ 0)%R.
Proof.
  intros Hi.
  destruct (lookup_lt_is_Some_2 x1 i Hi) as [xa Hxa].
  destruct (lookup_lt_is_Some_2 y1 i ltac:(lia)) as [ya Hya].
  destruct (lookup_lt_is_Some_2 truth i ltac:(lia)) as [ht Hht].
  destruct (Hobs i xa ya ht Hxa Hya Hht) as [Hxb Hyb].
  exists xa, ya, ht. repeat (split; [done |]). by eapply Hdir.
Qed.

Lemma affine_update_height h0 :
  length h0 = length x1 →
  update_height model_a model_b x1 y1 x2 y2 h0 = truth.
Proof.
  intros Hh. apply list_eq. intros i.
  destruct (decide (i < length x1)) as [Hi | Hi].
  - destruct (affine_point_data i Hi) as (xa & ya & ht & Hxa & Hya & Hht & Hxb & Hyb & Hd).
    destruct (lookup_lt_is_Some_2 h0 i ltac:(lia)) as [hi Hhi].
    pose proof (lookup_update_height model_a model_b x1 y1 x2 y2 i xa ya _ _
                  Hxa Hya Hxb Hyb h0 hi Hhi) as Hu.
    rewrite (affine_point_inc model_a model_b base dir Haff xa ya ht hi Hd) in Hu.
    Rcarrier. rewrite Hu, Hht. f_equal. Rops. unfold HSTEP. lra.
  - rewrite !lookup_ge_None_2; [done | lia |].
    rewrite (length_update_height model_a model_b x1 y1 x2 y2 Hy1 Hx2 Hy2 h0 Hh). lia.
Qed.

Lemma affine_residual h0 :
  length h0 = length x1 →
  residual model_a model_b x1 y1 x2 y2 h0 = np_zeros (length x1).
Proof.
  intros Hh. apply list_eq. intros i.
  destruct (decide (i < length x1)) as [Hi | Hi].
  - destruct (affine_point_data i Hi) as (xa & ya & ht & Hxa & Hya & Hht & Hxb & Hyb & Hd).
    destruct (lookup_lt_is_Some_2 h0 i ltac:(lia)) as [hi Hhi].
    pose proof (lookup_residual model_a model_b x1 y1 x2 y2 i xa ya _ _
                  Hxa Hya Hxb Hyb h0 hi Hhi) as Hu.
    rewrite (affine_point_err model_a model_b base dir Haff xa ya ht hi Hd) in Hu.
    unfold np_zeros. Rcarrier. by rewrite Hu, lookup_repeat.
  - rewrite !lookup_ge_None_2; [done | |].
    + unfold np_zeros. rewrite repeat_length. lia.
    + rewrite (length_residual model_a model_b x1 y1 x2 y2 Hy1 Hx2 Hy2 h0 Hh). lia.
Qed.

Lemma affine_height_inc_truth :
  height_inc model_a model_b x1 y1 x2 y2 truth = np_zeros (length x1).
Proof.
  apply list_eq. intros i.
  destruct (decide (i < length x1)) as [Hi | Hi].
  - destruct (affine_point_data i Hi) as (xa & ya & ht & Hxa & Hya & Hht & Hxb & Hyb & Hd).
    pose proof (lookup_height_inc model_a model_b x1 y1 x2 y2 i xa ya _ _
                  Hxa Hya Hxb Hyb truth ht Hht) as Hu.
    rewrite (affine_point_inc model_a model_b base dir Haff xa ya ht ht Hd) in Hu.
    unfold np_zeros. Rcarrier. rewrite Hu, lookup_repeat by done.
    f_equal. simpl. lra.
  - rewrite !lookup_ge_None_2; [done | |].
    + unfold np_zeros. rewrite repeat_length. lia.
    + rewrite (length_height_inc model_a model_b x1 y1 x2 y2 Hy1 Hx2 Hy2 truth Htruth). lia.
Qed.

Lemma affine_threshold_truth :
  x1 ≠ [] → threshold_met model_a model_b x1 y1 x2 y2 truth = Ok true.
Proof.
  intros Hne. unfold threshold_met.
  rewrite affine_height_inc_truth, np_max_fabs_zeros by (by destruct x1).
  simpl. f_equal. apply R_ltb_true. lra.
Qed.

Lemma affine_heights_after k :
  heights_after model_a model_b x1 y1 x2 y2 (S k) = truth.
Proof.
  simpl. apply affine_update_height.
  exact (length_heights_after model_a model_b x1 y1 x2 y2 Hy1 Hx2 Hy2 k).
Qed.
End AffineBatch.

(** X4.  In exact arithmetic, when the reprojection into image B is
    affine in the altitude, [r(h) = base + h dir] with [dir] not the zero
    vector at every point of the batch, and every observed [p2] is the
    reprojection at a true height, [compute_height] returns exactly the
    true heights, with residuals 0, after at most 2 passes. *)
Theorem compute_height_exact_on_affine
    (model_a model_b : CameraModel R_num) (base dir : R → R → R * R)
    (x1 y1 x2 y2 truth : list R) :
  length y1 = length x1 → length x2 = length x1 → length y2 = length x1 →
  length truth = length x1 → x1 ≠ [] →
  (∀ xa ya h : R,
     corresponding_point model_a model_b xa ya h
     = (((base xa ya).1 + h * (dir xa ya).1)%R,
        ((base xa ya).2 + h * (dir xa ya).2)%R)) →
  (∀ i xa ya, x1 !! i = Some xa → y1 !! i = Some ya →
     ((dir xa ya).1 ≠ 0 ∨ (dir xa ya).2 ≠ 0)%R) →
  (∀ i xa ya ht,
     x1 !! i = Some xa → y1 !! i = Some ya → truth !! i = Some ht →
     x2 !! i = Some ((base xa ya).1 + ht * (dir xa ya).1)%R ∧
     y2 !! i = Some ((base xa ya).2 + ht * (dir xa ya).2)%R) →
  ∃ k, 1 ≤ k ≤ 2 ∧
    compute_height_passes model_a model_b x1 y1 x2 y2
      = Ok (truth, @np_zeros R_num (length x1), k) ∧
    compute_height model_a model_b x1 y1 x2 y2
      = Ok (truth, @np_zeros R_num (length x1)).
Proof.
  intros Hy1 Hx2 Hy2 Htruth Hne Haff Hdir Hobs.
  destruct (compute_height_loop_spec model_a model_b x1 y1 x2 y2
              Hy1 Hx2 Hy2 Hne) as (k & Hk & Hp & Hc & _ & Hbefore).
  pose proof (affine_heights_after model_a model_b base dir x1 y1 x2 y2 truth
                Hy1 Hx2 Hy2 Htruth Haff Hdir Hobs) as Hafter.
  assert (Hres : residual model_a model_b x1 y1 x2 y2
                   (heights_after model_a model_b x1 y1 x2 y2 (k - 1))
                 = @np_zeros R_num (length x1)).
  { apply (affine_residual model_a model_b base dir x1 y1 x2 y2 truth
             Hy1 Hx2 Hy2 Htruth Haff Hdir Hobs).
    exact (length_heights_after model_a model_b x1 y1 x2 y2 Hy1 Hx2 Hy2 (k - 1)). }
  assert (Hk2 : k ≤ 2).
  { destruct (decide (k ≤ 2)) as [|Hgt]; [done |].
    specialize (Hbefore 1 ltac:(lia)). rewrite Hafter in Hbefore.
    rewrite (affine_threshold_truth model_a model_b base dir x1 y1 x2 y2 truth
               Hy1 Hx2 Hy2 Htruth Haff Hdir Hobs Hne) in Hbefore.
    discriminate. }
  exists k. split; [lia |].
  assert (Hh : heights_after model_a model_b x1 y1 x2 y2 k = truth)
    by (replace k with (S (k - 1)) by lia; apply Hafter).
  rewrite Hp, Hc, Hres, Hh. done.
Qed.

(** A run of X4's theorem: image B is image A shifted by the altitude,
    one point of true height 2. *)
Lemma compute_height_exact_on_affine_witness :
  ∃ k, 1 ≤ k ≤ 2 ∧
    compute_height_passes shift_model shift_model [0%R] [0%R] [2%R] [0%R]
      = Ok ([2%R], @np_zeros R_num 1, k) ∧
    compute_height shift_model shift_model [0%R] [0%R] [2%R] [0%R]
      = Ok ([2%R], @np_zeros R_num 1).
Proof.
  apply (compute_height_exact_on_affine shift_model shift_model
           (fun x y => (x, y)) (fun _ _ => (1%R, 0%R))
           [0%R] [0%R] [2%R] [0%R] [2%R]);
    [reflexivity | reflexivity | reflexivity | reflexivity | discriminate | | |].
  - intros xa ya h. unfold corresponding_point. simpl. f_equal; lra.
  - intros i xa ya _ _. left. simpl. lra.
  - intros [|i] xa ya ht Hxa Hya Hht; [|done].
    injection Hxa as <-. injection Hya as <-. injection Hht as <-.
    simpl. split; f_equal; lra.
Defined.

(** ** NaN in the height loop, continued (binary64) *)

Section HeightNaNMore.
Variables (model_a model_b : CameraModel f64_num).
Variables (x1 y1 x2 y2 : list (@num f64_num)).
Hypothesis Hy1 : length y1 = length x1.
Hypothesis Hx2 : length x2 = length x1.
Hypothesis Hy2 : length y2 = length x1.

Lemma threshold_met_nan h0 i v :
  height_inc model_a model_b x1 y1 x2 y2 h0 !! i = Some v →
  PrimFloat.is_nan v = true →
  threshold_met model_a model_b x1 y1 x2 y2 h0 = Ok false.
Proof.
  intros Hv Hnan. unfold threshold_met.
  destruct (np_max_nan (np_fabs (height_inc model_a model_b x1 y1 x2 y2 h0)) i
              (PrimFloat.abs v)) as (m & Hm & Hmnan).
  { unfold np_fabs. Fcarrier. by rewrite lookup_map, Hv. }
  { by apply nan_abs. }
  rewrite Hm. simpl. f_equal. by apply nan_ltb_l.
Qed.

Lemma predicted_q_nan h0 p (a : @num f64_num * @num f64_num) i :
  length h0 = length x1 →
  probe_a model_a model_b x1 y1 h0 !! p = Some a →
  i < length x1 →
  ∃ q, predicted_q model_a model_b x1 y1 x2 y2 h0 !! i = Some q ∧
       (PrimFloat.is_nan a.1 = true → PrimFloat.is_nan q.1 = true) ∧
       (PrimFloat.is_nan a.2 = true → PrimFloat.is_nan q.2 = true).
Proof.
  intros Hh Ha Hi.
  pose proof (length_height_inc model_a model_b x1 y1 x2 y2 Hy1 Hx2 Hy2 h0 Hh) as Hlinc.
  pose proof (length_reproject model_a model_b x1 y1 x2 y2 Hy1 Hx2 Hy2 h0 Hh) as Hlr.
  pose proof (length_probe_a model_a model_b x1 y1 x2 y2 Hy1 Hx2 Hy2 h0 Hh) as Hla.
  assert (Hp : p < length x1) by (rewrite <- Hla; by eapply lookup_lt_Some).
  destruct (lookup_lt_is_Some_2 (height_inc model_a model_b x1 y1 x2 y2 h0) i
              ltac:(lia)) as [xi Hxi].
  destruct (lookup_lt_is_Some_2 (height_inc model_a model_b x1 y1 x2 y2 h0) p
              ltac:(lia)) as [xp Hxp].
  destruct (lookup_lt_is_Some_2 (reproject model_a model_b x1 y1 h0) i
              ltac:(lia)) as [r0 Hr0].
  set (row := imap (fun k (_ : float) => if Nat.eqb i k then xi else 0%float)
                (height_inc model_a model_b x1 y1 x2 y2 h0)).
  Fcarrier.
  assert (Hrow : row !! p = Some (if Nat.eqb i p then xi else 0%float)).
  { unfold row. by rewrite list_lookup_imap, Hxp. }
  exists ((r0.1 + @vdot f64_num row (col0 (probe_a model_a model_b x1 y1 h0)))%float,
          (r0.2 + @vdot f64_num row (col1 (probe_a model_a model_b x1 y1 h0)))%float).
  split; [|split].
  - unfold predicted_q, add2, np_dot_n2, np_diag. Fcarrier.
    rewrite lookup_zip_with, Hr0. simpl.
    rewrite lookup_map, list_lookup_imap, Hxi. reflexivity.
  - intros Hnan. cbn [fst]. apply nan_add_r.
    apply (vdot_nan _ _ p _ a.1 Hrow); [|exact Hnan].
    unfold col0. Fcarrier. by rewrite lookup_map, Ha.
  - intros Hnan. cbn [snd]. apply nan_add_r.
    apply (vdot_nan _ _ p _ a.2 Hrow); [|exact Hnan].
    unfold col1. Fcarrier. by rewrite lookup_map, Ha.
Qed.

Lemma residual_nan h0 p (a : @num f64_num * @num f64_num) i :
  length h0 = length x1 →
  probe_a model_a model_b x1 y1 h0 !! p = Some a →
  PrimFloat.is_nan a.1 = true ∨ PrimFloat.is_nan a.2 = true →
  i < length x1 →
  ∃ e, residual model_a model_b x1 y1 x2 y2 h0 !! i = Some e ∧
       PrimFloat.is_nan e = true.
Proof.
  intros Hh Ha Hnan Hi.
  destruct (predicted_q_nan h0 p a i Hh Ha Hi) as (q & Hq & Hq1 & Hq2).
  destruct (lookup_lt_is_Some_2 (p2 x2 y2) i) as [pb Hpb].
  { rewrite (length_p2 x1 y1 x2 y2 Hy1 Hx2 Hy2). exact Hi. }
  Fcarrier. eexists. split.
  - unfold residual, np_sqrt, np_add, np_multiply, col0, col1, sub2. Fcarrier.
    rewrite lookup_map, !lookup_zip_with, !lookup_map, !lookup_zip_with.
    rewrite Hq, Hpb. reflexivity.
  - simpl. apply nan_sqrt, add_nan. destruct Hnan as [H | H].
    + left. apply nan_mul_l, nan_sub_l. by apply Hq1.
    + right. apply nan_mul_l, nan_sub_l. by apply Hq2.
Qed.
End HeightNaNMore.

(** X5.  In binary64, a pass in which the increment of some point is NaN
    never takes the early exit: [np.max] of the absolute increments is NaN
    and [NaN < 0.001] is false.  So when the last pass of the loop has a
    NaN increment, the loop made all 100 passes. *)
Theorem compute_height_nan_increment_no_early_exit
    (model_a model_b : CameraModel f64_num) (x1 y1 x2 y2 : list (@num f64_num)) :
  length y1 = length x1 → length x2 = length x1 → length y2 = length x1 →
  x1 ≠ [] →
  ∃ k h err,
    compute_height_passes model_a model_b x1 y1 x2 y2 = Ok (h, err, k) ∧
    ∀ j i (v : @num f64_num),
      j < k →
      height_inc model_a model_b x1 y1 x2 y2
        (heights_after model_a model_b x1 y1 x2 y2 j) !! i = Some v →
      PrimFloat.is_nan v = true →
      threshold_met model_a model_b x1 y1 x2 y2
        (heights_after model_a model_b x1 y1 x2 y2 j) = Ok false ∧
      (j + 1 = k → k = 100).
Proof.
  intros Hy1 Hx2 Hy2 Hne.
  destruct (compute_height_loop_spec model_a model_b x1 y1 x2 y2
              Hy1 Hx2 Hy2 Hne) as (k & Hk & Hp & _ & Hlast & _).
  eexists k, _, _. split; [exact Hp |].
  intros j i v Hj Hv Hnan.
  pose proof (threshold_met_nan model_a model_b x1 y1 x2 y2 _ i v Hv Hnan) as Hth.
  split; [exact Hth |].
  intros Hjk. destruct (decide (k < 100)) as [Hlt | Hge]; [|lia].
  specialize (Hlast Hlt). replace (k - 1) with j in Hlast by lia.
  rewrite Hth in Hlast. discriminate.
Qed.

(** A run of X5's theorem: two points, the second one not seen by
    image B. *)
Lemma compute_height_nan_increment_no_early_exit_witness :
  ∃ k h err,
    compute_height_passes blind_model blind_model
      [0%float; 1%float] [0%float; 0%float] [2%float; 2%float] [0%float; 0%float]
      = Ok (h, err, k) ∧
    ∀ j i (v : @num f64_num),
      j < k →
      height_inc blind_model blind_model
        [0%float; 1%float] [0%float; 0%float] [2%float; 2%float] [0%float; 0%float]
        (heights_after blind_model blind_model
           [0%float; 1%float] [0%float; 0%float] [2%float; 2%float] [0%float; 0%float] j)
        !! i = Some v →
      PrimFloat.is_nan v = true →
      threshold_met blind_model blind_model
        [0%float; 1%float] [0%float; 0%float] [2%float; 2%float] [0%float; 0%float]
        (heights_after blind_model blind_model
           [0%float; 1%float] [0%float; 0%float] [2%float; 2%float] [0%float; 0%float] j)
        = Ok false ∧
      (j + 1 = k → k = 100).
Proof.
  apply (compute_height_nan_increment_no_early_exit blind_model blind_model
           [0%float; 1%float] [0%float; 0%float] [2%float; 2%float] [0%float; 0%float]);
    [reflexivity | reflexivity | reflexivity | discriminate].
Defined.

(** X6.  In binary64, the residual goes through the full matrix product
    [np.dot(np.diag(h0_inc), a)]: if at the last pass the probe
    displacement of one point has a NaN component, the residual returned
    for every point of the batch is NaN. *)
Theorem compute_height_residual_nan_spreads
    (model_a model_b : CameraModel f64_num) (x1 y1 x2 y2 : list (@num f64_num)) :
  length y1 = length x1 → length x2 = length x1 → length y2 = length x1 →
  x1 ≠ [] →
  ∃ k h err,
    compute_height_passes model_a model_b x1 y1 x2 y2 = Ok (h, err, k) ∧
    compute_height model_a model_b x1 y1 x2 y2 = Ok (h, err) ∧
    ∀ p (a : @num f64_num * @num f64_num),
      probe_a model_a model_b x1 y1
        (heights_after model_a model_b x1 y1 x2 y2 (k - 1)) !! p = Some a →
      PrimFloat.is_nan a.1 = true ∨ PrimFloat.is_nan a.2 = true →
      ∀ i, i < length x1 →
        ∃ e, err !! i = Some e ∧ PrimFloat.is_nan e = true.
Proof.
  intros Hy1 Hx2 Hy2 Hne.
  destruct (compute_height_loop_spec model_a model_b x1 y1 x2 y2
              Hy1 Hx2 Hy2 Hne) as (k & Hk & Hp & Hc & _).
  eexists k, _, _. split; [exact Hp |]. split; [exact Hc |].
  intros p a Ha Hnan i Hi.
  apply (residual_nan model_a model_b x1 y1 x2 y2 Hy1 Hx2 Hy2 _ p a i); try done.
  exact (length_heights_after model_a model_b x1 y1 x2 y2 Hy1 Hx2 Hy2 (k - 1)).
Qed.

(** A run of X6's theorem: two points, the second one not seen by
    image B. *)
Lemma compute_height_residual_nan_spreads_witness :
  ∃ k h err,
    compute_height_passes blind_model blind_model
      [0%float; 1%float] [0%float; 0%float] [2%float; 2%float] [0%float; 0%float]
      = Ok (h, err, k) ∧
    compute_height blind_model blind_model
      [0%float; 1%float] [0%float; 0%float] [2%float; 2%float] [0%float; 0%float]
      = Ok (h, err) ∧
    ∀ p (a : @num f64_num * @num f64_num),
      probe_a blind_model blind_model [0%float; 1%float] [0%float; 0%float]
        (heights_after blind_model blind_model
           [0%float; 1%float] [0%float; 0%float] [2%float; 2%float] [0%float; 0%float]
           (k - 1)) !! p = Some a →
      PrimFloat.is_nan a.1 = true ∨ PrimFloat.is_nan a.2 = true →
      ∀ i, i < length [0%float; 1%float] →
        ∃ e, err !! i = Some e ∧ PrimFloat.is_nan e = true.
Proof.
  apply (compute_height_residual_nan_spreads blind_model blind_model
           [0%float; 1%float] [0%float; 0%float] [2%float; 2%float] [0%float; 0%float]);
    [reflexivity | reflexivity | reflexivity | discriminate].
Defined.

(** The same run evaluated: the first point converges to the height 2,
    the second one is NaN, the loop makes 100 passes and both residuals
    are NaN. *)
Example compute_height_blind_run :
  compute_height_passes blind_model blind_model
    [0%float; 1%float] [0%float; 0%float] [2%float; 2%float] [0%float; 0%float]
  = Ok ([2%float; PrimFloat.nan], [PrimFloat.nan; PrimFloat.nan], 100).
Proof. vm_compute. reflexivity. Qed.

(** In that run the first point, taken alone, has the linear prediction
    (2, 0) = p2 and the residual 0 at the height 2; row 0 of
    [q = r0 + np.dot(np.diag(h0_inc), a)] is (NaN, 0), because the sum of
    the row takes in the product of 0 with the NaN probe displacement of
    the second point. *)
Example compute_height_blind_row :
  point_q blind_model blind_model 0%float 0%float 2%float 0%float 2%float
    = (2%float, 0%float) ∧
  point_err blind_model blind_model 0%float 0%float 2%float 0%float 2%float
    = 0%float ∧
  point_q_row blind_model blind_model
    [0%float; 1%float] [0%float; 0%float] [2%float; 2%float] [0%float; 0%float]
    [2%float; PrimFloat.nan] 0 0%float 0%float 2%float 0%float 2%float
    = (PrimFloat.nan, 0%float).
Proof. repeat split; vm_compute; reflexivity. Qed.

(** ** The geodesic bounding box (exact arithmetic) *)

(** X7.  In exact arithmetic [geodesic_bounding_box] always returns, with
    [lon_m <= lon_M] and [lat_m <= lat_M], and the (lon, lat) of each of
    the 8 vertices of the 3D ROI, the 4 corners at the altitudes
    [alt_offset - alt_scale] and [alt_offset + alt_scale], lies in the
    box. *)
Theorem geodesic_bounding_box_contains_vertices
    (rpc : CameraModel R_num) (x y w h : Z) :
  ∃ lon_m lon_M lat_m lat_M : R,
    geodesic_bounding_box rpc x y w h = Ok (lon_m, lon_M, lat_m, lat_M) ∧
    (lon_m <= lon_M)%R ∧ (lat_m <= lat_M)%R ∧
    ∀ (cx cy : Z) (a : R),
      cx ∈ [x; (x + w)%Z] → cy ∈ [y; (y + h)%Z] →
      a ∈ [(alt_offset rpc - alt_scale rpc)%R; (alt_offset rpc + alt_scale rpc)%R] →
      (lon_m <= (localization rpc (IZR cx) (IZR cy) a).1 <= lon_M)%R ∧
      (lat_m <= (localization rpc (IZR cx) (IZR cy) a).2 <= lat_M)%R.
Proof.
  set (m := (alt_offset rpc - alt_scale rpc)%R).
  set (M := (alt_offset rpc + alt_scale rpc)%R).
  set (vs := [(x, y, m); (x, y, M); (x, (y + h)%Z, m); (x, (y + h)%Z, M);
              ((x + w)%Z, y, m); ((x + w)%Z, y, M);
              ((x + w)%Z, (y + h)%Z, m); ((x + w)%Z, (y + h)%Z, M)]).
  set (lon := map (fun p : Z * Z * R =>
                     (localization rpc (IZR p.1.1) (IZR p.1.2) p.2).1) vs).
  set (lat := map (fun p : Z * Z * R =>
                     (localization rpc (IZR p.1.1) (IZR p.1.2) p.2).2) vs).
  assert (Hrun : geodesic_bounding_box rpc x y w h
                 = (lon_m ← @np_min R_num lon; lon_M ← @np_max R_num lon;
                    lat_m ← @np_min R_num lat; lat_M ← @np_max R_num lat;
                    Ok (lon_m, lon_M, lat_m, lat_M))) by reflexivity.
  destruct (np_min_max_bracket lon) as (lo0 & lo1 & Hlo0 & Hlo1 & Hlo & Hlon);
    [discriminate |].
  destruct (np_min_max_bracket lat) as (la0 & la1 & Hla0 & Hla1 & Hla & Hlat);
    [discriminate |].
  exists lo0, lo1, la0, la1.
  split.
  { rewrite Hrun, Hlo0. cbn [mbind result_bind]. rewrite Hlo1.
    cbn [mbind result_bind]. rewrite Hla0. cbn [mbind result_bind].
    rewrite Hla1. reflexivity. }
  split; [exact Hlo |]. split; [exact Hla |].
  intros cx cy a Hcx Hcy Ha.
  assert (Hin : (cx, cy, a) ∈ vs).
  { unfold vs. rewrite !elem_of_cons, elem_of_nil in Hcx.
    rewrite !elem_of_cons, elem_of_nil in Hcy.
    rewrite !elem_of_cons, elem_of_nil in Ha.
    rewrite !elem_of_cons.
    destruct Hcx as [-> | [-> | []]], Hcy as [-> | [-> | []]],
      Ha as [-> | [-> | []]]; tauto. }
  rewrite Forall_forall in Hlon, Hlat. split.
  - apply Hlon. unfold lon. apply list_elem_of_In.
    apply (in_map (fun p : Z * Z * R =>
             (localization rpc (IZR p.1.1) (IZR p.1.2) p.2).1) vs (cx, cy, a)).
    by apply list_elem_of_In.
  - apply Hlat. unfold lat. apply list_elem_of_In.
    apply (in_map (fun p : Z * Z * R =>
             (localization rpc (IZR p.1.1) (IZR p.1.2) p.2).2) vs (cx, cy, a)).
    by apply list_elem_of_In.
Qed.

(** A run of X7's theorem: the far corner of the ROI (0, 0, 1, 1) at the
    upper altitude. *)
Lemma geodesic_bounding_box_contains_vertices_witness :
  ∃ lon_m lon_M lat_m lat_M : R,
    geodesic_bounding_box shift_model 0 0 1 1 = Ok (lon_m, lon_M, lat_m, lat_M) ∧
    (lon_m <= (localization shift_model (IZR (0 + 1)) (IZR (0 + 1))
                 (alt_offset shift_model + alt_scale shift_model)%R).1 <= lon_M)%R ∧
    (lat_m <= (localization shift_model (IZR (0 + 1)) (IZR (0 + 1))
                 (alt_offset shift_model + alt_scale shift_model)%R).2 <= lat_M)%R.
Proof.
  destruct (geodesic_bounding_box_contains_vertices shift_model 0 0 1 1)
    as (a & b & c & d & Hrun & _ & _ & Hin).
  exists a, b, c, d. split; [exact Hrun |].
  apply Hin; repeat constructor.
Defined.

(** ** The raster window and its cells *)

(** X8.  The read window of [min_max_heights_from_bbx] on a raster with at
    least one row and one column starts at a non-negative pixel, has a
    non-negative size and satisfies [x0 + w <= sizex - 1] and
    [y0 + h <= sizey - 1]: the last column and the last row of the raster
    are never read, and on a raster with a single column or a single row
    the window is always empty, which is the coarse fallback. *)
Theorem dem_window_within_raster {N : Num} (ds : Dataset N)
    (lon_m lon_M lat_m lat_M : num) (sizey sizex x0 y0 w h : Z) :
  ds_shape ds = (sizey, sizex) → (1 ≤ sizex)%Z → (1 ≤ sizey)%Z →
  dem_window ds lon_m lon_M lat_m lat_M = Ok (x0, y0, w, h) →
  (0 ≤ x0 ∧ 0 ≤ w ∧ x0 + w ≤ sizex - 1)%Z ∧
  (0 ≤ y0 ∧ 0 ≤ h ∧ y0 + h ≤ sizey - 1)%Z ∧
  (sizex = 1 ∨ sizey = 1 → w = 0 ∨ h = 0)%Z.
Proof.
  intros Hshape Hx Hy Hwin. unfold dem_window in Hwin.
  cbn [np_min np_max mbind result_bind] in Hwin.
  repeat match type of Hwin with
         | (py_int ?v ≫= _) = _ =>
             destruct (py_int v) as [?|?];
             cbn [mbind result_bind] in Hwin; [|discriminate Hwin]
         end.
  rewrite Hshape in Hwin. injection Hwin as <- <- <- <-.
  unfold clip. lia.
Qed.

(** A run of X8's theorem (binary64): the box (0, 1) x (0, 1) on the
    10 x 10 raster gives the window (0, 0, 3, 3). *)
Lemma dem_window_within_raster_witness :
  (0 ≤ 0 ∧ 0 ≤ 3 ∧ 0 + 3 ≤ 10 - 1)%Z ∧
  (0 ≤ 0 ∧ 0 ≤ 3 ∧ 0 + 3 ≤ 10 - 1)%Z ∧
  (10 = 1 ∨ 10 = 1 → 3 = 0 ∨ 3 = 0)%Z.
Proof.
  apply (dem_window_within_raster dem_10x10 0%float 1%float 0%float 1%float
           10 10 0 0 3 3);
    [reflexivity | lia | lia | vm_compute; reflexivity].
Defined.

(** [int] in binary64: truncation toward zero, ValueError on NaN and
    OverflowError on an infinity. *)
Example py_int_run :
  @py_int f64_num 2.5%float = Ok 2%Z ∧
  @py_int f64_num (-2.5)%float = Ok (-2)%Z ∧
  @py_int f64_num PrimFloat.nan = Raise ValueError ∧
  @py_int f64_num PrimFloat.infinity = Raise OverflowError ∧
  @py_int f64_num PrimFloat.neg_infinity = Raise OverflowError.
Proof. repeat split; vm_compute; reflexivity. Qed.

Lemma py_int_nan (v : float) :
  PrimFloat.is_nan v = true → @py_int f64_num v = Raise ValueError.
Proof.
  intros H. unfold py_int. simpl. rewrite H. unfold f64_to_int.
  apply is_nan_spec in H. by rewrite H.
Qed.

(** X9.  In binary64, when the column of a corner of the box in the
    raster is NaN, [int(np.min(px))] raises: [min_max_heights_from_bbx]
    raises ValueError and does not fall back to the coarse range. *)
Theorem dem_window_nan_raises (env : Env f64_num)
    (cfg : gmap string (cfg_val float)) (im : cfg_val float)
    (lon_m lon_M lat_m lat_M : float) (rpc : CameraModel f64_num) :
  let ds := rasterio_open env im in
  let p0 := ds_inv_transform ds (ds_from_lonlat ds lon_m lat_m) in
  let p1 := ds_inv_transform ds (ds_from_lonlat ds lon_M lat_M) in
  PrimFloat.is_nan p0.1 = true ∨ PrimFloat.is_nan p1.1 = true →
  dem_window ds lon_m lon_M lat_m lat_M = Raise ValueError ∧
  min_max_heights_from_bbx env cfg im lon_m lon_M lat_m lat_M rpc = Raise ValueError.
Proof.
  intros ds p0 p1 Hnan.
  assert (Hwin : dem_window ds lon_m lon_M lat_m lat_M = Raise ValueError).
  { unfold dem_window. fold p0 p1.
    cbn [np_min np_max fold_left mbind result_bind].
    rewrite (py_int_nan (@minimum f64_num p0.1 p1.1)); [reflexivity |].
    by apply minimum_nan. }
  split; [exact Hwin |].
  unfold min_max_heights_from_bbx. fold ds. by rewrite Hwin.
Qed.

(** A run of X9's theorem: a raster whose transform gives NaN
    columns. *)
Lemma dem_window_nan_raises_witness :
  dem_window (rasterio_open env_dem_nan (VStr "dem.tif"))
    0%float 1%float 0%float 1%float = Raise ValueError ∧
  min_max_heights_from_bbx env_dem_nan (cfg_with_dem "dem.tif") (VStr "dem.tif")
    0%float 1%float 0%float 1%float flat_model = Raise ValueError.
Proof.
  apply (dem_window_nan_raises env_dem_nan (cfg_with_dem "dem.tif") (VStr "dem.tif")
           0%float 1%float 0%float 1%float flat_model).
  left. reflexivity.
Defined.

Lemma fold_left_select {A} (f : A → A → A) (l : list A) (x : A) :
  (∀ a b, f a b = a ∨ f a b = b) → fold_left f l x ∈ x :: l.
Proof.
  intros Hf. revert x. induction l as [|b l IH]; intros x; cbn [fold_left].
  - by left.
  - specialize (IH (f x b)). apply elem_of_cons in IH as [-> | IH].
    + destruct (Hf x b) as [-> | ->]; [by left | right; by left].
    + right. by right.
Qed.

Lemma minimum_select {N : Num} (a b : num) : minimum a b = a ∨ minimum a b = b.
Proof. unfold minimum. destruct (_ || _); auto. Qed.

Lemma maximum_select {N : Num} (a b : num) : maximum a b = a ∨ maximum a b = b.
Proof. unfold maximum. destruct (_ || _); auto. Qed.

(** The cells that survive the nodata mask and [np.nanmin]'s filter. *)
Lemma valid_cells (arr : list float) (v : float) :
  v ∈ filter (fun v : float => negb (PrimFloat.is_nan v))
        (map (fun v : float =>
                if PrimFloat.eqb v (f64_of_Z (-32768)) then PrimFloat.nan else v) arr) →
  v ∈ arr ∧ PrimFloat.eqb v (f64_of_Z (-32768)) = false ∧ PrimFloat.is_nan v = false.
Proof.
  rewrite list_elem_of_filter. intros [Hnn Hv].
  apply list_elem_of_In, in_map_iff in Hv as (u & Hu & Hin).
  apply list_elem_of_In in Hin.
  destruct (PrimFloat.eqb u (f64_of_Z (-32768))) eqn:He.
  - subst v. done.
  - subst v. split; [done |]. split; [done |].
    by destruct (PrimFloat.is_nan u).
Qed.

Lemma np_nanmin_max_in (u : list float) (c : float) :
  c ∈ filter (fun v : float => negb (PrimFloat.is_nan v)) u →
  ∃ lo hi,
    @np_nanmin f64_num f64_nan u = Ok lo ∧ @np_nanmax f64_num f64_nan u = Ok hi ∧
    lo ∈ filter (fun v : float => negb (PrimFloat.is_nan v)) u ∧
    hi ∈ filter (fun v : float => negb (PrimFloat.is_nan v)) u.
Proof.
  intros Hc. unfold np_nanmin, np_nanmax.
  change (filter (fun v : @num f64_num => negb (@fisnan f64_num v)) u)
    with (filter (fun v : float => negb (PrimFloat.is_nan v)) u).
  destruct u as [|u0 u']; [by apply elem_of_nil in Hc |].
  destruct (filter (fun v : float => negb (PrimFloat.is_nan v)) (u0 :: u'))
    as [|x r]; [by apply elem_of_nil in Hc |].
  eexists _, _. split; [reflexivity |]. split; [reflexivity |].
  split; apply fold_left_select; [apply minimum_select | apply maximum_select].
Qed.

Lemma np_nanmin_max_valid (arr : list float) (c : float) :
  c ∈ arr → PrimFloat.eqb c (f64_of_Z (-32768)) = false → PrimFloat.is_nan c = false →
  ∃ lo hi,
    @np_nanmin f64_num f64_nan
      (map (fun v : @num f64_num =>
              if @feqb f64_num v (@of_Z f64_num (-32768)) then @fnan f64_num f64_nan else v)
         arr) = Ok lo ∧
    @np_nanmax f64_num f64_nan
      (map (fun v : @num f64_num =>
              if @feqb f64_num v (@of_Z f64_num (-32768)) then @fnan f64_num f64_nan else v)
         arr) = Ok hi ∧
    (lo ∈ arr ∧ PrimFloat.eqb lo (f64_of_Z (-32768)) = false ∧ PrimFloat.is_nan lo = false) ∧
    (hi ∈ arr ∧ PrimFloat.eqb hi (f64_of_Z (-32768)) = false ∧ PrimFloat.is_nan hi = false).
Proof.
  intros Hc He Hn.
  destruct (np_nanmin_max_in
              (map (fun v : float =>
                      if PrimFloat.eqb v (f64_of_Z (-32768)) then PrimFloat.nan else v) arr) c)
    as (lo & hi & Hlo & Hhi & Hlov & Hhiv).
  { apply list_elem_of_filter. split; [by rewrite Hn |].
    apply list_elem_of_In, in_map_iff. exists c.
    split; [by rewrite He | by apply list_elem_of_In]. }
  exists lo, hi. split; [exact Hlo |]. split; [exact Hhi |].
  split; by apply valid_cells.
Qed.

(** X10.  In binary64, when the window is not empty and the raster holds
    at least one cell in it that is neither the nodata value -32768 nor
    NaN, [min_max_heights_from_bbx] returns, before the geoid correction,
    two values that are cells of the window and are neither nodata nor
    NaN: a nodata cell never enters the range.  With the geoid mode on,
    the same geoid height is added to both. *)
Theorem min_max_heights_from_valid_cells (env : Env f64_num)
    (cfg : gmap string (cfg_val float)) (im : cfg_val float)
    (lon_m lon_M lat_m lat_M : float) (rpc : CameraModel f64_num)
    (x0 y0 w h : Z) (mode : cfg_val float) (c : float) :
  let arr := ds_read (rasterio_open env im) (y0, y0 + h)%Z (x0, x0 + w)%Z in
  let geoid := geoid_above_ellipsoid env
                 ((lat_m + lat_M) / f64_of_Z 2)%float ((lon_m + lon_M) / f64_of_Z 2)%float in
  dem_window (rasterio_open env im) lon_m lon_M lat_m lat_M = Ok (x0, y0, w, h) →
  w ≠ 0%Z → h ≠ 0%Z →
  c ∈ arr → PrimFloat.eqb c (f64_of_Z (-32768)) = false → PrimFloat.is_nan c = false →
  cfg !! "exogenous_dem_geoid_mode" = Some mode →
  ∃ lo hi : float,
    (lo ∈ arr ∧ PrimFloat.eqb lo (f64_of_Z (-32768)) = false ∧ PrimFloat.is_nan lo = false) ∧
    (hi ∈ arr ∧ PrimFloat.eqb hi (f64_of_Z (-32768)) = false ∧ PrimFloat.is_nan hi = false) ∧
    min_max_heights_from_bbx env cfg im lon_m lon_M lat_m lat_M rpc
    = Ok (match mode with
          | VBool true => ((lo + geoid)%float, (hi + geoid)%float)
          | _ => (lo, hi)
          end).
Proof.
  intros arr geoid Hwin Hw Hh Hc He Hn Hmode.
  destruct (np_nanmin_max_valid arr c Hc He Hn) as (lo & hi & Hlo & Hhi & Hlov & Hhiv).
  exists lo, hi. split; [exact Hlov |]. split; [exact Hhiv |].
  unfold min_max_heights_from_bbx. rewrite Hwin. cbn [mbind result_bind].
  assert (Hcnd : negb (w =? 0)%Z && negb (h =? 0)%Z = true).
  { apply andb_true_intro. split; apply negb_true_iff, Z.eqb_neq; done. }
  rewrite Hcnd. fold arr. Fcarrier.
  rewrite Hlo. cbn [mbind result_bind]. rewrite Hhi. cbn [mbind result_bind].
  unfold cfg_get. Fcarrier. rewrite Hmode. cbn [mbind result_bind].
  by destruct mode as [|[]| | |].
Qed.

(** A run of X10's theorem: the 10 x 10 raster, whose window reads 10, 20
    and one nodata cell. *)
Lemma min_max_heights_from_valid_cells_witness :
  ∃ lo hi : float,
    (lo ∈ [10%float; 20%float; (-32768)%float] ∧
     PrimFloat.eqb lo (f64_of_Z (-32768)) = false ∧ PrimFloat.is_nan lo = false) ∧
    (hi ∈ [10%float; 20%float; (-32768)%float] ∧
     PrimFloat.eqb hi (f64_of_Z (-32768)) = false ∧ PrimFloat.is_nan hi = false) ∧
    min_max_heights_from_bbx env0 (cfg_with_dem "dem.tif") (VStr "dem.tif")
      0%float 1%float 0%float 1%float flat_model
    = Ok (lo, hi).
Proof.
  apply (min_max_heights_from_valid_cells env0 (cfg_with_dem "dem.tif")
           (VStr "dem.tif") 0%float 1%float 0%float 1%float flat_model
           0 0 3 3 (VBool false) 10%float);
    [vm_compute; reflexivity | lia | lia | by left
    | reflexivity | reflexivity | vm_compute; reflexivity].
Defined.

Lemma np_nanmin_max_all_nan (u : list float) :
  u ≠ [] → Forall (fun v => PrimFloat.is_nan v = true) u →
  @np_nanmin f64_num f64_nan u = Ok PrimFloat.nan ∧
  @np_nanmax f64_num f64_nan u = Ok PrimFloat.nan.
Proof.
  intros Hne Hall.
  assert (Hf : filter (fun v : @num f64_num => negb (@fisnan f64_num v)) u = []).
  { clear Hne. induction Hall as [|v u Hv _ IH]; [done |].
    rewrite filter_cons, decide_False; [exact IH |].
    simpl. rewrite Hv. simpl. auto. }
  unfold np_nanmin, np_nanmax. destruct u as [|a u]; [done |].
  Fcarrier. by rewrite Hf.
Qed.

Lemma nodata_mask_all_nan (u : list float) :
  Forall (fun v => PrimFloat.eqb v (f64_of_Z (-32768)) = true) u →
  Forall (fun v => PrimFloat.is_nan v = true)
    (map (fun v : @num f64_num =>
            if @feqb f64_num v (@of_Z f64_num (-32768)) then @fnan f64_num f64_nan else v) u).
Proof.
  induction 1 as [|v u Hv _ IH]; simpl; constructor; [|exact IH].
  by rewrite Hv.
Qed.

(** X11.  In binary64, when the window is not empty and every cell read
    is the nodata value -32768, [min_max_heights_from_bbx] does not fall
    back to the coarse range: it returns NaN for both bounds, with or
    without the geoid correction. *)
Theorem min_max_heights_all_nodata (env : Env f64_num)
    (cfg : gmap string (cfg_val float)) (im : cfg_val float)
    (lon_m lon_M lat_m lat_M : float) (rpc : CameraModel f64_num)
    (x0 y0 w h : Z) (mode : cfg_val float) :
  dem_window (rasterio_open env im) lon_m lon_M lat_m lat_M = Ok (x0, y0, w, h) →
  w ≠ 0%Z → h ≠ 0%Z →
  ds_read (rasterio_open env im) (y0, y0 + h)%Z (x0, x0 + w)%Z ≠ [] →
  Forall (fun v => PrimFloat.eqb v (f64_of_Z (-32768)) = true)
    (ds_read (rasterio_open env im) (y0, y0 + h)%Z (x0, x0 + w)%Z) →
  cfg !! "exogenous_dem_geoid_mode" = Some mode →
  ∃ hmin hmax,
    min_max_heights_from_bbx env cfg im lon_m lon_M lat_m lat_M rpc = Ok (hmin, hmax) ∧
    PrimFloat.is_nan hmin = true ∧ PrimFloat.is_nan hmax = true.
Proof.
  intros Hwin Hw Hh Hne Hall Hmode.
  unfold min_max_heights_from_bbx. rewrite Hwin. cbn [mbind result_bind].
  assert (Hc : negb (w =? 0)%Z && negb (h =? 0)%Z = true).
  { apply andb_true_intro. split; apply negb_true_iff, Z.eqb_neq; done. }
  rewrite Hc.
  destruct (np_nanmin_max_all_nan _
              ltac:(intros E; apply map_eq_nil in E; exact (Hne E))
              (nodata_mask_all_nan _ Hall)) as [Hmin Hmax].
  Fcarrier.
  rewrite Hmin. cbn [mbind result_bind]. rewrite Hmax. cbn [mbind result_bind].
  unfold cfg_get. Fcarrier. rewrite Hmode. cbn [mbind result_bind].
  destruct mode as [|[]| | |]; eexists _, _; (split; [reflexivity |]); split;
    try reflexivity; by apply nan_add_l.
Qed.

(** A run of X11's theorem: a 4 x 4 raster of nodata cells. *)
Lemma min_max_heights_all_nodata_witness :
  ∃ hmin hmax,
    min_max_heights_from_bbx env_void (cfg_with_dem "void.tif") (VStr "void.tif")
      0%float 1%float 0%float 1%float flat_model = Ok (hmin, hmax) ∧
    PrimFloat.is_nan hmin = true ∧ PrimFloat.is_nan hmax = true.
Proof.
  apply (min_max_heights_all_nodata env_void (cfg_with_dem "void.tif")
           (VStr "void.tif") 0%float 1%float 0%float 1%float flat_model
           0 0 3 3 (VBool false));
    [vm_compute; reflexivity | lia | lia | discriminate
    | repeat constructor | vm_compute; reflexivity].
Defined.

(** The same raster through [altitude_range]: the margins are added to
    NaN. *)
Example altitude_range_void_run :
  altitude_range env_void (cfg_with_dem "void.tif") flat_model 0 0 1 1
    100%float (-100)%float
  = Ok (PrimFloat.nan, PrimFloat.nan).
Proof. vm_compute. reflexivity. Qed.

(** ** Missing configuration keys *)

(** X12.  [altitude_range] reads the configuration after the geodesic
    bounding box is computed: if the key "exogenous_dem" is absent it
    raises KeyError for that key; if the source is None and the key
    "rpc_alt_range_scale_factor" is absent it raises KeyError for that
    one.  This holds for every carrier. *)
Theorem altitude_range_missing_key {N : Num} {NN : NumNaN N} (env : Env N)
    (cfg : gmap string (cfg_val num)) (rpc : CameraModel N) (x y w h : Z)
    (margin_top margin_bottom : num) :
  (cfg !! "exogenous_dem" = None →
   altitude_range env cfg rpc x y w h margin_top margin_bottom
     = Raise (KeyError "exogenous_dem")) ∧
  (cfg !! "exogenous_dem" = Some VNone →
   cfg !! "rpc_alt_range_scale_factor" = None →
   altitude_range env cfg rpc x y w h margin_top margin_bottom
     = Raise (KeyError "rpc_alt_range_scale_factor")).
Proof.
  destruct (geodesic_bounding_box_returns rpc x y w h)
    as ([[[lon_m lon_M] lat_m] lat_M] & Hbbx).
  split.
  - intros Hdem. unfold altitude_range. rewrite Hbbx. cbn [mbind result_bind].
    unfold cfg_get. by rewrite Hdem.
  - intros Hdem Hk. unfold altitude_range. rewrite Hbbx. cbn [mbind result_bind].
    unfold cfg_get. rewrite Hdem. cbn [mbind result_bind]. by rewrite Hk.
Qed.

(** Runs of X12's theorem (binary64): the empty configuration, and one
    with only the source set to None. *)
Lemma altitude_range_missing_key_witness :
  altitude_range env0 ∅ flat_model 0 0 1 1 100%float (-100)%float
    = Raise (KeyError "exogenous_dem") ∧
  altitude_range env0 (<["exogenous_dem" := VNone]> ∅) flat_model 0 0 1 1
      100%float (-100)%float
    = Raise (KeyError "rpc_alt_range_scale_factor").
Proof.
  split.
  - apply (proj1 (@altitude_range_missing_key f64_num f64_nan env0 ∅ flat_model
                    0%Z 0%Z 1%Z 1%Z 100%float (-100)%float)).
    reflexivity.
  - apply (proj2 (@altitude_range_missing_key f64_num f64_nan env0
                    (<["exogenous_dem" := VNone]> ∅) flat_model
                    0%Z 0%Z 1%Z 1%Z 100%float (-100)%float));
      vm_compute; reflexivity.
Defined.

(** ** GeoJSON input *)

Section GeoJsonFacts.
Context {N : Num}.
Variables (env : Env N) (genv : GeoEnv N) (rpc : CameraModel N).
Variables (utm_zone : option string) (cfg : gmap string (cfg_val num)).

Lemma geojson_ring_feature (o : gmap string (json num)) (g : json num) :
  o !! "type" = Some (JStr "Feature") → o !! "geometry" = Some g →
  geojson_ring genv (JObj o)
  = (c ← json_getitem g "coordinates"; r ← json_first c; np_array genv r).
Proof.
  intros Ht Hg. unfold geojson_ring. cbn [mbind result_bind json_getitem].
  rewrite Ht. cbn [mbind result_bind json_eq_str]. simpl String.eqb.
  cbn [mbind result_bind json_getitem]. rewrite Ht.
  cbn [mbind result_bind json_eq_str]. simpl String.eqb.
  cbn [json_getitem]. rewrite Hg. reflexivity.
Qed.

Lemma geojson_ring_not_collection (a : json num) :
  (∀ s, a ≠ JStr s) →
  (∀ t, json_getitem a "type" = Ok t → json_eq_str t "FeatureCollection" = false) →
  geojson_ring genv a
  = (t ← json_getitem a "type";
     a ← (if json_eq_str t "Feature" then json_getitem a "geometry" else Ok a);
     c ← json_getitem a "coordinates";
     r ← json_first c;
     np_array genv r).
Proof.
  intros Hs Hfc. unfold geojson_ring.
  assert (Hload : match a with
                  | JStr path => json_load genv path
                  | _ => Ok a
                  end = Ok a) by (destruct a; try done; by destruct (Hs s)).
  rewrite Hload. cbn [mbind result_bind].
  destruct (json_getitem a "type") as [t|e] eqn:Ht; [|reflexivity].
  cbn [mbind result_bind]. rewrite (Hfc t eq_refl). cbn [mbind result_bind].
  rewrite Ht. reflexivity.
Qed.

Lemma geojson_ring_collection (o : gmap string (json num)) (f : json num)
    (rest : list (json num)) :
  o !! "type" = Some (JStr "FeatureCollection") →
  o !! "features" = Some (JArr (f :: rest)) →
  geojson_ring genv (JObj o)
  = (t ← json_getitem f "type";
     a ← (if json_eq_str t "Feature" then json_getitem f "geometry" else Ok f);
     c ← json_getitem a "coordinates";
     r ← json_first c;
     np_array genv r).
Proof.
  intros Ht Hfs. unfold geojson_ring.
  cbn [mbind result_bind json_getitem].
  rewrite Ht. cbn [mbind result_bind json_eq_str]. simpl String.eqb.
  cbn [mbind result_bind json_getitem]. rewrite Hfs. reflexivity.
Qed.
End GeoJsonFacts.

(** X13.  [geojson_roi_process] on a dict: (1) a Feature gives the same
    result, configuration included, as its geometry passed alone, when
    the geometry is a dict with a "type" other than "Feature" and
    "FeatureCollection"; (2) a FeatureCollection gives the same result as
    its first feature passed alone, whatever the other features, when
    that feature is not a string and is not itself a FeatureCollection;
    (3) a FeatureCollection with no feature raises IndexError and (4) a
    dict without the key "type" raises KeyError, both leaving the
    configuration as it was. *)
Theorem geojson_roi_process_wrappers {N : Num} (env : Env N) (genv : GeoEnv N)
    (rpc : CameraModel N) (utm_zone : option string)
    (cfg : gmap string (cfg_val num)) :
  (∀ (o : gmap string (json num)) (g t : json num),
     o !! "type" = Some (JStr "Feature") → o !! "geometry" = Some g →
     (∀ s, g ≠ JStr s) → json_getitem g "type" = Ok t →
     json_eq_str t "FeatureCollection" = false → json_eq_str t "Feature" = false →
     geojson_roi_process env genv rpc (JObj o) utm_zone cfg
     = geojson_roi_process env genv rpc g utm_zone cfg) ∧
  (∀ (o : gmap string (json num)) (f : json num) (rest : list (json num)),
     o !! "type" = Some (JStr "FeatureCollection") →
     o !! "features" = Some (JArr (f :: rest)) →
     (∀ s, f ≠ JStr s) →
     (∀ t, json_getitem f "type" = Ok t → json_eq_str t "FeatureCollection" = false) →
     geojson_roi_process env genv rpc (JObj o) utm_zone cfg
     = geojson_roi_process env genv rpc f utm_zone cfg) ∧
  (∀ o : gmap string (json num),
     o !! "type" = Some (JStr "FeatureCollection") →
     o !! "features" = Some (JArr []) →
     geojson_roi_process env genv rpc (JObj o) utm_zone cfg = (cfg, Raise IndexError)) ∧
  (∀ o : gmap string (json num),
     o !! "type" = None →
     geojson_roi_process env genv rpc (JObj o) utm_zone cfg
     = (cfg, Raise (KeyError "type"))).
Proof.
  split; [|split; [|split]].
  - intros o g t Ht Hg Hs Hgt Hfc Hf. unfold geojson_roi_process.
    rewrite (geojson_ring_feature genv o g Ht Hg).
    rewrite (geojson_ring_not_collection genv g Hs).
    + rewrite Hgt. cbn [mbind result_bind]. by rewrite Hf.
    + intros t' Ht'. congruence.
  - intros o f rest Ht Hfs Hs Hfc. unfold geojson_roi_process.
    rewrite (geojson_ring_collection genv o f rest Ht Hfs).
    by rewrite (geojson_ring_not_collection genv f Hs Hfc).
  - intros o Ht Hfs. unfold geojson_roi_process, geojson_ring.
    cbn [mbind result_bind json_getitem].
    rewrite Ht. cbn [mbind result_bind json_eq_str]. simpl String.eqb.
    cbn [mbind result_bind json_getitem]. by rewrite Hfs.
  - intros o Ht. unfold geojson_roi_process, geojson_ring.
    cbn [mbind result_bind json_getitem]. by rewrite Ht.
Qed.

(** Runs of X13's theorem (binary64): a triangle as a Polygon, a Feature
    and a FeatureCollection. *)
Lemma geojson_roi_process_wrappers_witness :
  geojson_roi_process env0 genv0 flat_model (JObj triangle_feature) (Some "31N") ∅
    = geojson_roi_process env0 genv0 flat_model (JObj triangle_polygon) (Some "31N") ∅ ∧
  geojson_roi_process env0 genv0 flat_model (JObj triangle_collection) (Some "31N") ∅
    = geojson_roi_process env0 genv0 flat_model (JObj triangle_feature) (Some "31N") ∅ ∧
  geojson_roi_process env0 genv0 flat_model
      (JObj (<["features" := JArr []]> triangle_collection)) (Some "31N") ∅
    = (∅, Raise IndexError) ∧
  geojson_roi_process env0 genv0 flat_model (JObj ∅) (Some "31N") ∅
    = (∅, Raise (KeyError "type")).
Proof.
  destruct (geojson_roi_process_wrappers env0 genv0 flat_model (Some "31N") ∅)
    as (Hfeat & Hcoll & Hempty & Hnotype).
  split; [|split; [|split]].
  - apply (Hfeat triangle_feature (JObj triangle_polygon) (JStr "Polygon"));
      [vm_compute; reflexivity | vm_compute; reflexivity | discriminate
      | vm_compute; reflexivity | reflexivity | reflexivity].
  - apply (Hcoll triangle_collection (JObj triangle_feature) [JNull]);
      [vm_compute; reflexivity | vm_compute; reflexivity | discriminate |].
    intros t Ht. vm_compute in Ht. injection Ht as <-. reflexivity.
  - apply Hempty; vm_compute; reflexivity.
  - apply Hnotype. reflexivity.
Defined.

(** The FeatureCollection evaluated: the bounding box of the triangle. *)
Example geojson_roi_process_run :
  (geojson_roi_process env0 genv0 flat_model (JObj triangle_collection)
     (Some "31N") ∅).1 !! "utm_bbx"
  = Some (VBbx (0%float, 2%float, 0%float, 3%float)).
Proof. vm_compute. reflexivity. Qed.

(** ** The configuration written by [roi_process], continued *)





(** Python's [min] and [max] in exact arithmetic. *)
Lemma fold_py_min_le (l : list R) (x : R) :
  (fold_left (fun m v : R => if @fltb R_num v m then v else m) l x <= x)%R ∧
  Forall (fun d => (fold_left (fun m v : R => if @fltb R_num v m then v else m) l x <= d)%R) l.
Proof.
  revert x. induction l as [|a l IH]; intros x; cbn [fold_left].
  - split; [lra | constructor].
  - assert (Hm : ((if @fltb R_num a x then a else x) <= x
                  ∧ (if @fltb R_num a x then a else x) <= a)%R).
    { simpl. unfold R_ltb. destruct (Rlt_dec a x); lra. }
    destruct Hm as [Hm1 Hm2].
    generalize dependent (if @fltb R_num a x then a else x). intros t Hm1 Hm2.
    destruct (IH t) as [Hx Hl].
    split; [exact (Rle_trans _ _ _ Hx Hm1) |].
    constructor; [exact (Rle_trans _ _ _ Hx Hm2) | exact Hl].
Qed.

Lemma fold_py_max_ge (l : list R) (x : R) :
  (x <= fold_left (fun m v : R => if @fltb R_num m v then v else m) l x)%R ∧
  Forall (fun d => (d <= fold_left (fun m v : R => if @fltb R_num m v then v else m) l x)%R) l.
Proof.
  revert x. induction l as [|a l IH]; intros x; cbn [fold_left].
  - split; [lra | constructor].
  - assert (Hm : (x <= (if @fltb R_num x a then a else x)
                  ∧ a <= (if @fltb R_num x a then a else x))%R).
    { simpl. unfold R_ltb. destruct (Rlt_dec x a); lra. }
    destruct Hm as [Hm1 Hm2].
    generalize dependent (if @fltb R_num x a then a else x). intros t Hm1 Hm2.
    destruct (IH t) as [Hx Hl].
    split; [exact (Rle_trans _ _ _ Hm1 Hx) |].
    constructor; [exact (Rle_trans _ _ _ Hm2 Hx) | exact Hl].
Qed.

Lemma py_min_max_bracket (d : list R) :
  d ≠ [] →
  ∃ lo hi, @py_min R_num d = Ok lo ∧ @py_max R_num d = Ok hi ∧
    (lo <= hi)%R ∧ Forall (fun v => (lo <= v <= hi)%R) d.
Proof.
  destruct d as [|x l]; [done |]. intros _.
  destruct (fold_py_min_le l x) as [Hlo Hlos].
  destruct (fold_py_max_ge l x) as [Hhi Hhis].
  eexists _, _. split; [reflexivity |]. split; [reflexivity |].
  split; [exact (Rle_trans _ _ _ Hlo Hhi) |].
  constructor; [exact (conj Hlo Hhi) |].
  rewrite Forall_forall in *. intros v Hv.
  exact (conj (Hlos v Hv) (Hhis v Hv)).
Qed.

(** X16.  In exact arithmetic, the "utm_bbx" that [roi_process] writes
    for a polygon with a vertex is ordered, [east_min <= east_max] and
    [nort_min <= nort_max], and contains the UTM coordinates of every
    vertex of the polygon. *)
Theorem roi_process_bbx_brackets (env : Env R_num) (rpc : CameraModel R_num)
    (ll_poly : list (R * R)) (utm_zone : option string)
    (cfg : gmap string (cfg_val R)) :
  ll_poly ≠ [] →
  ∃ east_min east_max nort_min nort_max : R,
    (roi_process env rpc ll_poly utm_zone cfg).1 !! "utm_bbx"
      = Some (VBbx (east_min, east_max, nort_min, nort_max)) ∧
    (east_min <= east_max)%R ∧ (nort_min <= nort_max)%R ∧
    ∀ p, p ∈ ll_poly →
      (east_min <= (to_utm env (settled_zone env ll_poly utm_zone) p.1 p.2).1
         <= east_max)%R ∧
      (nort_min <= (to_utm env (settled_zone env ll_poly utm_zone) p.1 p.2).2
         <= nort_max)%R.
Proof.
  intros Hne.
  destruct (roi_process_returns env rpc ll_poly utm_zone cfg Hne)
    as (e0 & e1 & n0 & n1 & H0 & H1 & H2 & H3 & Hrun).
  destruct (py_min_max_bracket (easting env ll_poly utm_zone))
    as (e0' & e1' & H0' & H1' & Hle & Heast).
  { unfold easting. by destruct ll_poly. }
  destruct (py_min_max_bracket (northing env ll_poly utm_zone))
    as (n0' & n1' & H2' & H3' & Hln & Hnort).
  { unfold northing. by destruct ll_poly. }
  assert (e0' = e0) as -> by congruence. assert (e1' = e1) as -> by congruence.
  assert (n0' = n0) as -> by congruence. assert (n1' = n1) as -> by congruence.
  exists e0, e1, n0, n1. split; [rewrite Hrun; by simplify_map_eq |].
  split; [exact Hle |]. split; [exact Hln |].
  intros p Hp. rewrite Forall_forall in Heast, Hnort. split.
  - apply Heast. unfold easting. apply list_elem_of_In.
    rewrite map_map.
    apply (in_map (fun q : R * R =>
             (to_utm env (settled_zone env ll_poly utm_zone) q.1 q.2).1) ll_poly p).
    by apply list_elem_of_In.
  - apply Hnort. unfold northing. apply list_elem_of_In.
    rewrite map_map.
    apply (in_map (fun q : R * R =>
             (to_utm env (settled_zone env ll_poly utm_zone) q.1 q.2).2) ll_poly p).
    by apply list_elem_of_In.
Qed.

(** A run of X16's theorem: a triangle. *)
Lemma roi_process_bbx_brackets_witness :
  ∃ east_min east_max nort_min nort_max : R,
    (roi_process env_R shift_model [(0, 0); (2, 1); (1, 3)]%R (Some "31N") ∅).1
      !! "utm_bbx" = Some (VBbx (east_min, east_max, nort_min, nort_max)) ∧
    (east_min <= east_max)%R ∧ (nort_min <= nort_max)%R ∧
    ∀ p, p ∈ [(0, 0); (2, 1); (1, 3)]%R →
      (east_min
         <= (to_utm env_R (settled_zone env_R [(0, 0); (2, 1); (1, 3)]%R (Some "31N"))
               p.1 p.2).1 <= east_max)%R ∧
      (nort_min
         <= (to_utm env_R (settled_zone env_R [(0, 0); (2, 1); (1, 3)]%R (Some "31N"))
               p.1 p.2).2 <= nort_max)%R.
Proof.
  apply (roi_process_bbx_brackets env_R shift_model [(0, 0); (2, 1); (1, 3)]%R
           (Some "31N") ∅).
  discriminate.
Defined.





(** Two orders of the same two vertices, the one at longitude -1 having
    a NaN easting. *)
Example roi_process_bbx_nan_order_run :
  (roi_process env_utm_nan flat_model
     [(1%float, 0%float); ((-1)%float, 2%float)] (Some "31N") ∅).1 !! "utm_bbx"
    = Some (VBbx (1%float, 1%float, 0%float, 2%float)) ∧
  (roi_process env_utm_nan flat_model
     [((-1)%float, 2%float); (1%float, 0%float)] (Some "31N") ∅).1 !! "utm_bbx"
    = Some (VBbx (PrimFloat.nan, PrimFloat.nan, 0%float, 2%float)).
Proof. split; vm_compute; reflexivity. Qed.

(** ** The point mesh, for every carrier *)

Lemma mesh_lengths {N : Num}
    (col_range row_range alt_range : num * num * nat) :
  let mesh := generate_point_mesh col_range row_range alt_range in
  let total := col_range.2 * row_range.2 * alt_range.2 in
  length mesh.1.1 = total ∧ length mesh.1.2 = total ∧ length mesh.2 = total ∧
  (total = 0 → mesh = ([], [], [])).
Proof.
  intros mesh total.
  assert (Hlen : ∀ f : num → num → num → num,
    length (flat_map (fun a => flat_map (fun r =>
              map (fun c => f c r a)
                (np_linspace col_range.1.1 col_range.1.2 col_range.2))
              (np_linspace row_range.1.1 row_range.1.2 row_range.2))
              (np_linspace alt_range.1.1 alt_range.1.2 alt_range.2)) = total).
  { intros f.
    rewrite (length_flat_map_const _ _ (col_range.2 * row_range.2)).
    - rewrite length_np_linspace. unfold total. lia.
    - intros a. rewrite (length_flat_map_const _ _ col_range.2).
      + rewrite length_np_linspace. lia.
      + intros r. by rewrite length_map, length_np_linspace. }
  assert (H1 : length mesh.1.1 = total) by apply Hlen.
  assert (H2 : length mesh.1.2 = total) by apply Hlen.
  assert (H3 : length mesh.2 = total) by apply Hlen.
  repeat (split; [done |]).
  intros Hz. rewrite Hz in H1, H2, H3.
  destruct mesh as [[c r] a]. simpl in *.
  apply nil_length_inv in H1, H2, H3. by subst.
Qed.

(** X18.  For every carrier, binary64 included, the three arrays that
    [generate_point_mesh] returns have length [nc * nr * na]; when one of
    the three counts is 0 they are empty. *)
Theorem generate_point_mesh_lengths {N : Num}
    (col_range row_range alt_range : num * num * nat) :
  let mesh := generate_point_mesh col_range row_range alt_range in
  let total := col_range.2 * row_range.2 * alt_range.2 in
  length mesh.1.1 = total ∧ length mesh.1.2 = total ∧ length mesh.2 = total ∧
  (total = 0 → mesh = ([], [], [])).
Proof. exact (mesh_lengths col_range row_range alt_range). Qed.

(** A run of X18's theorem (binary64): no row sample. *)
Lemma generate_point_mesh_lengths_witness :
  @generate_point_mesh f64_num
    (0%float, 1%float, 2) (5%float, 7%float, 0) (10%float, 20%float, 1)
  = ([], [], []).
Proof.
  apply (@generate_point_mesh_lengths f64_num
           (0%float, 1%float, 2) (5%float, 7%float, 0) (10%float, 20%float, 1)).
  reflexivity.
Defined.

(** ** Ground control points *)

Lemma length_localization_v {N : Num} (rpc : CameraModel N) (x y z : list num) :
  length (localization_v rpc x y z).1 = (length x `min` length y) `min` length z ∧
  length (localization_v rpc x y z).2 = (length x `min` length y) `min` length z.
Proof. unfold localization_v. simpl. by rewrite !length_zip_with3. Qed.

Lemma length_projection_v {N : Num} (rpc : CameraModel N) (x y z : list num) :
  length (projection_v rpc x y z).1 = (length x `min` length y) `min` length z ∧
  length (projection_v rpc x y z).2 = (length x `min` length y) `min` length z.
Proof. unfold projection_v. simpl. by rewrite !length_zip_with3. Qed.

Lemma ground_control_points_returns {N : Num} (rpc : CameraModel N)
    (x y w h : Z) (m M : num) (n : nat) :
  n ≠ 0 →
  ∃ lon lat alt,
    ground_control_points rpc x y w h m M n = Returns (lon, lat, alt) ∧
    alt = (generate_point_mesh (gcp_range x w n) (gcp_range y h n) (m, M, n)).2 ∧
    length lon = n * n * n ∧ length lat = n * n * n ∧ length alt = n * n * n.
Proof.
  intros Hn.
  destruct (mesh_lengths (gcp_range x w n) (gcp_range y h n) (m, M, n))
    as (Hc & Hr & Ha & _).
  cbn [snd gcp_range] in Hc, Hr, Ha.
  unfold ground_control_points. destruct n as [|n']; [done |].
  destruct (generate_point_mesh _ _ _) as [[col row] alt] eqn:Hmesh.
  cbn [fst snd] in Hc, Hr, Ha.
  destruct (length_localization_v rpc col row alt) as [Hlon Hlat].
  destruct (localization_v rpc col row alt) as [lon lat].
  cbn [fst snd] in Hlon, Hlat.
  exists lon, lat, alt. split; [reflexivity |]. split; [reflexivity |]. lia.
Qed.

(** X19.  [ground_control_points] with [n = 0] raises ZeroDivisionError
    (the float division [1.0 / (2 * n)]); with [n >= 1] it returns three
    arrays of [n^3] entries, the altitudes being those of the mesh.  This
    holds for every carrier. *)
Theorem ground_control_points_count {N : Num} (rpc : CameraModel N)
    (x y w h : Z) (m M : num) (n : nat) :
  (n = 0 → ground_control_points rpc x y w h m M n = Raises ZeroDivisionError) ∧
  (n ≠ 0 →
   ∃ lon lat alt,
     ground_control_points rpc x y w h m M n = Returns (lon, lat, alt) ∧
     alt = (generate_point_mesh (gcp_range x w n) (gcp_range y h n) (m, M, n)).2 ∧
     length lon = n * n * n ∧ length lat = n * n * n ∧ length alt = n * n * n).
Proof.
  split; [by intros -> |]. apply ground_control_points_returns.
Qed.

(** Runs of X19's theorem (binary64): [n = 0] and [n = 2]. *)
Lemma ground_control_points_count_witness :
  ground_control_points flat_model 0 0 4 4 0%float 1%float 0 = Raises ZeroDivisionError ∧
  ∃ lon lat alt,
    ground_control_points flat_model 0 0 4 4 0%float 1%float 2 = Returns (lon, lat, alt) ∧
    alt = (@generate_point_mesh f64_num (gcp_range 0 4 2) (gcp_range 0 4 2)
             (0%float, 1%float, 2)).2 ∧
    length lon = 2 * 2 * 2 ∧ length lat = 2 * 2 * 2 ∧ length alt = 2 * 2 * 2.
Proof.
  split.
  - apply (proj1 (ground_control_points_count flat_model 0 0 4 4 0%float 1%float 0)).
    reflexivity.
  - apply (proj2 (ground_control_points_count flat_model 0 0 4 4 0%float 1%float 2)).
    lia.
Defined.

(** The second run evaluated: the columns and rows 1 and 3 of the ROI
    (0, 0, 4, 4), not its borders. *)
Example ground_control_points_run :
  ground_control_points flat_model 0 0 4 4 0%float 1%float 2
  = Returns ([1; 3; 1; 3; 1; 3; 1; 3]%float, [1; 1; 3; 3; 1; 1; 3; 3]%float,
             [0; 0; 0; 0; 1; 1; 1; 1]%float).
Proof. vm_compute. reflexivity. Qed.

(** ** Ground control points and matches (exact arithmetic) *)

Lemma elem_of_grid {A B C D} (f : A → B → C → D) cols rows alts (v : D) :
  v ∈ grid f cols rows alts →
  ∃ c r a, c ∈ cols ∧ r ∈ rows ∧ a ∈ alts ∧ v = f c r a.
Proof.
  unfold grid. rewrite list_elem_of_In, in_flat_map.
  intros (a & Ha & Hv). apply in_flat_map in Hv as (r & Hr & Hv).
  apply in_map_iff in Hv as (c & <- & Hc).
  exists c, r, a. rewrite !list_elem_of_In. done.
Qed.

(** A sample of [np.linspace] is a convex combination of the endpoints. *)
Lemma np_linspace_convex (lo hi : R) (n : nat) (v : R) :
  v ∈ @np_linspace R_num lo hi n →
  ∃ s : R, (0 <= s <= 1)%R ∧ v = (lo + s * (hi - lo))%R.
Proof.
  intros Hv. destruct n as [|[|d]].
  - by apply elem_of_nil in Hv.
  - rewrite np_linspace_one in Hv. apply list_elem_of_singleton in Hv as ->.
    exists 0%R. split; lra.
  - apply list_elem_of_lookup in Hv as (i & Hi).
    assert (Hlt : i < S (S d)).
    { rewrite <- (@length_np_linspace R_num lo hi (S (S d))). by eapply lookup_lt_Some. }
    rewrite np_linspace_lookup in Hi by lia.
    replace (S (S d) - 1) with (S d) in Hi by lia.
    apply (inj Some) in Hi. rewrite <- Hi. clear Hi.
    assert (Hk : (0 < INR (S d))%R) by (apply lt_0_INR; lia).
    assert (Hi0 : (0 <= INR i)%R) by apply pos_INR.
    assert (Hi1 : (INR i <= INR (S d))%R) by (apply le_INR; lia).
    exists (INR i / INR (S d))%R. split.
    + split.
      * apply Rmult_le_pos; [lra |]. left. by apply Rinv_0_lt_compat.
      * apply (Rmult_le_reg_r (INR (S d))); [lra |].
        unfold Rdiv. rewrite Rmult_assoc, Rinv_l by lra. lra.
    + field. lra.
Qed.

Lemma gcp_range_inside (x w : Z) (n : nat) (v : R) :
  n ≠ 0 → (0 ≤ w)%Z →
  v ∈ @np_linspace R_num (@gcp_range R_num x w n).1.1 (@gcp_range R_num x w n).1.2 n →
  (IZR x <= v <= IZR (x + w))%R.
Proof.
  intros Hn Hw Hv. apply np_linspace_convex in Hv as (s & Hs & ->).
  unfold gcp_range. cbn [fst snd]. Rcarrier. Rops.
  rewrite mult_IZR, <- INR_IZR_INZ, plus_IZR.
  assert (Hk : (1 <= INR n)%R).
  { change 1%R with (INR 1). apply le_INR. lia. }
  assert (Hw' : (0 <= IZR w)%R) by (apply IZR_le; lia).
  set (k := (2 * INR n)%R). assert (Hk2 : (2 <= k)%R) by (unfold k; lra).
  set (W := IZR w) in *. set (X := IZR x).
  assert (Ha : (0 < 1 / k <= 1 / 2)%R).
  { split.
    - apply Rdiv_lt_0_compat; lra.
    - apply (Rmult_le_reg_r k); [lra |]. unfold Rdiv.
      rewrite Rmult_assoc, Rinv_l by lra. lra. }
  assert (Hb : ((k - 1) / k = 1 - 1 / k)%R) by (field; lra).
  rewrite Hb.
  set (a := (1 / k)%R) in *.
  replace (X + a * W + s * (X + (1 - a) * W - (X + a * W)))%R
    with (X + (a + s * (1 - 2 * a)) * W)%R by ring.
  assert (Hc0 : (0 <= a + s * (1 - 2 * a))%R) by nra.
  assert (Hc1 : (a + s * (1 - 2 * a) <= 1)%R) by nra.
  split; nra.
Qed.

Lemma np_linspace_between (lo hi : R) (n : nat) (v : R) :
  v ∈ @np_linspace R_num lo hi n → (Rmin lo hi <= v <= Rmax lo hi)%R.
Proof.
  intros Hv. apply np_linspace_convex in Hv as (s & Hs & ->).
  unfold Rmin, Rmax. destruct (Rle_dec lo hi); split; nra.
Qed.

Section GcpFacts.
Variables (rpc : CameraModel R_num) (x y w h : Z) (m M : R) (n : nat).

Local Abbreviation cols :=
  (@np_linspace R_num (@gcp_range R_num x w n).1.1 (@gcp_range R_num x w n).1.2 n).
Local Abbreviation rows :=
  (@np_linspace R_num (@gcp_range R_num y h n).1.1 (@gcp_range R_num y h n).1.2 n).
Local Abbreviation alts := (@np_linspace R_num m M n).

Lemma ground_control_points_R :
  n ≠ 0 →
  ground_control_points rpc x y w h m M n
  = Returns (grid (fun c r a => (localization rpc c r a).1) cols rows alts,
             grid (fun c r a => (localization rpc c r a).2) cols rows alts,
             grid (fun c r a => a) cols rows alts).
Proof.
  intros Hn. unfold ground_control_points. destruct n as [|n']; [done |].
  rewrite generate_point_mesh_R. cbn [fst snd gcp_range].
  unfold localization_v, zip_with3. rewrite !zip_with_grid. reflexivity.
Qed.
End GcpFacts.

(** X20.  In exact arithmetic, for [n >= 1] and a ROI of non-negative
    width and height, every ground control point is the localization of a
    pixel [(c, r)] inside the ROI, [x <= c <= x + w] and
    [y <= r <= y + h], at an altitude between [m] and [M]. *)
Theorem ground_control_points_inside_roi (rpc : CameraModel R_num)
    (x y w h : Z) (m M : R) (n : nat) :
  n ≠ 0 → (0 ≤ w)%Z → (0 ≤ h)%Z →
  ∃ lon lat alt : list R,
    ground_control_points rpc x y w h m M n = Returns (lon, lat, alt) ∧
    ∀ i (lo la a : R),
      lon !! i = Some lo → lat !! i = Some la → alt !! i = Some a →
      (Rmin m M <= a <= Rmax m M)%R ∧
      ∃ c r : R,
        (IZR x <= c <= IZR (x + w))%R ∧ (IZR y <= r <= IZR (y + h))%R ∧
        (lo, la) = localization rpc c r a.
Proof.
  intros Hn Hw Hh. eexists _, _, _.
  split; [exact (ground_control_points_R rpc x y w h m M n Hn) |].
  intros i lo la a Hlo Hla Ha.
  pose proof (lookup_zip_with3 (fun u v t : R => (u, v, t)) _ _ _ i lo la a Hlo Hla Ha)
    as Hz.
  unfold zip_with3 in Hz. rewrite !zip_with_grid in Hz.
  apply list_elem_of_lookup_2, elem_of_grid in Hz as (c & r & a' & Hc & Hr & Ha' & Heq).
  injection Heq as -> -> ->.
  split; [by apply (np_linspace_between m M n) |].
  exists c, r. split; [by apply (gcp_range_inside x w n) |].
  split; [by apply (gcp_range_inside y h n) |].
  symmetry. apply surjective_pairing.
Qed.

(** A run of X20's theorem. *)
Lemma ground_control_points_inside_roi_witness :
  ∃ lon lat alt : list R,
    ground_control_points shift_model 0 0 4 4 0%R 10%R 2 = Returns (lon, lat, alt) ∧
    ∀ i (lo la a : R),
      lon !! i = Some lo → lat !! i = Some la → alt !! i = Some a →
      (Rmin 0 10 <= a <= Rmax 0 10)%R ∧
      ∃ c r : R,
        (IZR 0 <= c <= IZR (0 + 4))%R ∧ (IZR 0 <= r <= IZR (0 + 4))%R ∧
        (lo, la) = localization shift_model c r a.
Proof.
  apply (ground_control_points_inside_roi shift_model 0 0 4 4 0%R 10%R 2); lia.
Defined.

Lemma length_vstack4_T {N : Num} (x1 y1 x2 y2 : list num) :
  length (vstack4_T x1 y1 x2 y2)
  = (length x1 `min` length y1) `min` (length x2 `min` length y2).
Proof. unfold vstack4_T. by rewrite length_zip_with, !length_zip. Qed.

(** X21.  [matches_from_rpc] raises what [altitude_range] (called with
    the margins 100 and -100) raises; once the range is known it raises
    ZeroDivisionError for [n = 0] and returns [n^3] matches for
    [n >= 1].  This holds for every carrier. *)
Theorem matches_from_rpc_outcome {N : Num} {NN : NumNaN N} (env : Env N)
    (cfg : gmap string (cfg_val num)) (rpc1 rpc2 : CameraModel N)
    (x y w h : Z) (n : nat) :
  (∀ e, altitude_range env cfg rpc1 x y w h (of_Z 100) (of_Z (-100)) = Raise e →
     matches_from_rpc env cfg rpc1 rpc2 x y w h n = Raises (Exn e)) ∧
  (∀ m M, altitude_range env cfg rpc1 x y w h (of_Z 100) (of_Z (-100)) = Ok (m, M) →
     (n = 0 → matches_from_rpc env cfg rpc1 rpc2 x y w h n = Raises ZeroDivisionError) ∧
     (n ≠ 0 → ∃ ms, matches_from_rpc env cfg rpc1 rpc2 x y w h n = Returns ms ∧
                    length ms = n * n * n)).
Proof.
  split.
  - intros e He. unfold matches_from_rpc. by rewrite He.
  - intros m M Halt. split.
    + intros ->. unfold matches_from_rpc. by rewrite Halt.
    + intros Hn.
      destruct (ground_control_points_returns rpc1 x y w h m M n Hn)
        as (lon & lat & alt & Hgcp & _ & Hlon & Hlat & Halt').
      unfold matches_from_rpc. rewrite Halt, Hgcp.
      destruct (length_projection_v rpc1 lon lat alt) as [Hx1 Hy1].
      destruct (length_projection_v rpc2 lon lat alt) as [Hx2 Hy2].
      destruct (projection_v rpc1 lon lat alt) as [x1 y1].
      destruct (projection_v rpc2 lon lat alt) as [x2 y2].
      cbn [fst snd] in *. eexists. split; [reflexivity |].
      rewrite length_vstack4_T. lia.
Qed.

(** Runs of X21's theorem (binary64): no configuration, [n = 0] and
    [n = 2]. *)
Lemma matches_from_rpc_outcome_witness :
  matches_from_rpc env0 ∅ flat_model quad_model 0 0 4 4 2
    = Raises (Exn (KeyError "exogenous_dem")) ∧
  matches_from_rpc env0 cfg_without_dem flat_model quad_model 0 0 4 4 0
    = Raises ZeroDivisionError ∧
  ∃ ms, matches_from_rpc env0 cfg_without_dem flat_model quad_model 0 0 4 4 2
          = Returns ms ∧ length ms = 2 * 2 * 2.
Proof.
  split; [|split].
  - apply (proj1 (@matches_from_rpc_outcome f64_num f64_nan env0 ∅
                    flat_model quad_model 0 0 4 4 2)).
    vm_compute. reflexivity.
  - apply (proj2 (@matches_from_rpc_outcome f64_num f64_nan env0 cfg_without_dem
                    flat_model quad_model 0 0 4 4 0) (-1)%float 1%float);
      [vm_compute; reflexivity | reflexivity].
  - apply (proj2 (@matches_from_rpc_outcome f64_num f64_nan env0 cfg_without_dem
                    flat_model quad_model 0 0 4 4 2) (-1)%float 1%float);
      [vm_compute; reflexivity | lia].
Defined.

Lemma matches_from_rpc_R {NN : NumNaN R_num} (env : Env R_num)
    (cfg : gmap string (cfg_val R)) (rpc1 rpc2 : CameraModel R_num)
    (x y w h : Z) (n : nat) (m M : R) :
  altitude_range env cfg rpc1 x y w h 100%R (-100)%R = Ok (m, M) → n ≠ 0 →
  matches_from_rpc env cfg rpc1 rpc2 x y w h n
  = Returns
      (grid (fun c r a : R =>
               let l := localization rpc1 c r a in
               ((projection rpc1 l.1 l.2 a).1, (projection rpc1 l.1 l.2 a).2,
                (projection rpc2 l.1 l.2 a).1, (projection rpc2 l.1 l.2 a).2))
         (@np_linspace R_num (@gcp_range R_num x w n).1.1 (@gcp_range R_num x w n).1.2 n)
         (@np_linspace R_num (@gcp_range R_num y h n).1.1 (@gcp_range R_num y h n).1.2 n)
         (@np_linspace R_num m M n)).
Proof.
  intros Halt Hn. unfold matches_from_rpc.
  change (@of_Z R_num 100) with 100%R. change (@of_Z R_num (-100)) with (-100)%R.
  rewrite Halt, (ground_control_points_R rpc1 x y w h m M n Hn).
  unfold projection_v, vstack4_T, zip_with3. rewrite !zip_with_grid. reflexivity.
Qed.

(** X22.  In exact arithmetic, when the projection of the first camera
    inverts its localization, every match [(x1, y1, x2, y2)] that
    [matches_from_rpc] returns for [n >= 1] and a ROI of non-negative
    width and height has [(x1, y1)] inside the ROI, and [(x2, y2)] is the
    point of the second image corresponding to [(x1, y1)] at an altitude
    of the range that [altitude_range] returned. *)
Theorem matches_from_rpc_inside_roi {NN : NumNaN R_num} (env : Env R_num)
    (cfg : gmap string (cfg_val R)) (rpc1 rpc2 : CameraModel R_num)
    (x y w h : Z) (n : nat) (m M : R) :
  altitude_range env cfg rpc1 x y w h 100%R (-100)%R = Ok (m, M) →
  n ≠ 0 → (0 ≤ w)%Z → (0 ≤ h)%Z →
  (∀ c r a : R,
     projection rpc1 (localization rpc1 c r a).1 (localization rpc1 c r a).2 a = (c, r)) →
  ∃ ms : list (R * R * R * R),
    matches_from_rpc env cfg rpc1 rpc2 x y w h n = Returns ms ∧
    length ms = n * n * n ∧
    ∀ q, q ∈ ms →
      (IZR x <= q.1.1.1 <= IZR (x + w))%R ∧ (IZR y <= q.1.1.2 <= IZR (y + h))%R ∧
      ∃ a : R, (Rmin m M <= a <= Rmax m M)%R ∧
        (q.1.2, q.2) = corresponding_point rpc1 rpc2 q.1.1.1 q.1.1.2 a.
Proof.
  intros Halt Hn Hw Hh Hround. eexists.
  split; [exact (matches_from_rpc_R env cfg rpc1 rpc2 x y w h n m M Halt Hn) |].
  split.
  - rewrite length_grid, !(@length_np_linspace R_num). lia.
  - intros q Hq. apply elem_of_grid in Hq as (c & r & a & Hc & Hr & Ha & ->).
    cbv zeta. rewrite (Hround c r a). cbn [fst snd].
    split; [by apply (gcp_range_inside x w n) |].
    split; [by apply (gcp_range_inside y h n) |].
    exists a. split; [by apply (np_linspace_between m M n) |].
    unfold corresponding_point. symmetry. apply surjective_pairing.
Qed.

(** A run of X22's theorem: no elevation source, so the range is the
    coarse one. *)
Lemma matches_from_rpc_inside_roi_witness :
  ∃ ms : list (R * R * R * R),
    @matches_from_rpc R_num R_no_nan env_R cfg_R_without_dem ident_model shift_model
      0 0 4 4 2 = Returns ms ∧
    length ms = 2 * 2 * 2 ∧
    ∀ q, q ∈ ms →
      (IZR 0 <= q.1.1.1 <= IZR (0 + 4))%R ∧ (IZR 0 <= q.1.1.2 <= IZR (0 + 4))%R ∧
      ∃ a : R, (Rmin (0 - 1 * 1) (0 + 1 * 1) <= a <= Rmax (0 - 1 * 1) (0 + 1 * 1))%R ∧
        (q.1.2, q.2) = corresponding_point ident_model shift_model q.1.1.1 q.1.1.2 a.
Proof.
  apply (@matches_from_rpc_inside_roi R_no_nan env_R cfg_R_without_dem
           ident_model shift_model 0 0 4 4 2 (0 - 1 * 1)%R (0 + 1 * 1)%R);
    [reflexivity | lia | lia | lia | reflexivity].
Defined.

(** ** The disparity range, continued *)

(** X23.  In exact arithmetic, two identical views (the same camera, whose
    projection inverts its localization, the same rectifying homography
    and no pointing correction) have disparity 0 at every point and every
    altitude, and [altitude_range_to_disp_range] returns (0, 0). *)
Theorem disparity_of_identical_views (env : Env R_num) (rpc : CameraModel R_num)
    (H : list (list R)) :
  (∀ a b c : R,
     projection rpc (localization rpc a b c).1 (localization rpc a b c).2 c = (a, b)) →
  (∀ x y alt : list R,
     length y = length x → length alt = length x →
     alt_to_disp env rpc rpc x y alt H H None = @np_zeros R_num (length x)) ∧
  (∀ (m M : R) (x y w h : Z) (margin_top margin_bottom : R),
     altitude_range_to_disp_range env m M rpc rpc x y w h H H None
       margin_top margin_bottom = Ok (0%R, 0%R)).
Proof.
  intros Hround.
  assert (Hpt : ∀ a b c : R, point_disp env rpc rpc H H None a b c = 0%R).
  { intros a b c. unfold point_disp, corresponding_point.
    rewrite (Hround a b c). Rcarrier. Rops. lra. }
  split.
  - intros x y alt Hy Halt. unfold alt_to_disp.
    rewrite (find_corresponding_point_id rpc x y alt Hy Halt Hround).
    unfold np_subtract, col0, points_apply_homography, vstack2_T.
    rewrite zip_with_map_same. unfold np_zeros.
    rewrite !map_map.
    assert (Hl : length (zip x y) = length x) by (rewrite length_zip; lia).
    rewrite <- Hl. clear Hl Hy Halt.
    Rcarrier. generalize (zip x y). intros l.
    induction l as [|p l IH]; [done |].
    cbn [map length repeat]. rewrite IH. f_equal. Rops. lra.
  - intros m M x y w h mt mb.
    assert (Hrun : altitude_range_to_disp_range env m M rpc rpc x y w h H H None mt mb
                   = (d_min ← @np_min R_num (corner_disparities env m M rpc rpc x y w h H H None);
                      d_max ← @np_max R_num (corner_disparities env m M rpc rpc x y w h H H None);
                      Ok (d_min, d_max))) by reflexivity.
    rewrite Hrun, corner_disparities_pointwise. cbn [map]. rewrite !Hpt.
    cbn [np_min np_max fold_left mbind result_bind].
    rewrite !R_minimum, !R_maximum.
    repeat rewrite (Rmin_left 0 0) by lra. repeat rewrite (Rmax_left 0 0) by lra.
    reflexivity.
Qed.

(** A run of X23's theorem. *)
Lemma disparity_of_identical_views_witness :
  (∀ x y alt : list R,
     length y = length x → length alt = length x →
     alt_to_disp env_R ident_model ident_model x y alt [] [] None
       = @np_zeros R_num (length x)) ∧
  (∀ (m M : R) (x y w h : Z) (margin_top margin_bottom : R),
     altitude_range_to_disp_range env_R m M ident_model ident_model x y w h [] [] None
       margin_top margin_bottom = Ok (0%R, 0%R)).
Proof.
  apply (disparity_of_identical_views env_R ident_model []).
  reflexivity.
Defined.

(** X24.  In binary64, [np.min] and [np.max] propagate NaN: if one of the
    8 corner disparities is NaN, both bounds returned by
    [altitude_range_to_disp_range] are NaN. *)
Theorem altitude_range_to_disp_range_nan (env : Env f64_num) (m M : float)
    (rpc1 rpc2 : CameraModel f64_num) (x y w h : Z)
    (H1 H2 : list (list float)) (A : option (list (list float)))
    (margin_top margin_bottom : float) (i : nat) (d : float) :
  corner_disparities env m M rpc1 rpc2 x y w h H1 H2 A !! i = Some d →
  PrimFloat.is_nan d = true →
  ∃ d_min d_max,
    altitude_range_to_disp_range env m M rpc1 rpc2 x y w h H1 H2 A
      margin_top margin_bottom = Ok (d_min, d_max) ∧
    PrimFloat.is_nan d_min = true ∧ PrimFloat.is_nan d_max = true.
Proof.
  intros Hd Hnan.
  destruct (np_min_nan _ i d Hd Hnan) as (lo & Hlo & Hlonan).
  destruct (np_max_nan _ i d Hd Hnan) as (hi & Hhi & Hhinan).
  exists lo, hi. split; [|done].
  assert (Hrun : altitude_range_to_disp_range env m M rpc1 rpc2 x y w h H1 H2 A
                   margin_top margin_bottom
                 = (d_min ← @np_min f64_num (corner_disparities env m M rpc1 rpc2 x y w h H1 H2 A);
                    d_max ← @np_max f64_num (corner_disparities env m M rpc1 rpc2 x y w h H1 H2 A);
                    Ok (d_min, d_max))) by reflexivity.
  rewrite Hrun, Hlo. cbn [mbind result_bind]. rewrite Hhi. reflexivity.
Qed.

(** A run of X24's theorem: the corners of column 1 are not seen by the
    second image. *)
Lemma altitude_range_to_disp_range_nan_witness :
  ∃ d_min d_max,
    altitude_range_to_disp_range env0 0%float 1%float flat_model blind_model
      0 0 1 1 [] [] None 0%float 0%float = Ok (d_min, d_max) ∧
    PrimFloat.is_nan d_min = true ∧ PrimFloat.is_nan d_max = true.
Proof.
  apply (altitude_range_to_disp_range_nan env0 0%float 1%float flat_model blind_model
           0 0 1 1 [] [] None 0%float 0%float 4 PrimFloat.nan);
    vm_compute; reflexivity.
Defined.

(** ** The camera matrix: shape and null space *)




(** X27.  In exact arithmetic, the system that [camera_matrix] builds
    annihilates every exact projection matrix: if a 3 x 4 matrix [P] maps
    each world point [X_i], in homogeneous coordinates, onto a multiple
    [k (x_i, y_i, 1)] of its image point, then every row of
    [dlt_system X x] applied to the 12 entries of [P] gives 0. *)
Theorem dlt_system_annihilates_projection (X : list (R * R * R)) (x : list (R * R))
    (p11 p12 p13 p14 p21 p22 p23 p24 p31 p32 p33 p34 : R) :
  let P1 := [p11; p12; p13; p14] in
  let P2 := [p21; p22; p23; p24] in
  let P3 := [p31; p32; p33; p34] in
  (∀ i Xi xi, X !! i = Some Xi → x !! i = Some xi →
     ∃ k : R, @vdot R_num P1 (homog3 Xi) = (k * xi.1)%R ∧
              @vdot R_num P2 (homog3 Xi) = (k * xi.2)%R ∧
              @vdot R_num P3 (homog3 Xi) = k) →
  Forall (fun v => v = 0%R) (mat_vec (@dlt_system R_num X x) (P1 ++ P2 ++ P3)).
Proof.
  intros P1 P2 P3 Hproj.
  rewrite (@dlt_system_eq R_num). unfold mat_vec.
  assert (Hz : ∀ q, q ∈ zip X x →
               @vdot R_num (dlt_row0 q.1 q.2) (P1 ++ P2 ++ P3) = 0%R ∧
               @vdot R_num (dlt_row1 q.1 q.2) (P1 ++ P2 ++ P3) = 0%R).
  { intros [Xi xi] Hq. apply list_elem_of_lookup in Hq as (i & Hi).
    apply lookup_zip_with_Some in Hi as (Xi' & xi' & Heq & HX & Hx).
    injection Heq as <- <-.
    destruct (Hproj i Xi xi HX Hx) as (k & H1 & H2 & H3).
    destruct (dlt_rows_cross Xi xi p11 p12 p13 p14 p21 p22 p23 p24 p31 p32 p33 p34)
      as [Hr0 Hr1].
    cbv zeta in Hr0, Hr1. fold P1 P2 P3 in Hr0, Hr1.
    cbn [fst snd]. rewrite Hr0, Hr1, H1, H2, H3.
    unfold cross3. cbn [fst snd]. Rcarrier. Rops. split; ring. }
  apply Forall_map. Rcarrier.
  generalize dependent (zip X x). intros l Hl.
  induction l as [|q l IH]; [constructor |].
  destruct (Hl q ltac:(left)) as [H0 H1].
  change (mjoin (map (fun p : R * R * R * (R * R) =>
                        [@dlt_row0 R_num p.1 p.2; @dlt_row1 R_num p.1 p.2]) (q :: l)))
    with (@dlt_row0 R_num q.1 q.2 :: @dlt_row1 R_num q.1 q.2
          :: mjoin (map (fun p : R * R * R * (R * R) =>
                           [@dlt_row0 R_num p.1 p.2; @dlt_row1 R_num p.1 p.2]) l)).
  constructor; [exact H0 |]. constructor; [exact H1 |].
  apply IH. intros q' Hq'. apply Hl. by right.
Qed.

(** A run of X27's theorem: an orthographic camera. *)
Lemma dlt_system_annihilates_projection_witness :
  Forall (fun v => v = 0%R)
    (mat_vec (@dlt_system R_num [(0, 0, 0); (1, 2, 3)]%R [(0, 0); (1, 2)]%R)
       ([1; 0; 0; 0] ++ [0; 1; 0; 0] ++ [0; 0; 0; 1])%R).
Proof.
  apply (dlt_system_annihilates_projection [(0, 0, 0); (1, 2, 3)]%R [(0, 0); (1, 2)]%R
           1 0 0 0 0 1 0 0 0 0 0 1).
  intros [|[|i]] Xi xi HX Hx; [| |done];
    injection HX as <-; injection Hx as <-; exists 1%R;
    unfold vdot, np_sum, np_multiply, homog3; simpl; repeat split; lra.
Defined.

(** ** Normalising twice, and similar point sets (exact arithmetic) *)

Lemma normalized_2d_fixed (pts : list (R * R)) :
  centroid2 pts = (0%R, 0%R) → mean_radius2 pts = R_sqrt.sqrt 2 →
  @normalize_2d_points R_num pts = (pts, [[1; 0; 0]; [0; 1; 0]; [0; 0; 1]]%R).
Proof.
  intros Hc Hr.
  assert (Hcx : cx2 pts = 0%R).
  { pose proof (f_equal fst Hc) as H. unfold centroid2, col0 in H. cbn [fst] in H.
    by rewrite np_mean_R, length_map in H. }
  assert (Hcy : cy2 pts = 0%R).
  { pose proof (f_equal snd Hc) as H. unfold centroid2, col1 in H. cbn [snd] in H.
    by rewrite np_mean_R, length_map in H. }
  assert (Hmd : md2 pts = R_sqrt.sqrt 2).
  { rewrite <- Hr. unfold mean_radius2, md2, np_sqrt, np_add, np_square, col0, col1.
    rewrite !map_map, zip_with_map_same, map_map, np_mean_R, length_map.
    f_equal. f_equal. apply map_ext. intros p. unfold dist2. rewrite Hcx, Hcy.
    Rcarrier. Rops. f_equal. ring. }
  assert (Hs : s2 pts = 1%R).
  { unfold s2. rewrite Hmd. field.
    assert (0 < R_sqrt.sqrt 2)%R by (apply sqrt_lt_R0; lra). lra. }
  rewrite normalize_2d_points_R, Hs, Hcx, Hcy. f_equal.
  - rewrite <- (map_id pts) at 2. apply map_ext. intros [a b]. cbn [fst snd].
    f_equal; ring.
  - repeat (f_equal; try ring).
Qed.

Lemma normalized_3d_fixed (pts : list (R * R * R)) :
  centroid3 pts = (0%R, 0%R, 0%R) → mean_radius3 pts = R_sqrt.sqrt 3 →
  @normalize_3d_points R_num pts
  = (pts, [[1; 0; 0; 0]; [0; 1; 0; 0]; [0; 0; 1; 0]; [0; 0; 0; 1]]%R).
Proof.
  intros Hc Hr.
  assert (Hcx : cx3 pts = 0%R).
  { pose proof (f_equal (fun p : R * R * R => p.1.1) Hc) as H.
    unfold centroid3, arr3_col0 in H. cbn [fst snd] in H.
    by rewrite np_mean_R, length_map in H. }
  assert (Hcy : cy3 pts = 0%R).
  { pose proof (f_equal (fun p : R * R * R => p.1.2) Hc) as H.
    unfold centroid3, arr3_col1 in H. cbn [fst snd] in H.
    by rewrite np_mean_R, length_map in H. }
  assert (Hcz : cz3 pts = 0%R).
  { pose proof (f_equal (fun p : R * R * R => p.2) Hc) as H.
    unfold centroid3, arr3_col2 in H. cbn [fst snd] in H.
    by rewrite np_mean_R, length_map in H. }
  assert (Hmd : md3 pts = R_sqrt.sqrt 3).
  { rewrite <- Hr.
    unfold mean_radius3, md3, np_sqrt, np_add, np_square, arr3_col0, arr3_col1, arr3_col2.
    rewrite !map_map, !zip_with_map_same, map_map, np_mean_R, length_map.
    f_equal. f_equal. apply map_ext. intros p. unfold dist3. rewrite Hcx, Hcy, Hcz.
    Rcarrier. Rops. f_equal. ring. }
  assert (Hs : s3 pts = 1%R).
  { unfold s3. rewrite Hmd. field.
    assert (0 < R_sqrt.sqrt 3)%R by (apply sqrt_lt_R0; lra). lra. }
  rewrite normalize_3d_points_R, Hs, Hcx, Hcy, Hcz. f_equal.
  - rewrite <- (map_id pts) at 2. apply map_ext. intros [[a b] c]. cbn [fst snd].
    repeat f_equal; ring.
  - repeat (f_equal; try ring).
Qed.

(** X28.  In exact arithmetic, normalisation is idempotent: for a point
    set with at least two distinct points, normalising the normalised
    points returns them unchanged together with the identity matrix, in
    2D and in 3D. *)
Theorem normalize_points_idempotent :
  (∀ pts : list (R * R),
     (∃ i j p q, pts !! i = Some p ∧ pts !! j = Some q ∧ p ≠ q) →
     @normalize_2d_points R_num (@normalize_2d_points R_num pts).1
     = ((@normalize_2d_points R_num pts).1, [[1; 0; 0]; [0; 1; 0]; [0; 0; 1]]%R)) ∧
  (∀ pts : list (R * R * R),
     (∃ i j p q, pts !! i = Some p ∧ pts !! j = Some q ∧ p ≠ q) →
     @normalize_3d_points R_num (@normalize_3d_points R_num pts).1
     = ((@normalize_3d_points R_num pts).1,
        [[1; 0; 0; 0]; [0; 1; 0; 0]; [0; 0; 1; 0]; [0; 0; 0; 1]]%R)).
Proof.
  split; intros pts Hd.
  - apply normalized_2d_fixed;
      [by apply normalize_2d_centroid | by apply normalize_2d_mean_radius].
  - apply normalized_3d_fixed;
      [by apply normalize_3d_centroid | by apply normalize_3d_mean_radius].
Qed.

(** A run of X28's theorem: two points on a line. *)
Lemma normalize_points_idempotent_witness :
  @normalize_2d_points R_num (@normalize_2d_points R_num [(0, 0); (2, 0)]%R).1
  = ((@normalize_2d_points R_num [(0, 0); (2, 0)]%R).1,
     [[1; 0; 0]; [0; 1; 0]; [0; 0; 1]]%R) ∧
  @normalize_3d_points R_num (@normalize_3d_points R_num [(0, 0, 0); (2, 0, 0)]%R).1
  = ((@normalize_3d_points R_num [(0, 0, 0); (2, 0, 0)]%R).1,
     [[1; 0; 0; 0]; [0; 1; 0; 0]; [0; 0; 1; 0]; [0; 0; 0; 1]]%R).
Proof.
  destruct normalize_points_idempotent as [H2 H3]. split.
  - apply (H2 [(0, 0); (2, 0)]%R).
    exists 0, 1, (0, 0)%R, (2, 0)%R.
    split; [reflexivity |]. split; [reflexivity |].
    intros H. injection H. lra.
  - apply (H3 [(0, 0, 0); (2, 0, 0)]%R).
    exists 0, 1, (0, 0, 0)%R, (2, 0, 0)%R.
    split; [reflexivity |]. split; [reflexivity |].
    intros H. injection H. lra.
Defined.

Lemma Rsum_map_affine {A} (f : A → R) (a t : R) (l : list A) :
  Rsum (map (fun x => a * f x + t)%R l) = (a * Rsum (map f l) + INR (length l) * t)%R.
Proof.
  induction l as [|x l IH]; [simpl; lra |].
  change (Rsum (map (fun x => a * f x + t)%R (x :: l)))
    with (a * f x + t + Rsum (map (fun x => a * f x + t)%R l))%R.
  change (Rsum (map f (x :: l))) with (f x + Rsum (map f l))%R.
  rewrite IH. change (length (x :: l)) with (S (length l)). rewrite S_INR. lra.
Qed.

Section Similar2.
Variables (pts : list (R * R)) (a tx ty : R).
Hypothesis Hdistinct : ∃ i j p q, pts !! i = Some p ∧ pts !! j = Some q ∧ p ≠ q.
Hypothesis Ha : (0 < a)%R.

Local Abbreviation g := (fun p : R * R => (a * p.1 + tx, a * p.2 + ty)%R).

Lemma similar2_n : INR (length pts) ≠ 0%R.
Proof.
  apply not_0_INR. pose proof (pts2_nonempty pts Hdistinct).
  destruct pts; simpl; [done | lia].
Qed.

Lemma similar2_cx : cx2 (map g pts) = (a * cx2 pts + tx)%R.
Proof.
  unfold cx2. rewrite map_map, length_map. cbn [fst].
  rewrite (Rsum_map_affine fst a tx pts). field. exact similar2_n.
Qed.

Lemma similar2_cy : cy2 (map g pts) = (a * cy2 pts + ty)%R.
Proof.
  unfold cy2. rewrite map_map, length_map. cbn [snd].
  rewrite (Rsum_map_affine snd a ty pts). field. exact similar2_n.
Qed.

Lemma similar2_dist p : dist2 (map g pts) (g p) = (a * dist2 pts p)%R.
Proof.
  unfold dist2. rewrite similar2_cx, similar2_cy. cbn [fst snd].
  rewrite <- sqrt_scale2 by lra. f_equal. ring.
Qed.

Lemma similar2_md : md2 (map g pts) = (a * md2 pts)%R.
Proof.
  unfold md2. rewrite map_map, length_map.
  rewrite (map_ext _ (fun p => a * dist2 pts p)%R) by apply similar2_dist.
  rewrite Rsum_map_scale. field. exact similar2_n.
Qed.

Lemma similar2_points :
  (@normalize_2d_points R_num (map g pts)).1 = (@normalize_2d_points R_num pts).1.
Proof.
  rewrite !normalize_2d_points_R. cbn [fst]. rewrite map_map.
  apply map_ext. intros p. cbn [fst snd].
  unfold s2. rewrite similar2_md, similar2_cx, similar2_cy.
  pose proof (md2_pos pts Hdistinct) as Hmd.
  f_equal; field; lra.
Qed.
End Similar2.

Section Similar3.
Variables (pts : list (R * R * R)) (a tx ty tz : R).
Hypothesis Hdistinct : ∃ i j p q, pts !! i = Some p ∧ pts !! j = Some q ∧ p ≠ q.
Hypothesis Ha : (0 < a)%R.

Local Abbreviation g3 :=
  (fun p : R * R * R => (a * p.1.1 + tx, a * p.1.2 + ty, a * p.2 + tz)%R).

Lemma similar3_n : INR (length pts) ≠ 0%R.
Proof.
  apply not_0_INR. pose proof (pts3_nonempty pts Hdistinct).
  destruct pts; simpl; [done | lia].
Qed.

Lemma similar3_cx : cx3 (map g3 pts) = (a * cx3 pts + tx)%R.
Proof.
  unfold cx3. rewrite map_map, length_map. cbn [fst snd].
  rewrite (Rsum_map_affine (fun p : R * R * R => p.1.1) a tx pts). field.
  exact similar3_n.
Qed.

Lemma similar3_cy : cy3 (map g3 pts) = (a * cy3 pts + ty)%R.
Proof.
  unfold cy3. rewrite map_map, length_map. cbn [fst snd].
  rewrite (Rsum_map_affine (fun p : R * R * R => p.1.2) a ty pts). field.
  exact similar3_n.
Qed.

Lemma similar3_cz : cz3 (map g3 pts) = (a * cz3 pts + tz)%R.
Proof.
  unfold cz3. rewrite map_map, length_map. cbn [fst snd].
  rewrite (Rsum_map_affine (fun p : R * R * R => p.2) a tz pts). field.
  exact similar3_n.
Qed.

Lemma similar3_dist p : dist3 (map g3 pts) (g3 p) = (a * dist3 pts p)%R.
Proof.
  unfold dist3. rewrite similar3_cx, similar3_cy, similar3_cz. cbn [fst snd].
  rewrite <- sqrt_scale3 by lra. f_equal. ring.
Qed.

Lemma similar3_md : md3 (map g3 pts) = (a * md3 pts)%R.
Proof.
  unfold md3. rewrite map_map, length_map.
  rewrite (map_ext _ (fun p => a * dist3 pts p)%R) by apply similar3_dist.
  rewrite Rsum_map_scale. field. exact similar3_n.
Qed.

Lemma similar3_points :
  (@normalize_3d_points R_num (map g3 pts)).1 = (@normalize_3d_points R_num pts).1.
Proof.
  rewrite !normalize_3d_points_R. cbn [fst]. rewrite map_map.
  apply map_ext. intros p. cbn [fst snd].
  unfold s3. rewrite similar3_md, similar3_cx, similar3_cy, similar3_cz.
  pose proof (md3_pos pts Hdistinct) as Hmd.
  f_equal; [f_equal |]; field; lra.
Qed.
End Similar3.

(** X29.  In exact arithmetic, the normalised points do not depend on
    the frame of the input: scaling the points by [a > 0] and translating
    them gives the same normalised points, in 2D and in 3D. *)
Theorem normalize_points_similarity_invariant :
  (∀ (pts : list (R * R)) (a tx ty : R),
     (∃ i j p q, pts !! i = Some p ∧ pts !! j = Some q ∧ p ≠ q) → (0 < a)%R →
     (@normalize_2d_points R_num
        (map (fun p : R * R => (a * p.1 + tx, a * p.2 + ty)%R) pts)).1
     = (@normalize_2d_points R_num pts).1) ∧
  (∀ (pts : list (R * R * R)) (a tx ty tz : R),
     (∃ i j p q, pts !! i = Some p ∧ pts !! j = Some q ∧ p ≠ q) → (0 < a)%R →
     (@normalize_3d_points R_num
        (map (fun p : R * R * R => (a * p.1.1 + tx, a * p.1.2 + ty, a * p.2 + tz)%R) pts)).1
     = (@normalize_3d_points R_num pts).1).
Proof.
  split.
  - intros pts a tx ty Hd Ha. by apply similar2_points.
  - intros pts a tx ty tz Hd Ha. by apply similar3_points.
Qed.

(** A run of X29's theorem: two points, scaled by 3 and translated. *)
Lemma normalize_points_similarity_invariant_witness :
  (@normalize_2d_points R_num
     (map (fun p : R * R => (3 * p.1 + 5, 3 * p.2 + 7)%R) [(0, 0); (2, 0)]%R)).1
  = (@normalize_2d_points R_num [(0, 0); (2, 0)]%R).1 ∧
  (@normalize_3d_points R_num
     (map (fun p : R * R * R => (3 * p.1.1 + 5, 3 * p.1.2 + 7, 3 * p.2 + 9)%R)
        [(0, 0, 0); (2, 0, 0)]%R)).1
  = (@normalize_3d_points R_num [(0, 0, 0); (2, 0, 0)]%R).1.
Proof.
  destruct normalize_points_similarity_invariant as [H2 H3]. split.
  - apply (H2 [(0, 0); (2, 0)]%R 3%R 5%R 7%R); [|lra].
    exists 0, 1, (0, 0)%R, (2, 0)%R.
    split; [reflexivity |]. split; [reflexivity |].
    intros H. injection H. lra.
  - apply (H3 [(0, 0, 0); (2, 0, 0)]%R 3%R 5%R 7%R 9%R); [|lra].
    exists 0, 1, (0, 0, 0)%R, (2, 0, 0)%R.
    split; [reflexivity |]. split; [reflexivity |].
    intros H. injection H. lra.
Defined.
